(** * disk_throughput_win: sizing, pass loops and statistics

    A shallow embedding of [disk_throughput_win.py].  Python integers are
    [Z] (with [//] and [%] as floor division and modulo, which is what
    [Z.div] and [Z.modulo] compute), Python floats are IEEE 754 binary64
    values in the [spec_float] representation of the standard library,
    ctypes [DWORD] values are wrapped modulo [2^32], exceptions are an error
    monad, and the Win32 calls and the clock are oracles of a record [OS]. *)

From Stdlib Require Import ZArith List Bool Lia PeanoNat Permutation.
From Stdlib Require Import Floats.SpecFloat.
Import ListNotations.
Local Open Scope Z_scope.

(** ** Exceptions and results *)

Inductive os_failure :=
| CreateFileW_failed
| SetFilePointerEx_size_failed
| SetEndOfFile_failed
| SetFilePointerEx_rewind_failed
| SetFilePointerEx_failed
| WriteFile_failed_wrote (dw_written : Z)
| ReadFile_failed_read (dw_read : Z).

Inductive value_error :=
| min_arg_is_an_empty_sequence
| max_arg_is_an_empty_sequence
| cannot_convert_float_NaN_to_integer
| inf_minus_inf_in_fsum.

Inductive exn :=
| ZeroDivisionError
| OverflowError
| ValueError (why : value_error)
| StatisticsError
| MemoryError
| SystemExit (requested free_bytes : Z)
| OSError (what : os_failure) (win_err : Z).

(** [OutOfFuel] is the outcome of a loop that has not finished within the
    number of iterations the model was given. *)
Inductive result (A : Type) :=
| Ok (a : A)
| Raise (e : exn)
| OutOfFuel.
Arguments Ok {A} a.
Arguments Raise {A} e.
Arguments OutOfFuel {A}.

Definition bind {A B : Type} (r : result A) (k : A -> result B) : result B :=
  match r with
  | Ok a => k a
  | Raise e => Raise e
  | OutOfFuel => OutOfFuel
  end.

Notation "x <- e ;; k" := (bind e (fun x => k))
  (at level 61, e at next level, right associativity).
Notation "e ;;; k" := (bind e (fun _ => k))
  (at level 61, right associativity).

Definition check (b : bool) (e : exn) : result unit :=
  if b then Ok tt else Raise e.

(** ** Python integers *)

Module Py.

(** [x // y] *)
Definition floordiv (x y : Z) : result Z :=
  if y =? 0 then Raise ZeroDivisionError else Ok (x / y).

(** [x % y] *)
Definition mod_ (x y : Z) : result Z :=
  if y =? 0 then Raise ZeroDivisionError else Ok (x mod y).

End Py.

(** The value a ctypes [DWORD] holds after an integer is stored in it. *)
Definition DWORD (x : Z) : Z := x mod 2 ^ 32.

(** ** Python floats: binary64 *)

Module F64.

Definition prec : Z := 53.
Definition emax : Z := 1024.

Definition float := spec_float.

Definition zero : float := S754_zero false.

(** The literal [0.8]: the double nearest to 8/10, 0x3FE999999999999A. *)
Definition lit_0_8 : float := S754_finite false 7205759403792794 (-53).

Definition is_nan (x : float) : bool :=
  match x with S754_nan => true | _ => false end.

Definition is_zero (x : float) : bool :=
  match x with S754_zero _ => true | _ => false end.

Definition is_finite (x : float) : bool :=
  match x with S754_zero _ | S754_finite _ _ _ => true | _ => false end.

(** The sign bit of a float that is not a NaN. *)
Definition sign (x : float) : bool :=
  match x with
  | S754_zero s | S754_infinity s | S754_finite s _ _ => s
  | S754_nan => false
  end.

(** [x] is a zero, a finite number or an infinity of sign [s]. *)
Definition signed (s : bool) (x : float) : Prop :=
  match x with
  | S754_nan => False
  | S754_zero sx | S754_finite sx _ _ | S754_infinity sx => sx = s
  end.

(** The order [<] and [<=] put on the floats that are not NaNs is the
    lexicographic order of these triples: the class, then the exponent,
    then the mantissa, the last two negated for negative numbers. *)
Definition rank (x : float) : Z * Z * Z :=
  match x with
  | S754_nan => (0, 0, 0)
  | S754_zero _ => (0, 0, 0)
  | S754_infinity true => (-2, 0, 0)
  | S754_infinity false => (2, 0, 0)
  | S754_finite true m e => (-1, - e, - Z.pos m)
  | S754_finite false m e => (1, e, Z.pos m)
  end.

Definition lex_lt (a b : Z * Z * Z) : Prop :=
  let '(a1, a2, a3) := a in
  let '(b1, b2, b3) := b in
  a1 < b1 \/ (a1 = b1 /\ (a2 < b2 \/ (a2 = b2 /\ a3 < b3))).

Definition lex_le (a b : Z * Z * Z) : Prop :=
  let '(a1, a2, a3) := a in
  let '(b1, b2, b3) := b in
  a1 < b1 \/ (a1 = b1 /\ (a2 < b2 \/ (a2 = b2 /\ a3 <= b3))).

(** [float(n)] for an integer [n], as in mixed arithmetic: round to
    nearest, ties to even; too large an integer raises. *)
Definition of_int (n : Z) : result float :=
  match binary_normalize prec emax n 0 false with
  | S754_infinity _ => Raise OverflowError
  | x => Ok x
  end.

(** [int(x)]: truncation towards zero. *)
Definition to_int (x : float) : result Z :=
  match x with
  | S754_zero _ => Ok 0
  | S754_finite s m e =>
      Ok (cond_Zopp s (if 0 <=? e then Z.pos m * 2 ^ e
                       else Z.pos m / 2 ^ (- e)))
  | S754_infinity _ => Raise OverflowError
  | S754_nan => Raise (ValueError cannot_convert_float_NaN_to_integer)
  end.

Definition mul (x y : float) : float := SFmul prec emax x y.
Definition add (x y : float) : float := SFadd prec emax x y.
Definition sub (x y : float) : float := SFsub prec emax x y.

(** [x / y] on floats raises on a zero divisor. *)
Definition div (x y : float) : result float :=
  if is_zero y then Raise ZeroDivisionError else Ok (SFdiv prec emax x y).

Definition ltb (x y : float) : bool := SFltb x y.
Definition leb (x y : float) : bool := SFleb x y.

(** [n * x] for an integer [n] and a float [x]. *)
Definition int_mul (n : Z) (x : float) : result float :=
  fn <- of_int n ;; Ok (mul fn x).

(** [x / n] for a float [x] and an integer [n]. *)
Definition div_int (x : float) (n : Z) : result float :=
  fn <- of_int n ;; div x fn.

(** [n / (1024 * 1024)] for an integer [n]: true division of integers is
    correctly rounded, and the divisor is [2^20], so the quotient is the
    rounding of [n * 2^-20]. *)
Definition int_div_MiB (n : Z) : result float :=
  match binary_normalize prec emax n (-20) false with
  | S754_infinity _ => Raise OverflowError
  | x => Ok x
  end.

Definition is_inf (x : float) : bool :=
  match x with S754_infinity _ => true | _ => false end.

(** [x != 0.0] in C: true of every number but the zeros, and of a NaN. *)
Definition nonzero (x : float) : bool := negb (SFeqb x zero).

(** The literal [2.0]. *)
Definition two : float := S754_finite false 4503599627370496 (-51).

(** [math.fsum], statement by statement after [math_fsum] of CPython's
    mathmodule.c, which [statistics.fmean] calls.  The sum is kept as a
    list [p] of partial sums.

    [fsum_scan x partials] is the inner loop, which adds the item to each
    partial in turn and keeps the rounding errors that are not zero:
<<
    for (i = j = 0; j < n; j++) {
        y = p[j];
        if (fabs(x) < fabs(y)) { t = x; x = y; y = t; }
        hi = x + y;  yr = hi - x;  lo = y - yr;
        if (lo != 0.0) p[i++] = lo;
        x = hi;
    }
>>
    It gives the last [x] and the new [p[0..i-1]]. *)
Fixpoint fsum_scan (x : float) (partials : list float) : float * list float :=
  match partials with
  | [] => (x, [])
  | y :: rest =>
      let '(x, y) := if ltb (SFabs x) (SFabs y) then (y, x) else (x, y) in
      let hi := add x y in
      let yr := sub hi x in
      let lo := sub y yr in
      let '(last, kept) := fsum_scan hi rest in
      (last, if nonzero lo then lo :: kept else kept)
  end.

Record fsum_state := {
  partials : list float;
  special_sum : float;
  inf_sum : float
}.

(** The rest of the body of the loop over the items:
<<
    n = i;
    if (x != 0.0) {
        if (! isfinite(x)) {
            if (isfinite(xsave)) raise OverflowError("intermediate overflow in fsum");
            if (isinf(xsave)) inf_sum += xsave;
            special_sum += xsave;
            n = 0;
        }
        else p[n++] = x;
    }
>>
    A sum that is not finite is an intermediate overflow if the item was
    finite; otherwise the item is an infinity or a NaN, summed apart, and
    the partials are reset. *)
Definition fsum_item (st : fsum_state) (xsave : float) : result fsum_state :=
  let '(x, kept) := fsum_scan xsave (partials st) in
  if nonzero x then
    if negb (is_finite x) then
      if is_finite xsave then Raise OverflowError
      else Ok {| partials := [];
                 special_sum := add (special_sum st) xsave;
                 inf_sum := if is_inf xsave then add (inf_sum st) xsave
                            else inf_sum st |}
    else Ok {| partials := kept ++ [x];
               special_sum := special_sum st;
               inf_sum := inf_sum st |}
  else Ok {| partials := kept;
             special_sum := special_sum st;
             inf_sum := inf_sum st |}.

Fixpoint fsum_items (st : fsum_state) (xs : list float) : result fsum_state :=
  match xs with
  | [] => Ok st
  | x :: rest => st' <- fsum_item st x ;; fsum_items st' rest
  end.

(** The last loop adds the partials from the largest down until a sum
    is inexact, and then makes the rounding to even right across the
    partials that are left:
<<
    hi = p[--n];
    while (n > 0) {
        x = hi;  y = p[--n];
        hi = x + y;  yr = hi - x;  lo = y - yr;
        if (lo != 0.0) break;
    }
    if (n > 0 && ((lo < 0.0 && p[n-1] < 0.0) || (lo > 0.0 && p[n-1] > 0.0))) {
        y = lo * 2.0;  x = hi + y;  yr = x - hi;
        if (y == yr) hi = x;
    }
>>
    [below] lists [p[n-1]], ..., [p[0]]. *)
Fixpoint fsum_round (hi : float) (below : list float) : float :=
  match below with
  | [] => hi
  | y :: rest =>
      let x := hi in
      let hi := add x y in
      let yr := sub hi x in
      let lo := sub y yr in
      if nonzero lo then
        match rest with
        | next :: _ =>
            if (ltb lo zero && ltb next zero) || (ltb zero lo && ltb zero next)
            then
              let y := mul lo two in
              let x := add hi y in
              let yr := sub x hi in
              if SFeqb y yr then x else hi
            else hi
        | [] => hi
        end
      else fsum_round hi rest
  end.

(** After the items: [-inf + inf in fsum] is the [ValueError] of a sum of
    opposite infinities; a sum with an infinity or a NaN is [special_sum];
    a sum without partials is [0.0]. *)
Definition fsum (xs : list float) : result float :=
  st <- fsum_items {| partials := []; special_sum := zero; inf_sum := zero |} xs ;;
  if nonzero (special_sum st) then
    if is_nan (inf_sum st) then Raise (ValueError inf_minus_inf_in_fsum)
    else Ok (special_sum st)
  else
    match rev (partials st) with
    | [] => Ok zero
    | top :: below => Ok (fsum_round top below)
    end.

(** [statistics.fmean] *)
Definition fmean (xs : list float) : result float :=
  total <- fsum xs ;;
  match xs with
  | [] => Raise StatisticsError
  | _ :: _ => div_int total (Z.of_nat (length xs))
  end.

(** [min(xs)] and [max(xs)]: the first extremal item under [<] and [>]. *)
Definition min_ (xs : list float) : result float :=
  match xs with
  | [] => Raise (ValueError min_arg_is_an_empty_sequence)
  | x :: rest =>
      Ok (fold_left (fun cur item => if ltb item cur then item else cur) rest x)
  end.

Definition max_ (xs : list float) : result float :=
  match xs with
  | [] => Raise (ValueError max_arg_is_an_empty_sequence)
  | x :: rest =>
      Ok (fold_left (fun cur item => if ltb cur item then item else cur) rest x)
  end.

(** Rounding of a non-negative integer to 53 significant bits, to nearest
    with ties to even: what the arithmetic below computes, written on the
    integers. *)
Definition rne (n : Z) : Z :=
  let s := Z.log2 n + 1 - 53 in
  if s <=? 0 then n
  else
    let q := n / 2 ^ s in
    let r := n mod 2 ^ s in
    (if (2 ^ (s - 1) <? r) || ((r =? 2 ^ (s - 1)) && Z.odd q) then q + 1 else q)
    * 2 ^ s.

End F64.

(** ** Sizing: [parse_size], [align_down], [align_up] and the plan of [main] *)

Record Args := {
  size_mb : Z;
  size_kb : option Z;
  size_bytes : option Z;
  block_kb : Z;
  keep : bool;
  no_autofit : bool;
  passes : Z;
  min_seconds : F64.float
}.

Definition parse_size (args : Args) : Z :=
  match size_bytes args with
  | Some b => b
  | None =>
      match size_kb args with
      | Some k => k * 1024
      | None => size_mb args * 1024 * 1024
      end
  end.

Definition align_down (x multiple : Z) : result Z :=
  q <- Py.floordiv x multiple ;; Ok (q * multiple).

Definition align_up (x multiple : Z) : result Z :=
  q <- Py.floordiv (x + multiple - 1) multiple ;; Ok (q * multiple).

(** [int(free_bytes * (0 if args.no_autofit else 0.8))] *)
Definition scaled_free (no_autofit : bool) (free_bytes : Z) : result Z :=
  if no_autofit then Ok (free_bytes * 0)
  else (p <- F64.int_mul free_bytes F64.lit_0_8 ;; F64.to_int p).

(** The integer [int(free_bytes * 0.8)] in closed form: two roundings to
    53 bits, of [free_bytes] and of its product with the mantissa of
    [0.8], and a truncation. *)
Definition headroom (free_bytes : Z) : Z :=
  F64.rne (F64.rne free_bytes * 7205759403792794) / 2 ^ 53.

(** Line 249 of [main]. *)
Definition max_bytes_of (requested : Z) (no_autofit : bool)
    (free_bytes sector_size : Z) : result Z :=
  if negb no_autofit then
    (s <- scaled_free no_autofit free_bytes ;; align_down s sector_size)
  else Ok requested.

(** Lines 255 to 257 of [main]. *)
Definition fit_to_max (requested : Z) (no_autofit : bool) (max_bytes : Z) : Z :=
  let file_size := requested in
  if negb no_autofit && ((requested =? 0) || (requested >? max_bytes))
  then max_bytes else file_size.

(** Lines 259 to 269 of [main]. *)
Definition fit_blocks (file_size sector_size block_kb : Z) : result (Z * Z) :=
  let file_size := if file_size <? sector_size then sector_size else file_size in
  let block_size := block_kb * 1024 in
  r <- Py.mod_ block_size sector_size ;;
  block_size <- (if negb (r =? 0) then align_up block_size sector_size
                 else Ok block_size) ;;
  let block_size := if block_size >? file_size then file_size else block_size in
  file_size <- align_down file_size block_size ;;
  let file_size := if file_size =? 0 then block_size else file_size in
  Ok (file_size, block_size).

(** Lines 249 to 269 of [main]: the pair [(file_size, block_size)] the tests
    are run with. *)
Definition plan (requested : Z) (no_autofit : bool)
    (free_bytes sector_size block_kb : Z) : result (Z * Z) :=
  max_bytes <- max_bytes_of requested no_autofit free_bytes sector_size ;;
  check (negb ((requested >? free_bytes) && no_autofit))
        (SystemExit requested free_bytes) ;;;
  fit_blocks (fit_to_max requested no_autofit max_bytes) sector_size block_kb.

(** ** Throughput of one pass *)

Definition throughput_mb_s (total_bytes : Z) (seconds : F64.float)
  : result F64.float :=
  if F64.ltb F64.zero seconds then
    (mib <- F64.int_div_MiB total_bytes ;; F64.div mib seconds)
  else Ok F64.zero.

(** ** The operating system *)

Record io_reply := {
  ok : bool;        (* the BOOL the call returns *)
  moved : Z         (* what the call stores in the DWORD it is given *)
}.

(** One run of a test opens one handle.  [SetFilePointerEx_ok n] is the
    outcome of the [n]-th seek on it, [transfer p k count] the reply to the
    [k]-th [WriteFile] or [ReadFile] of pass [p] asked for [count] bytes,
    [perf_counter n] the [n]-th reading of the clock, and [last_error] the
    code [win_err] finds when a call has failed. *)
Record OS := {
  CreateFileW_ok : bool;
  SetFilePointerEx_ok : nat -> bool;
  SetEndOfFile_ok : bool;
  VirtualAlloc_ok : bool;
  transfer : nat -> nat -> Z -> io_reply;
  perf_counter : nat -> F64.float;
  last_error : Z
}.

Definition open_unbuffered (os : OS) : result unit :=
  check (CreateFileW_ok os) (OSError CreateFileW_failed (last_error os)).

Definition set_file_size (os : OS) : result unit :=
  check (SetFilePointerEx_ok os 0%nat)
        (OSError SetFilePointerEx_size_failed (last_error os)) ;;;
  check (SetEndOfFile_ok os) (OSError SetEndOfFile_failed (last_error os)) ;;;
  check (SetFilePointerEx_ok os 1%nat)
        (OSError SetFilePointerEx_rewind_failed (last_error os)).

Definition set_pointer (os : OS) (nth_seek : nat) : result unit :=
  check (SetFilePointerEx_ok os nth_seek)
        (OSError SetFilePointerEx_failed (last_error os)).

Definition alloc_aligned (os : OS) : result unit :=
  check (VirtualAlloc_ok os) MemoryError.

(** ** The pass loops *)

(** The inner [while to_write > 0] loop (and [while to_read > 0]).
    [failed] builds the failure from the DWORD read back; the first
    component of the outcome lists the byte counts [this_io] of the calls
    made, in order. *)
Fixpoint transfer_loop (fuel : nat) (call : nat -> Z -> io_reply)
    (failed : Z -> exn) (block_size : Z) (k : nat) (to_go : Z)
  : list Z * result unit :=
  if to_go >? 0 then
    match fuel with
    | O => ([], OutOfFuel)
    | S fuel' =>
        let this_io := if to_go >=? block_size then block_size else to_go in
        let reply := call k (DWORD this_io) in
        let dw := DWORD (moved reply) in
        if negb (ok reply) || negb (dw =? this_io) then
          ([this_io], Raise (failed dw))
        else
          let '(issued, r) :=
            transfer_loop fuel' call failed block_size (S k) (to_go - this_io) in
          (this_io :: issued, r)
    end
  else ([], Ok tt).

(** A device whose transfers always complete fully: every call succeeds
    and moves the number of bytes it was asked for. *)
Definition completes_fully (call : nat -> Z -> io_reply) : Prop :=
  forall k count, ok (call k count) = true /\ moved (call k count) = count.

(** The transfer that is about to be issued with [to_go] bytes left. *)
Definition next_io (block_size to_go : Z) : Z :=
  if to_go >=? block_size then block_size else to_go.

(** The transfer the device is asked for is rejected by the check of the
    loop: the call reports failure or the count read back differs. *)
Definition rejected (reply : io_reply) (this_io : Z) : Prop :=
  ok reply = false \/ DWORD (moved reply) <> this_io.

Fixpoint total (counts : list Z) : Z :=
  match counts with
  | [] => 0
  | c :: rest => c + total rest
  end.

(** The local variables of the outer loop. *)
Record locals := {
  per_pass : list F64.float;
  total_elapsed : F64.float;
  done : nat
}.

Definition continue (passes : Z) (min_seconds : F64.float) (st : locals) : bool :=
  (Z.of_nat (done st) <? passes) || F64.ltb (total_elapsed st) min_seconds.

(** The time pass [p] took, as the loop measures it. *)
Definition elapsed_of (os : OS) (p : nat) : F64.float :=
  F64.sub (perf_counter os (2 * p + 1)%nat) (perf_counter os (2 * p)%nat).

(** Statements of the loop body read and update the locals and may raise:
    a statement maps the locals to the locals it leaves and its outcome. *)
Definition stmt (A : Type) : Type := locals -> locals * result A.

Definition seq {A B : Type} (c : stmt A) (k : A -> stmt B) : stmt B :=
  fun st =>
    match c st with
    | (st', Ok a) => k a st'
    | (st', Raise e) => (st', Raise e)
    | (st', OutOfFuel) => (st', OutOfFuel)
    end.

Definition lift {A : Type} (r : result A) : stmt A := fun st => (st, r).
Definition read {A : Type} (f : locals -> A) : stmt A := fun st => (st, Ok (f st)).
Definition assign (f : locals -> locals) : stmt unit := fun st => (f st, Ok tt).

Notation "x <~ c ;; k" := (seq c (fun x => k))
  (at level 61, c at next level, right associativity).
Notation "c ;;~ k" := (seq c (fun _ => k))
  (at level 61, right associativity).

Definition add_elapsed (elapsed : F64.float) (st : locals) : locals :=
  {| per_pass := per_pass st;
     total_elapsed := F64.add (total_elapsed st) elapsed;
     done := done st |}.

Definition append_sample (sample : F64.float) (st : locals) : locals :=
  {| per_pass := per_pass st ++ [sample];
     total_elapsed := total_elapsed st;
     done := done st |}.

Definition count_pass (st : locals) : locals :=
  {| per_pass := per_pass st;
     total_elapsed := total_elapsed st;
     done := S (done st) |}.

(** The body of the outer loop; [seeks_before] is the number of seeks made
    on the handle before the loop is entered. *)
Definition one_pass (fuel : nat) (os : OS) (failed : Z -> exn)
    (seeks_before : nat) (file_size block_size : Z) : stmt unit :=
  p <~ read done ;;
  lift (set_pointer os (seeks_before + p)%nat) ;;~
  let start := perf_counter os (2 * p)%nat in
  lift (snd (transfer_loop fuel (transfer os p) failed block_size 0%nat file_size)) ;;~
  let elapsed := F64.sub (perf_counter os (2 * p + 1)%nat) start in
  assign (add_elapsed elapsed) ;;~
  sample <~ lift (throughput_mb_s file_size elapsed) ;;
  assign (append_sample sample) ;;~
  assign count_pass.

(** The outer [while (done < passes) or (total_elapsed < min_seconds)]
    loop.  The first component is the state of the locals when control
    leaves the loop. *)
Fixpoint pass_loop (fuel : nat) (os : OS) (failed : Z -> exn)
    (seeks_before : nat) (file_size block_size passes : Z)
    (min_seconds : F64.float) (st : locals) : locals * result unit :=
  if continue passes min_seconds st then
    match fuel with
    | O => (st, OutOfFuel)
    | S fuel' =>
        match one_pass fuel' os failed seeks_before file_size block_size st with
        | (st', Ok _) =>
            pass_loop fuel' os failed seeks_before file_size block_size
                      passes min_seconds st'
        | (st', Raise e) => (st', Raise e)
        | (st', OutOfFuel) => (st', OutOfFuel)
        end
    end
  else (st, Ok tt).

Definition fresh : locals :=
  {| per_pass := []; total_elapsed := F64.zero; done := 0%nat |}.

Definition write_failed (os : OS) (dw_written : Z) : exn :=
  OSError (WriteFile_failed_wrote dw_written) (last_error os).

Definition read_failed (os : OS) (dw_read : Z) : exn :=
  OSError (ReadFile_failed_read dw_read) (last_error os).

Definition run_write_tests (fuel : nat) (os : OS)
    (file_size block_size passes : Z) (min_seconds : F64.float)
  : result (list F64.float) :=
  open_unbuffered os ;;;
  set_file_size os ;;;
  alloc_aligned os ;;;
  let '(st, r) := pass_loop fuel os (write_failed os) 2%nat file_size block_size
                            passes min_seconds fresh in
  r ;;; Ok (per_pass st).

Definition run_read_tests (fuel : nat) (os : OS)
    (file_size block_size passes : Z) (min_seconds : F64.float)
  : result (list F64.float) :=
  open_unbuffered os ;;;
  alloc_aligned os ;;;
  let '(st, r) := pass_loop fuel os (read_failed os) 0%nat file_size block_size
                            passes min_seconds fresh in
  r ;;; Ok (per_pass st).

(** What a run without failures needs of the operating system: every
    seek succeeds, every transfer completes, and the clock never runs
    backwards. *)
Definition well_behaved (os : OS) : Prop :=
  (forall n, SetFilePointerEx_ok os n = true) /\
  (forall p, completes_fully (transfer os p)) /\
  (forall p, F64.leb F64.zero (elapsed_of os p) = true).

(** An operating system on which every call succeeds and moves what it is
    asked for, and whose clock advances by one second at every reading. *)
Definition steady_os : OS :=
  {| CreateFileW_ok := true;
     SetFilePointerEx_ok := fun _ => true;
     SetEndOfFile_ok := true;
     VirtualAlloc_ok := true;
     transfer := fun _ _ count => {| ok := true; moved := count |};
     perf_counter := fun n => binary_normalize F64.prec F64.emax (Z.of_nat n) 0 false;
     last_error := 0 |}.

(** The same system with a device that moves 512 bytes whatever it is
    asked for. *)
Definition short_os : OS :=
  {| CreateFileW_ok := true;
     SetFilePointerEx_ok := fun _ => true;
     SetEndOfFile_ok := true;
     VirtualAlloc_ok := true;
     transfer := fun _ _ _ => {| ok := true; moved := 512 |};
     perf_counter := perf_counter steady_os;
     last_error := 0 |}.

(** The same system with a clock that stands still. *)
Definition frozen_os : OS :=
  {| CreateFileW_ok := true;
     SetFilePointerEx_ok := fun _ => true;
     SetEndOfFile_ok := true;
     VirtualAlloc_ok := true;
     transfer := fun _ _ count => {| ok := true; moved := count |};
     perf_counter := fun _ => F64.zero;
     last_error := 0 |}.

(** The same system with a clock on which pass [p] takes [4 * p + 1]
    seconds. *)
Definition slowing_os : OS :=
  {| CreateFileW_ok := true;
     SetFilePointerEx_ok := fun _ => true;
     SetEndOfFile_ok := true;
     VirtualAlloc_ok := true;
     transfer := fun _ _ count => {| ok := true; moved := count |};
     perf_counter :=
       fun n => binary_normalize F64.prec F64.emax (Z.of_nat (n * n)) 0 false;
     last_error := 0 |}.

(** ** Statistics *)

Definition no_nan (xs : list F64.float) : Prop :=
  Forall (fun x => F64.is_nan x = false) xs.

Record report := {
  vmin : F64.float;
  vavg : F64.float;
  vmax : F64.float
}.

Definition summarize (values : list F64.float) : result report :=
  vmin <- F64.min_ values ;;
  vmax <- F64.max_ values ;;
  vavg <- F64.fmean values ;;
  Ok {| vmin := vmin; vavg := vavg; vmax := vmax |}.

(** ** [main] *)

(** [main] from the plan on: the write passes, the read passes and the two
    summaries.  Each test opens a handle of its own. *)
Definition main (fuel : nat) (args : Args) (sector_size free_bytes : Z)
    (os_write os_read : OS) : result (report * report) :=
  sizes <- plan (parse_size args) (no_autofit args) free_bytes sector_size
                (block_kb args) ;;
  let '(file_size, block_size) := sizes in
  w_passes <- run_write_tests fuel os_write file_size block_size
                              (passes args) (min_seconds args) ;;
  r_passes <- run_read_tests fuel os_read file_size block_size
                             (passes args) (min_seconds args) ;;
  w <- summarize w_passes ;;
  r <- summarize r_passes ;;
  Ok (w, r).

(** * Properties *)

(** ** The result monad *)

Lemma bind_Ok {A B : Type} (r : result A) (k : A -> result B) (b : B) :
  bind r k = Ok b -> exists a, r = Ok a /\ k a = Ok b.
Proof. destruct r; simpl; intros H; try discriminate. eauto. Qed.

Lemma check_Ok (b : bool) (e : exn) : check b e = Ok tt -> b = true.
Proof. destruct b; simpl; [reflexivity | discriminate]. Qed.

Lemma bind_fuel {A B : Type} (r : result A) (k : A -> result B) :
  r <> OutOfFuel -> (forall a, k a <> OutOfFuel) -> bind r k <> OutOfFuel.
Proof.
  intros Hr Hk. destruct r; cbn [bind]; [apply Hk | discriminate |].
  exfalso. apply Hr. reflexivity.
Qed.

Ltac unfold_py :=
  unfold align_down, align_up, Py.floordiv, Py.mod_, check, bind in *.

(** ** Binary64 arithmetic

    The operations of [SpecFloat] shift the mantissa right one bit at a time
    and keep a round bit and a sticky bit.  The lemmas below relate them to
    quotients and remainders by powers of two, and the rounding they
    perform to [F64.rne]. *)

Lemma iter_pos_nat {A : Type} (f : A -> A) (p : positive) (x : A) :
  iter_pos f p x = Nat.iter (Pos.to_nat p) f x.
Proof.
  revert x. induction p as [p IH | p IH |]; intros x; cbn [iter_pos].
  - rewrite !IH, Pos2Nat.inj_xI.
    replace (S (2 * Pos.to_nat p)) with (Pos.to_nat p + S (Pos.to_nat p))%nat by lia.
    rewrite Nat.iter_add, Nat.iter_succ_r. reflexivity.
  - rewrite !IH, Pos2Nat.inj_xO.
    replace (2 * Pos.to_nat p)%nat with (Pos.to_nat p + Pos.to_nat p)%nat by lia.
    rewrite Nat.iter_add. reflexivity.
  - reflexivity.
Qed.

(** One step of the shift halves the mantissa, keeps the bit shifted out as
    the round bit and folds the old round bit into the sticky bit. *)
Lemma shr_1_nonneg (M : Z) (r s : bool) :
  0 <= M ->
  shr_1 (Build_shr_record M r s) = Build_shr_record (M / 2) (Z.odd M) (r || s).
Proof.
  intros HM. rewrite <- Z.div2_div.
  destruct M as [|[p|p|]|p]; try lia; reflexivity.
Qed.

Lemma mod_pow2_succ (m k : Z) :
  0 <= k ->
  m mod 2 ^ (k + 1) = m mod 2 ^ k + 2 ^ k * Z.b2z (Z.odd (m / 2 ^ k)).
Proof.
  intros Hk. rewrite Z.pow_add_r, Z.pow_1_r by lia.
  rewrite Z.rem_mul_r by lia.
  rewrite Zmod_odd. destruct (Z.odd (m / 2 ^ k)); reflexivity.
Qed.

(** After [n + 1] steps the mantissa is the quotient by [2^(n+1)], the
    round bit is bit [n], and the sticky bit tells whether the [n] bits
    below it are all zero. *)
Lemma shr_iter (m : Z) (n : nat) :
  0 <= m ->
  Nat.iter (S n) shr_1 (Build_shr_record m false false) =
  Build_shr_record (m / 2 ^ Z.of_nat (S n))
                   (Z.odd (m / 2 ^ Z.of_nat n))
                   (negb (m mod 2 ^ Z.of_nat n =? 0)).
Proof.
  intros Hm. induction n as [|n IH].
  - change (Nat.iter 1 shr_1 ?x) with (shr_1 x).
    rewrite shr_1_nonneg by assumption.
    change (Z.of_nat 1) with 1. change (Z.of_nat 0) with 0.
    rewrite Z.pow_1_r, Z.pow_0_r, Z.div_1_r, Z.mod_1_r. reflexivity.
  - change (Nat.iter (S (S n)) shr_1 ?x) with (shr_1 (Nat.iter (S n) shr_1 x)).
    rewrite IH, shr_1_nonneg by (apply Z.div_pos; lia).
    f_equal.
    + rewrite Z.div_div by lia. f_equal.
      rewrite (Nat2Z.inj_succ (S n)), <- Z.add_1_r.
      rewrite Z.pow_add_r, Z.pow_1_r by lia. reflexivity.
    + rewrite (Nat2Z.inj_succ n), <- Z.add_1_r.
      rewrite mod_pow2_succ by lia.
      pose proof (Z.mod_pos_bound m (2 ^ Z.of_nat n) ltac:(lia)).
      assert (0 < 2 ^ Z.of_nat n) by lia.
      clear IH.
      destruct (Z.odd (m / 2 ^ Z.of_nat n)); simpl Z.b2z;
        destruct (Z.eqb_spec (m mod 2 ^ Z.of_nat n) 0);
        match goal with |- context [?x =? 0] =>
          destruct (Z.eqb_spec x 0) end;
        simpl; try reflexivity; lia.
Qed.

Lemma shr_pos (m e : Z) (p : positive) :
  0 <= m ->
  shr (Build_shr_record m false false) e (Z.pos p) =
  (Build_shr_record (m / 2 ^ Z.pos p)
                    (Z.odd (m / 2 ^ (Z.pos p - 1)))
                    (negb (m mod 2 ^ (Z.pos p - 1) =? 0)),
   e + Z.pos p).
Proof.
  intros Hm. unfold shr. rewrite iter_pos_nat.
  destruct (Pos2Nat.is_succ p) as [n Hn]. rewrite Hn.
  rewrite shr_iter by assumption.
  assert (Z.of_nat (S n) = Z.pos p) by (rewrite <- Hn; apply positive_nat_Z).
  replace (Z.of_nat n) with (Z.pos p - 1) by lia.
  rewrite H. reflexivity.
Qed.

(** The number of digits is the binary logarithm plus one. *)
Lemma digits2_size (p : positive) : digits2_pos p = Pos.size p.
Proof. induction p; simpl; congruence. Qed.

Lemma Zdigits2_log2 (p : positive) :
  Zdigits2 (Z.pos p) = Z.log2 (Z.pos p) + 1.
Proof.
  simpl Zdigits2. rewrite digits2_size.
  destruct p; simpl; rewrite ?Pos2Z.inj_succ; lia.
Qed.

Lemma digits_bounds (p : positive) :
  2 ^ Z.log2 (Z.pos p) <= Z.pos p < 2 ^ (Z.log2 (Z.pos p) + 1).
Proof. pose proof (Z.log2_spec (Z.pos p) ltac:(lia)). rewrite Z.add_1_r. lia. Qed.

(** A mantissa of 53 bits is left alone by the second shift of the
    rounding; the one of 54 bits that rounding up can produce, [2^53], is
    halved. *)
Lemma renormalize (x e : Z) :
  2 ^ 52 <= x <= 2 ^ 53 -> -1074 <= e ->
  shr_fexp 53 1024 x e loc_Exact =
    if x <? 2 ^ 53 then (Build_shr_record x false false, e)
    else (Build_shr_record (2 ^ 52) false false, e + 1).
Proof.
  intros Hx He. unfold shr_fexp.
  destruct x as [|px|px]; try lia.
  rewrite Zdigits2_log2. unfold fexp, emin. cbn [shr_record_of_loc].
  destruct (Z.ltb_spec (Z.pos px) (2 ^ 53)) as [Hlt|Hge].
  - rewrite (Z.log2_unique (Z.pos px) 52)
      by (try split; try lia; change (Z.succ 52) with 53; exact Hlt).
    replace (Z.max (52 + 1 + e - 53) (3 - 1024 - 53) - e) with 0 by lia.
    reflexivity.
  - assert (Z.pos px = 2 ^ 53) as -> by lia.
    replace (Z.log2 (2 ^ 53)) with 53 by reflexivity.
    replace (Z.max (53 + 1 + e - 53) (3 - 1024 - 53) - e) with 1 by lia.
    reflexivity.
Qed.

(** Rounding is the identity on a mantissa that needs no shift. *)
Lemma round_unshifted (sx : bool) (m : positive) (e : Z) :
  Z.log2 (Z.pos m) + 1 <= 53 \/ Z.log2 (Z.pos m) + 1 + e - 53 <= -1074 ->
  -1074 <= e ->
  binary_round_aux 53 1024 sx (Z.pos m) e loc_Exact =
    if e <=? 971 then S754_finite sx m e else S754_infinity sx.
Proof.
  intros Hd He. unfold binary_round_aux, shr_fexp.
  rewrite Zdigits2_log2. unfold fexp, emin.
  set (n := Z.max (Z.log2 (Z.pos m) + 1 + e - 53) (3 - 1024 - 53) - e).
  assert (Hn : n <= 0) by lia.
  cbn [shr_record_of_loc].
  assert (Hshr : forall mrs, shr mrs e n = (mrs, e)).
  { intros mrs. unfold shr. destruct n; try lia; reflexivity. }
  rewrite Hshr. cbn [loc_of_shr_record shr_m round_nearest_even].
  rewrite Zdigits2_log2. fold n. rewrite Hshr. reflexivity.
Qed.

(** Rounding a mantissa of more than 53 bits, in the range of the normal
    numbers, gives a 53-bit mantissa that represents [F64.rne] of it. *)
Lemma round_shifted (sx : bool) (m : positive) (e : Z) :
  let d := Z.log2 (Z.pos m) + 1 in
  53 < d -> -1074 <= d + e - 53 ->
  exists m' e',
    binary_round_aux 53 1024 sx (Z.pos m) e loc_Exact =
      (if e' <=? 971 then S754_finite sx m' e' else S754_infinity sx) /\
    d - 53 + e <= e' <= d - 53 + e + 1 /\
    Z.pos m' * 2 ^ (e' - e) = F64.rne (Z.pos m) /\
    2 ^ 52 <= Z.pos m' < 2 ^ 53.
Proof.
  intros d Hd Hrange.
  pose proof (digits_bounds m) as Hm. fold d in Hm.
  unfold binary_round_aux, shr_fexp at 1.
  rewrite Zdigits2_log2. fold d. unfold fexp at 1, emin.
  replace (Z.max (d + e - 53) (3 - 1024 - 53) - e) with (d - 53) by lia.
  destruct (d - 53) as [|p|p] eqn:Hs; try lia.
  cbn [shr_record_of_loc]. rewrite shr_pos by lia.
  set (s := Z.pos p) in *.
  set (q := Z.pos m / 2 ^ s).
  set (rb := Z.odd (Z.pos m / 2 ^ (s - 1))).
  set (lo := Z.pos m mod 2 ^ (s - 1)).
  assert (Hd' : d = 53 + s) by lia.
  assert (Hq : 2 ^ 52 <= q < 2 ^ 53).
  { subst q. split.
    - apply Z.div_le_lower_bound; [lia |].
      rewrite <- Z.pow_add_r by lia.
      replace (s + 52) with (d - 1) by lia.
      replace (d - 1) with (Z.log2 (Z.pos m)) by (subst d; lia). lia.
    - apply Z.div_lt_upper_bound; [lia |].
      rewrite <- Z.pow_add_r by lia.
      replace (s + 53) with d by lia. lia. }
  assert (Hr : Z.pos m mod 2 ^ s = lo + 2 ^ (s - 1) * Z.b2z rb).
  { replace s with (s - 1 + 1) at 1 by lia.
    apply mod_pow2_succ. lia. }
  assert (Hlo : 0 <= lo < 2 ^ (s - 1)).
  { apply Z.mod_pos_bound. lia. }
  cbn [shr_m].
  set (mx := round_nearest_even q _).
  assert (Hmx : mx * 2 ^ s = F64.rne (Z.pos m) /\ (mx = q \/ mx = q + 1)).
  { unfold F64.rne. fold d. replace (d - 53) with s by lia.
    destruct (Z.leb_spec s 0); [lia |].
    fold q. rewrite Hr. subst mx. unfold loc_of_shr_record.
    destruct rb; simpl Z.b2z; rewrite ?Z.mul_1_r, ?Z.mul_0_r, ?Z.add_0_r;
      destruct (Z.eqb_spec lo 0) as [E|E]; cbn [negb round_nearest_even].
    - rewrite E, Z.add_0_l, Z.ltb_irrefl, Z.eqb_refl.
      rewrite <- Z.negb_odd. cbn [orb andb].
      destruct (Z.odd q); cbn [negb]; auto.
    - destruct (Z.ltb_spec (2 ^ (s - 1)) (lo + 2 ^ (s - 1))); [| lia].
      cbn [orb]. auto.
    - rewrite E. destruct (Z.ltb_spec (2 ^ (s - 1)) 0); [lia |].
      destruct (Z.eqb_spec 0 (2 ^ (s - 1))); [lia |]. cbn [orb andb]. auto.
    - destruct (Z.ltb_spec (2 ^ (s - 1)) lo); [lia |].
      destruct (Z.eqb_spec lo (2 ^ (s - 1))); [lia |]. cbn [orb andb]. auto. }
  destruct Hmx as [Hval Hmx].
  rewrite (renormalize mx (e + s)) by lia.
  destruct (Z.ltb_spec mx (2 ^ 53)) as [Hlt|Hge]; cbn [shr_m].
  - destruct mx as [|pm|pm] eqn:Emx; try lia.
    exists pm, (e + s). repeat split; try lia.
    replace (e + s - e) with s by lia. exact Hval.
  - assert (mx = 2 ^ 53) as Emx by lia.
    exists (Z.to_pos (2 ^ 52)), (e + s + 1).
    change (Z.pos (Z.to_pos (2 ^ 52))) with (2 ^ 52).
    change (match 2 ^ 52 with Z0 => ?a | Z.pos m0 => ?b m0 | Z.neg _ => ?c end)
      with (b (Z.to_pos (2 ^ 52))).
    repeat split; try lia.
    rewrite <- Hval, Emx.
    replace (e + s + 1 - e) with (1 + s) by lia.
    rewrite Z.pow_add_r by lia. lia.
Qed.

(** [F64.rne] on the integers: it fixes what fits in 53 bits, is monotone,
    commutes with multiplications by powers of two and stays within the
    binade of its argument. *)
Lemma rne_small (n : Z) : Z.log2 n + 1 <= 53 -> F64.rne n = n.
Proof.
  intros H. unfold F64.rne. destruct (Z.leb_spec (Z.log2 n + 1 - 53) 0); [reflexivity | lia].
Qed.

Lemma rne_0 : F64.rne 0 = 0.
Proof. reflexivity. Qed.

(** The quotient, the remainder and the result of a rounding that drops
    [s] bits. *)
Lemma rne_cases (n : Z) :
  0 < n -> 0 < Z.log2 n + 1 - 53 ->
  let s := Z.log2 n + 1 - 53 in
  let q := n / 2 ^ s in
  let r := n mod 2 ^ s in
  n = q * 2 ^ s + r /\ 0 <= r < 2 ^ s /\ 2 ^ 52 <= q < 2 ^ 53 /\
  2 ^ s = 2 * 2 ^ (s - 1) /\ 0 < 2 ^ (s - 1) /\
  (F64.rne n = q * 2 ^ s /\
     (r < 2 ^ (s - 1) \/ (r = 2 ^ (s - 1) /\ Z.odd q = false))
   \/
   F64.rne n = (q + 1) * 2 ^ s /\
     (2 ^ (s - 1) < r \/ (r = 2 ^ (s - 1) /\ Z.odd q = true))).
Proof.
  intros Hn Hs s q r.
  pose proof (Z.log2_spec n Hn) as Hlog. rewrite <- Z.add_1_r in Hlog.
  assert (Hp : 0 < 2 ^ s) by (apply Z.pow_pos_nonneg; lia).
  assert (Hdm : n = q * 2 ^ s + r).
  { subst q r. rewrite Z.mul_comm. apply Z.div_mod. lia. }
  assert (Hr : 0 <= r < 2 ^ s) by (apply Z.mod_pos_bound; lia).
  assert (Hlow : 2 ^ Z.log2 n = 2 ^ 52 * 2 ^ s).
  { rewrite <- Z.pow_add_r by lia. f_equal. lia. }
  assert (Hhigh : 2 ^ (Z.log2 n + 1) = 2 ^ 53 * 2 ^ s).
  { rewrite <- Z.pow_add_r by lia. f_equal. lia. }
  assert (Hq : 2 ^ 52 <= q < 2 ^ 53).
  { subst q. split.
    - apply Z.div_le_lower_bound; lia.
    - apply Z.div_lt_upper_bound; lia. }
  assert (Hhalf : 2 ^ s = 2 * 2 ^ (s - 1)).
  { rewrite <- Z.pow_succ_r by lia. f_equal. lia. }
  assert (Hh : 0 < 2 ^ (s - 1)) by (apply Z.pow_pos_nonneg; lia).
  repeat split; try lia.
  unfold F64.rne. fold s. destruct (Z.leb_spec s 0); [lia |]. fold q r.
  destruct (Z.ltb_spec (2 ^ (s - 1)) r); cbn [orb].
  - right. split; [reflexivity | lia].
  - destruct (Z.eqb_spec r (2 ^ (s - 1))); cbn [andb].
    + destruct (Z.odd q) eqn:Ho.
      * right. split; [reflexivity | right; split; [assumption | reflexivity]].
      * left. split; [reflexivity | right; split; [assumption | reflexivity]].
    + left. split; [reflexivity | lia].
Qed.

Lemma rne_bounds (n : Z) :
  0 < n -> 2 ^ Z.log2 n <= F64.rne n <= 2 ^ (Z.log2 n + 1).
Proof.
  intros Hn.
  pose proof (Z.log2_spec n Hn) as Hlog. rewrite <- Z.add_1_r in Hlog.
  destruct (Z.le_gt_cases (Z.log2 n + 1 - 53) 0) as [Hs|Hs].
  - rewrite rne_small by lia. lia.
  - destruct (rne_cases n Hn ltac:(lia)) as (Hdm & Hr & Hq & Hhalf & Hh & Hcase).
    set (s := Z.log2 n + 1 - 53) in *.
    assert (Hlow : 2 ^ Z.log2 n = 2 ^ 52 * 2 ^ s).
    { rewrite <- Z.pow_add_r by lia. f_equal. lia. }
    assert (Hhigh : 2 ^ (Z.log2 n + 1) = 2 ^ 53 * 2 ^ s).
    { rewrite <- Z.pow_add_r by lia. f_equal. lia. }
    rewrite Hlow, Hhigh.
    destruct Hcase as [[-> _] | [-> _]]; nia.
Qed.

Lemma rne_mono (x y : Z) : 0 <= x <= y -> F64.rne x <= F64.rne y.
Proof.
  intros [Hx Hxy].
  destruct (Z.eq_dec x 0) as [-> | Hx0].
  { rewrite rne_0. destruct (Z.eq_dec y 0) as [-> | Hy0]; [rewrite rne_0; lia |].
    pose proof (rne_bounds y ltac:(lia)).
    assert (0 < 2 ^ Z.log2 y)
      by (apply Z.pow_pos_nonneg; [lia | apply Z.log2_nonneg]).
    lia. }
  assert (Hxp : 0 < x) by lia. assert (Hyp : 0 < y) by lia.
  pose proof (Z.log2_le_mono x y Hxy) as Hl.
  destruct (Z.eq_dec (Z.log2 x) (Z.log2 y)) as [Heq|Hne].
  - destruct (Z.le_gt_cases (Z.log2 x + 1 - 53) 0) as [Hs|Hs].
    + rewrite !rne_small by lia. lia.
    + destruct (rne_cases x Hxp ltac:(lia)) as (Hdx & Hrx & Hqx & Hhalf & Hh & Hcx).
      destruct (rne_cases y Hyp ltac:(lia)) as (Hdy & Hry & Hqy & _ & _ & Hcy).
      rewrite <- Heq in Hdy, Hry, Hqy, Hcy.
      set (s := Z.log2 x + 1 - 53) in *.
      set (qx := x / 2 ^ s) in *. set (qy := y / 2 ^ s) in *.
      set (rx := x mod 2 ^ s) in *. set (ry := y mod 2 ^ s) in *.
      assert (Hqq : qx <= qy) by (subst qx qy; apply Z.div_le_mono; lia).
      destruct (Z.eq_dec qx qy) as [Eq|Nq].
      * rewrite <- Eq in *. assert (rx <= ry) by lia.
        destruct Hcx as [[-> Hx'] | [-> Hx']], Hcy as [[-> Hy'] | [-> Hy']];
          try lia.
        destruct Hx' as [?|[? ?]], Hy' as [?|[? ?]]; try lia. congruence.
      * assert ((qx + 1) * 2 ^ s <= qy * 2 ^ s) by nia.
        destruct Hcx as [[-> _] | [-> _]], Hcy as [[-> _] | [-> _]]; nia.
  - pose proof (rne_bounds x Hxp) as [_ Hbx].
    pose proof (rne_bounds y Hyp) as [Hby _].
    assert (2 ^ (Z.log2 x + 1) <= 2 ^ Z.log2 y)
      by (apply Z.pow_le_mono_r; lia).
    lia.
Qed.

Lemma rne_scale (n k : Z) : 0 < n -> 0 <= k -> F64.rne (n * 2 ^ k) = F64.rne n * 2 ^ k.
Proof.
  intros Hn Hk.
  assert (Hpk : 0 < 2 ^ k) by (apply Z.pow_pos_nonneg; lia).
  assert (Hlog : Z.log2 (n * 2 ^ k) = k + Z.log2 n) by (apply Z.log2_mul_pow2; lia).
  unfold F64.rne. rewrite Hlog.
  set (s := Z.log2 n + 1 - 53).
  replace (k + Z.log2 n + 1 - 53) with (s + k) by lia.
  destruct (Z.leb_spec s 0) as [Hs|Hs].
  - destruct (Z.leb_spec (s + k) 0) as [Hsk|Hsk]; [reflexivity |].
    assert (Hsplit : 2 ^ k = 2 ^ (- s) * 2 ^ (s + k)).
    { rewrite <- Z.pow_add_r by lia. f_equal. lia. }
    assert (Hp : 0 < 2 ^ (s + k)) by (apply Z.pow_pos_nonneg; lia).
    assert (Hh : 0 < 2 ^ (s + k - 1)) by (apply Z.pow_pos_nonneg; lia).
    assert (Hm : (n * 2 ^ k) mod 2 ^ (s + k) = 0).
    { rewrite Hsplit, Z.mul_assoc. apply Z.mod_mul. lia. }
    assert (Hd : n * 2 ^ k / 2 ^ (s + k) = n * 2 ^ (- s)).
    { rewrite Hsplit, Z.mul_assoc. apply Z.div_mul. lia. }
    rewrite Hm, Hd.
    destruct (Z.ltb_spec (2 ^ (s + k - 1)) 0); [lia |].
    destruct (Z.eqb_spec 0 (2 ^ (s + k - 1))); [lia |].
    cbn [orb andb]. rewrite Hsplit. ring.
  - destruct (Z.leb_spec (s + k) 0); [lia |].
    assert (Hps : 0 < 2 ^ s) by (apply Z.pow_pos_nonneg; lia).
    assert (Hd : n * 2 ^ k / 2 ^ (s + k) = n / 2 ^ s).
    { rewrite Z.pow_add_r by lia. apply Z.div_mul_cancel_r; lia. }
    assert (Hm : (n * 2 ^ k) mod 2 ^ (s + k) = n mod 2 ^ s * 2 ^ k).
    { rewrite Z.pow_add_r by lia. apply Z.mul_mod_distr_r; lia. }
    rewrite Hd, Hm.
    rewrite (Z.pow_add_r 2 s k) by lia.
    replace (s + k - 1) with (s - 1 + k) by lia.
    rewrite (Z.pow_add_r 2 (s - 1) k) by lia.
    set (q := n / 2 ^ s). set (r := n mod 2 ^ s). set (h := 2 ^ (s - 1)).
    assert (Hb : (h * 2 ^ k <? r * 2 ^ k) = (h <? r)).
    { destruct (Z.ltb_spec h r), (Z.ltb_spec (h * 2 ^ k) (r * 2 ^ k));
        try reflexivity; nia. }
    assert (Hc : (r * 2 ^ k =? h * 2 ^ k) = (r =? h)).
    { destruct (Z.eqb_spec r h), (Z.eqb_spec (r * 2 ^ k) (h * 2 ^ k));
        try reflexivity; nia. }
    rewrite Hb, Hc. ring.
Qed.

Lemma rne_fixed (c k : Z) :
  0 <= c < 2 ^ 53 -> 0 <= k -> F64.rne (c * 2 ^ k) = c * 2 ^ k.
Proof.
  intros Hc Hk. destruct (Z.eq_dec c 0) as [-> | Hc0]; [reflexivity |].
  rewrite rne_scale by lia. f_equal.
  apply rne_small.
  assert (Z.log2 c < 53) by (apply Z.log2_lt_pow2; lia). lia.
Qed.

Lemma iter_xO (p d : positive) :
  Z.pos (Pos.iter xO p d) = Z.pos p * 2 ^ Z.pos d.
Proof.
  induction d as [|d IH] using Pos.peano_ind.
  - cbn [Pos.iter]. rewrite Z.pow_1_r. lia.
  - rewrite Pos.iter_succ, Pos2Z.inj_succ, Z.pow_succ_r by lia.
    rewrite Pos2Z.inj_xO, IH. ring.
Qed.

Lemma log2_shift (p : positive) (k : Z) :
  0 <= k -> Z.log2 (Z.pos p * 2 ^ k) = Z.log2 (Z.pos p) + k.
Proof. intros Hk. rewrite Z.log2_mul_pow2 by lia. lia. Qed.

(** Rounding of [m * 2^e] in the range of the normal numbers: the result
    has a 53-bit mantissa and is the rounding of the exact value, whatever
    power of two both are measured in. *)
Lemma binary_round_normal (sx : bool) (m : positive) (e : Z) :
  let d := Z.log2 (Z.pos m) + 1 in
  -1074 <= d + e - 53 ->
  exists m' e',
    binary_round 53 1024 sx m e =
      (if e' <=? 971 then S754_finite sx m' e' else S754_infinity sx) /\
    2 ^ 52 <= Z.pos m' < 2 ^ 53 /\
    d + e - 53 <= e' <= d + e - 52 /\
    forall K, 0 <= e + K -> 0 <= e' + K ->
      Z.pos m' * 2 ^ (e' + K) = F64.rne (Z.pos m * 2 ^ (e + K)).
Proof.
  intros d Hrange. unfold binary_round.
  pose proof (digits_bounds m) as Hm.
  replace (Z.pos (digits2_pos m)) with d
    by (symmetry; apply (Zdigits2_log2 m)).
  assert (Hd : Z.log2 (Z.pos m) = d - 1) by (subst d; lia).
  rewrite Hd in Hm. replace (d - 1 + 1) with d in Hm by lia.
  clearbody d.
  unfold fexp, emin, shl_align.
  replace (Z.max (d + e - 53) (3 - 1024 - 53) - e) with (d - 53) by lia.
  destruct (d - 53) as [|s|s] eqn:Hs.
  - (* exactly 53 bits *)
    assert (d = 53) as -> by lia. change (53 - 1) with 52 in *.
    rewrite round_unshifted by (try rewrite Hd; lia).
    exists m, e. repeat split; try lia.
    intros K HK _. symmetry. apply rne_fixed; lia.
  - (* more than 53 bits: the low ones are rounded away *)
    destruct (round_shifted sx m e) as (m' & e' & Hr & He' & Hval & Hm');
      [rewrite Hd; lia | rewrite Hd; lia |].
    rewrite Hd in He'.
    exists m', e'. repeat split; try lia; [exact Hr |].
    intros K HK HK'. rewrite rne_scale by lia. rewrite <- Hval.
    rewrite <- Z.mul_assoc, <- Z.pow_add_r by lia. do 2 f_equal. lia.
  - (* fewer than 53 bits: the mantissa is shifted left, exactly *)
    assert (Hmz : Z.pos (Pos.iter xO m s) = Z.pos m * 2 ^ Z.pos s)
      by apply iter_xO.
    assert (Hlog : Z.log2 (Z.pos (Pos.iter xO m s)) = 52).
    { rewrite Hmz, log2_shift by lia. lia. }
    replace (Z.max (d + e - 53) (3 - 1024 - 53)) with (d + e - 53) by lia.
    rewrite round_unshifted by (try rewrite Hlog; lia).
    pose proof (Z.log2_spec (Z.pos (Pos.iter xO m s)) ltac:(lia)) as Hb.
    rewrite Hlog in Hb. change (Z.succ 52) with 53 in Hb.
    exists (Pos.iter xO m s), (d + e - 53). repeat split; try lia.
    intros K HK HK'. rewrite Hmz.
    replace (e + K) with (Z.pos s + (d + e - 53 + K)) by lia.
    rewrite (Z.pow_add_r 2 (Z.pos s) (d + e - 53 + K)), Z.mul_assoc by lia.
    rewrite <- Hmz. symmetry. apply rne_fixed; lia.
Qed.

(** The literal [0.8] is the quotient of the floats 8 and 10, and its
    mantissa is [(2^55 + 2) / 5]: it lies [2/5] of a unit in the last place
    above four fifths. *)
Lemma lit_0_8_nearest :
  (x <- F64.of_int 8 ;; y <- F64.of_int 10 ;; F64.div x y) = Ok F64.lit_0_8 /\
  5 * 7205759403792794 = 2 ^ 55 + 2.
Proof. split; reflexivity. Qed.

(** The float of a positive integer below [2^1023] is its rounding to 53
    bits. *)
Lemma of_int_pos (n : Z) :
  0 < n -> Z.log2 n <= 1022 ->
  exists m e,
    F64.of_int n = Ok (S754_finite false m e) /\
    2 ^ 52 <= Z.pos m < 2 ^ 53 /\
    Z.log2 n - 52 <= e <= Z.log2 n - 51 /\
    forall K, 0 <= K -> 0 <= e + K ->
      Z.pos m * 2 ^ (e + K) = F64.rne (n * 2 ^ K).
Proof.
  intros Hn Hlog. destruct n as [|p|p]; try lia.
  unfold F64.of_int, F64.prec, F64.emax, binary_normalize.
  destruct (binary_round_normal false p 0) as (m & e & Hr & Hm & He & Hval);
    [pose proof (Z.log2_nonneg (Z.pos p)); lia |].
  rewrite Hr. destruct (Z.leb_spec e 971); [| lia].
  exists m, e. repeat split; try lia.
  intros K HK HK'. rewrite Hval by lia. reflexivity.
Qed.

(** The product of two normal numbers, far from the bounds of the
    exponent range, is the rounding of the exact product. *)
Lemma mul_normal (s1 s2 : bool) (m1 m2 : positive) (e1 e2 : Z) :
  2 ^ 52 <= Z.pos m1 < 2 ^ 53 -> 2 ^ 52 <= Z.pos m2 < 2 ^ 53 ->
  -1126 <= e1 + e2 <= 917 ->
  exists m e,
    F64.mul (S754_finite s1 m1 e1) (S754_finite s2 m2 e2) =
      S754_finite (xorb s1 s2) m e /\
    2 ^ 52 <= Z.pos m < 2 ^ 53 /\
    e1 + e2 + 52 <= e <= e1 + e2 + 54 /\
    Z.pos m * 2 ^ (e - (e1 + e2)) = F64.rne (Z.pos m1 * Z.pos m2).
Proof.
  intros H1 H2 He.
  unfold F64.mul, F64.prec, F64.emax, SFmul.
  assert (Hp : 2 ^ 104 <= Z.pos (m1 * m2) < 2 ^ 106).
  { rewrite Pos2Z.inj_mul.
    change (2 ^ 104) with (2 ^ 52 * 2 ^ 52).
    change (2 ^ 106) with (2 ^ 53 * 2 ^ 53). nia. }
  assert (Hl : 104 <= Z.log2 (Z.pos (m1 * m2)) < 106).
  { split.
    - apply Z.log2_le_pow2; lia.
    - apply Z.log2_lt_pow2; lia. }
  destruct (round_shifted (xorb s1 s2) (m1 * m2) (e1 + e2))
    as (m & e & Hr & Hbe & Hval & Hm); [lia | lia |].
  rewrite Hr. destruct (Z.leb_spec e 971); [| lia].
  exists m, e. repeat split; try lia.
  rewrite Hval, Pos2Z.inj_mul. reflexivity.
Qed.

(** On the range of a [c_ulonglong] the float computation of [main]
    succeeds and gives the closed form. *)
Lemma scaled_free_headroom (free_bytes : Z) :
  0 <= free_bytes < 2 ^ 64 ->
  scaled_free false free_bytes = Ok (headroom free_bytes).
Proof.
  intros [H0 H64]. unfold scaled_free, F64.int_mul, headroom.
  destruct (Z.eq_dec free_bytes 0) as [-> | Hnz]; [reflexivity |].
  assert (Hlog : Z.log2 free_bytes < 64) by (apply Z.log2_lt_pow2; lia).
  pose proof (Z.log2_nonneg free_bytes) as Hlog0.
  destruct (of_int_pos free_bytes) as (m1 & e1 & -> & Hm1 & He1 & Hv1);
    [lia | lia |].
  cbn [bind]. unfold F64.lit_0_8.
  destruct (mul_normal false false m1 7205759403792794 e1 (-53))
    as (m2 & e2 & -> & Hm2 & He2 & Hv2); [lia | lia | lia |].
  cbn [xorb F64.to_int cond_Zopp]. f_equal.
  pose proof (rne_bounds free_bytes ltac:(lia)) as Hb.
  assert (Hpos : 0 < F64.rne free_bytes).
  { assert (0 < 2 ^ Z.log2 free_bytes) by (apply Z.pow_pos_nonneg; lia). lia. }
  set (V := F64.rne (F64.rne free_bytes * 7205759403792794)).
  assert (HV : Z.pos m2 * 2 ^ (e2 + 53) = V).
  { apply Z.mul_reg_r with (2 ^ 52); [lia |].
    change (Z.pos 7205759403792794) with 7205759403792794 in Hv2.
    set (R := F64.rne free_bytes) in *.
    assert (E1 : Z.pos m1 * 2 ^ (e1 + 52) = R * 2 ^ 52).
    { rewrite (Hv1 52) by lia. apply rne_scale; lia. }
    subst V. rewrite <- rne_scale by lia.
    replace (R * 7205759403792794 * 2 ^ 52)
      with (Z.pos m1 * 7205759403792794 * 2 ^ (e1 + 52))
      by (rewrite <- Z.mul_assoc, (Z.mul_comm 7205759403792794),
            Z.mul_assoc, E1; ring).
    rewrite rne_scale by lia. rewrite <- Hv2.
    rewrite <- !Z.mul_assoc, <- !Z.pow_add_r by lia.
    do 2 f_equal. lia. }
  destruct (Z.leb_spec 0 e2) as [Hpos2 | Hneg2].
  - rewrite <- HV, Z.pow_add_r, Z.mul_assoc, Z.div_mul by lia. reflexivity.
  - rewrite <- HV.
    replace (2 ^ 53) with (2 ^ (- e2) * 2 ^ (e2 + 53))
      by (rewrite <- Z.pow_add_r by lia; f_equal; lia).
    rewrite Z.div_mul_cancel_r; [reflexivity | |];
      apply Z.pow_nonzero; lia.
Qed.

(** More free bytes never give less headroom: both roundings and the
    truncation are monotone. *)
Lemma headroom_mono (a b : Z) : 0 <= a <= b -> headroom a <= headroom b.
Proof.
  intros H. unfold headroom.
  apply Z.div_le_mono; [lia |].
  apply rne_mono. split.
  - apply Z.mul_nonneg_nonneg; [| lia].
    change 0 with (F64.rne 0). apply rne_mono. lia.
  - apply Z.mul_le_mono_nonneg_r; [lia |]. apply rne_mono. lia.
Qed.

Lemma headroom_nonneg (a : Z) : 0 <= a -> 0 <= headroom a.
Proof.
  intros H. change 0 with (headroom 0) at 1. apply headroom_mono. lia.
Qed.

(** Up to [2^50] free bytes the two roundings lose nothing: the integer
    is the floor of four fifths of the free bytes. *)
Lemma headroom_exact (free_bytes : Z) :
  0 <= free_bytes <= 2 ^ 50 -> headroom free_bytes = 4 * free_bytes / 5.
Proof.
  intros [H0 H50]. unfold headroom.
  assert (Hfb : F64.rne free_bytes = free_bytes).
  { destruct (Z.eq_dec free_bytes 0) as [-> | Hnz]; [reflexivity |].
    apply rne_small.
    assert (Z.log2 free_bytes < 51) by (apply Z.log2_lt_pow2; lia). lia. }
  rewrite Hfb.
  set (k := 4 * free_bytes / 5).
  pose proof (Z.div_mod (4 * free_bytes) 5 ltac:(lia)) as Hdm.
  pose proof (Z.mod_pos_bound (4 * free_bytes) 5 ltac:(lia)) as Hr.
  fold k in Hdm.
  assert (Hk : 0 <= k < 2 ^ 50) by lia.
  set (P := free_bytes * 7205759403792794).
  assert (HA : k * 2 ^ 53 <= P) by (subst P; lia).
  assert (HB : P <= (8 * k + 7) * 2 ^ 50) by (subst P; lia).
  assert (HrA : F64.rne (k * 2 ^ 53) = k * 2 ^ 53) by (apply rne_fixed; lia).
  assert (HrB : F64.rne ((8 * k + 7) * 2 ^ 50) = (8 * k + 7) * 2 ^ 50)
    by (apply rne_fixed; lia).
  pose proof (rne_mono (k * 2 ^ 53) P ltac:(lia)) as Hlo.
  pose proof (rne_mono P ((8 * k + 7) * 2 ^ 50) ltac:(lia)) as Hhi.
  rewrite HrA in Hlo. rewrite HrB in Hhi.
  symmetry. apply Z.div_unique with (F64.rne P - k * 2 ^ 53); lia.
Qed.

(** ** Signs and NaNs *)

Lemma shr_iter_nonneg (n : nat) (mrs : shr_record) :
  0 <= shr_m mrs -> 0 <= shr_m (Nat.iter n shr_1 mrs).
Proof.
  induction n as [|n IH]; intros H; [exact H |].
  change (Nat.iter (S n) shr_1 mrs) with (shr_1 (Nat.iter n shr_1 mrs)).
  specialize (IH H).
  destruct (Nat.iter n shr_1 mrs) as [M r s]. cbn [shr_m] in IH.
  rewrite shr_1_nonneg by assumption. cbn [shr_m].
  apply Z.div_pos; lia.
Qed.

Lemma shr_nonneg (mrs : shr_record) (e n : Z) :
  0 <= shr_m mrs -> 0 <= shr_m (fst (shr mrs e n)).
Proof.
  intros H. unfold shr. destruct n; cbn [fst]; try assumption.
  rewrite iter_pos_nat. apply shr_iter_nonneg. assumption.
Qed.

Lemma shr_fexp_nonneg (m e : Z) (l : location) :
  0 <= m -> 0 <= shr_m (fst (shr_fexp 53 1024 m e l)).
Proof.
  intros H. unfold shr_fexp. apply shr_nonneg.
  destruct l as [|[]]; exact H.
Qed.

Lemma round_nearest_even_nonneg (m : Z) (l : location) :
  0 <= m -> 0 <= round_nearest_even m l.
Proof.
  intros H. destruct l as [|[]]; cbn [round_nearest_even];
    try destruct (Z.even m); lia.
Qed.

(** Rounding a non-negative mantissa gives a zero, a finite number or an
    infinity of the sign asked for, never a NaN. *)
Lemma binary_round_aux_signed (sx : bool) (m e : Z) (l : location) :
  0 <= m -> F64.signed sx (binary_round_aux 53 1024 sx m e l).
Proof.
  intros H. unfold binary_round_aux.
  pose proof (shr_fexp_nonneg m e l H) as H1.
  destruct (shr_fexp 53 1024 m e l) as [mrs' e']. cbn [fst] in H1.
  pose proof (shr_fexp_nonneg
                (round_nearest_even (shr_m mrs') (loc_of_shr_record mrs'))
                e' loc_Exact
                (round_nearest_even_nonneg _ _ H1)) as H2.
  destruct (shr_fexp 53 1024 _ e' loc_Exact) as [mrs'' e'']. cbn [fst] in H2.
  destruct (shr_m mrs'') as [|p|p]; try lia; [reflexivity |].
  destruct (e'' <=? 1024 - 53); reflexivity.
Qed.

Lemma binary_normalize_signed (m e : Z) (sz : bool) :
  F64.signed (if m =? 0 then sz else m <? 0) (binary_normalize 53 1024 m e sz).
Proof.
  destruct m as [|p|p]; cbn [binary_normalize Z.eqb Z.ltb Z.compare].
  - reflexivity.
  - unfold binary_round. destruct (shl_align _ _ _) as [mz ez].
    apply binary_round_aux_signed. lia.
  - unfold binary_round. destruct (shl_align _ _ _) as [mz ez].
    apply binary_round_aux_signed. lia.
Qed.

Lemma signed_not_nan (s : bool) (x : F64.float) :
  F64.signed s x -> F64.is_nan x = false.
Proof. destruct x; simpl; intros H; [reflexivity | reflexivity | contradiction | reflexivity]. Qed.

(** Adding a finite number never makes a NaN of anything else. *)
Lemma add_not_nan (x y : F64.float) :
  F64.is_nan x = false -> F64.is_finite y = true ->
  F64.is_nan (F64.add x y) = false.
Proof.
  intros Hx Hy. unfold F64.add, F64.prec, F64.emax.
  destruct x as [sx | sx | | sx mx ex]; try discriminate;
    destruct y as [sy | sy | | sy my ey]; try discriminate;
    cbn [SFadd]; try reflexivity.
  - destruct sx, sy; reflexivity.
  - eapply signed_not_nan. apply binary_normalize_signed.
Qed.

(** [0.0 <= x] for a float [x] says that [x] is no NaN and is a zero or
    positive. *)
Lemma leb_zero_iff (x : F64.float) :
  F64.leb F64.zero x = true <->
  F64.is_nan x = false /\ (F64.is_zero x = true \/ F64.sign x = false).
Proof.
  destruct x as [s | s | | s m e]; cbn.
  - split; auto.
  - destruct s; split; intros H; try discriminate; auto.
    destruct H as [_ [H | H]]; discriminate.
  - split; intros H; [discriminate | destruct H; discriminate].
  - destruct s; split; intros H; try discriminate; auto.
    destruct H as [_ [H | H]]; discriminate.
Qed.

(** [0 < x] for a float [x] says that [x] is a positive number or the
    positive infinity. *)
Lemma ltb_zero_iff (x : F64.float) :
  F64.ltb F64.zero x = true <->
  F64.is_nan x = false /\ F64.is_zero x = false /\ F64.sign x = false.
Proof.
  destruct x as [s | s | | s m e]; cbn.
  - split; intros H; [discriminate | destruct H as (_ & H & _); discriminate].
  - destruct s; split; intros H; try discriminate; auto.
    destruct H as (_ & _ & H); discriminate.
  - split; intros H; [discriminate | destruct H; discriminate].
  - destruct s; split; intros H; try discriminate; auto.
    destruct H as (_ & _ & H); discriminate.
Qed.

Lemma int_div_MiB_signed (n : Z) (x : F64.float) :
  0 <= n -> F64.int_div_MiB n = Ok x ->
  F64.is_finite x = true /\ F64.signed false x.
Proof.
  intros Hn. unfold F64.int_div_MiB, F64.prec, F64.emax.
  pose proof (binary_normalize_signed n (-20) false) as Hs.
  replace (if n =? 0 then false else n <? 0) with false in Hs
    by (destruct (Z.eqb_spec n 0); [reflexivity |];
        destruct (Z.ltb_spec n 0); [lia | reflexivity]).
  destruct (binary_normalize 53 1024 n (-20) false); intros [= <-];
    try contradiction; auto.
Qed.

(** The quotient of a finite non-negative number by a positive one is a
    non-negative number. *)
Lemma div_nonneg (x y : F64.float) :
  F64.is_finite x = true -> F64.signed false x ->
  F64.ltb F64.zero y = true ->
  F64.signed false (SFdiv 53 1024 x y).
Proof.
  intros Hfin Hx Hy. apply ltb_zero_iff in Hy as (Hnan & Hz & Hs).
  destruct x as [sx | sx | | sx mx ex]; try discriminate;
    destruct y as [sy | sy | | sy my ey]; try discriminate;
    cbn [F64.signed F64.sign] in *; subst; cbn [SFdiv xorb F64.signed];
    try reflexivity.
  unfold SFdiv_core_binary.
  set (e' := Z.min _ _). set (s := ex - ey - e').
  set (m' := match s with Z0 => Z.pos mx | Z.pos _ => Z.shiftl (Z.pos mx) s
                     | Z.neg _ => 0 end).
  assert (Hm' : 0 <= m').
  { subst m'. destruct s; try lia. apply Z.shiftl_nonneg. lia. }
  pose proof (Z.div_pos m' (Z.pos my) Hm' ltac:(lia)) as Hq.
  unfold Z.div in Hq.
  destruct (Z.div_eucl m' (Z.pos my)) as [q r]. cbn [fst] in Hq.
  apply binary_round_aux_signed. exact Hq.
Qed.

(** ** The order of the floats *)

Lemma ltb_rank (x y : F64.float) :
  F64.is_nan x = false -> F64.is_nan y = false ->
  (F64.ltb x y = true <-> F64.lex_lt (F64.rank x) (F64.rank y)).
Proof.
  intros Hx Hy. unfold F64.ltb, SFltb.
  destruct x as [sx | sx | | sx mx ex]; try discriminate;
    destruct y as [sy | sy | | sy my ey]; try discriminate;
    cbn [SFcompare F64.rank F64.lex_lt];
    try (destruct sx); try (destruct sy); cbn [F64.lex_lt];
    try (split; [discriminate | lia]);
    try (split; [lia | reflexivity]).
  - change (Pos.compare_cont Eq mx my) with (Pos.compare mx my).
    destruct (Z.compare_spec ex ey); try (split; [discriminate | lia]);
      try (split; [lia | reflexivity]).
    destruct (Pos.compare_spec mx my); cbn [CompOpp];
      try (split; [discriminate | lia]); try (split; [lia | reflexivity]).
  - change (Pos.compare_cont Eq mx my) with (Pos.compare mx my).
    destruct (Z.compare_spec ex ey); try (split; [discriminate | lia]);
      try (split; [lia | reflexivity]).
    destruct (Pos.compare_spec mx my);
      try (split; [discriminate | lia]); try (split; [lia | reflexivity]).
Qed.

Lemma leb_rank (x y : F64.float) :
  F64.is_nan x = false -> F64.is_nan y = false ->
  (F64.leb x y = true <-> F64.lex_le (F64.rank x) (F64.rank y)).
Proof.
  intros Hx Hy. unfold F64.leb, SFleb.
  destruct x as [sx | sx | | sx mx ex]; try discriminate;
    destruct y as [sy | sy | | sy my ey]; try discriminate;
    cbn [SFcompare F64.rank F64.lex_le];
    try (destruct sx); try (destruct sy); cbn [F64.lex_le];
    try (split; [discriminate | lia]);
    try (split; [lia | reflexivity]).
  - change (Pos.compare_cont Eq mx my) with (Pos.compare mx my).
    destruct (Z.compare_spec ex ey); try (split; [discriminate | lia]);
      try (split; [lia | reflexivity]).
    destruct (Pos.compare_spec mx my); cbn [CompOpp];
      try (split; [discriminate | lia]); try (split; [lia | reflexivity]).
  - change (Pos.compare_cont Eq mx my) with (Pos.compare mx my).
    destruct (Z.compare_spec ex ey); try (split; [discriminate | lia]);
      try (split; [lia | reflexivity]).
    destruct (Pos.compare_spec mx my);
      try (split; [discriminate | lia]); try (split; [lia | reflexivity]).
Qed.

Lemma lex_le_trans (a b c : Z * Z * Z) :
  F64.lex_le a b -> F64.lex_le b c -> F64.lex_le a c.
Proof.
  destruct a as [[a1 a2] a3], b as [[b1 b2] b3], c as [[c1 c2] c3].
  cbn [F64.lex_le]. lia.
Qed.

Lemma lex_le_refl (a : Z * Z * Z) : F64.lex_le a a.
Proof. destruct a as [[a1 a2] a3]. cbn [F64.lex_le]. lia. Qed.

Lemma lex_lt_le (a b : Z * Z * Z) : F64.lex_lt a b -> F64.lex_le a b.
Proof.
  destruct a as [[a1 a2] a3], b as [[b1 b2] b3].
  cbn [F64.lex_lt F64.lex_le]. lia.
Qed.

Lemma lex_not_lt (a b : Z * Z * Z) : ~ F64.lex_lt a b -> F64.lex_le b a.
Proof.
  destruct a as [[a1 a2] a3], b as [[b1 b2] b3].
  cbn [F64.lex_lt F64.lex_le]. lia.
Qed.

(** Of two floats that are not NaNs, [x < y] is false exactly when
    [y <= x]. *)
Lemma not_ltb_leb (x y : F64.float) :
  F64.is_nan x = false -> F64.is_nan y = false ->
  F64.ltb x y = false -> F64.leb y x = true.
Proof.
  intros Hx Hy Hlt. apply leb_rank; try assumption.
  apply lex_not_lt. intros H. apply ltb_rank in H; try assumption.
  congruence.
Qed.

Lemma leb_trans (x y z : F64.float) :
  F64.is_nan x = false -> F64.is_nan y = false -> F64.is_nan z = false ->
  F64.leb x y = true -> F64.leb y z = true -> F64.leb x z = true.
Proof.
  intros Hx Hy Hz Hxy Hyz.
  apply leb_rank in Hxy; try assumption. apply leb_rank in Hyz; try assumption.
  apply leb_rank; try assumption. eapply lex_le_trans; eassumption.
Qed.

Lemma leb_refl (x : F64.float) : F64.is_nan x = false -> F64.leb x x = true.
Proof. intros Hx. apply leb_rank; try assumption. apply lex_le_refl. Qed.

Lemma ltb_leb (x y : F64.float) :
  F64.is_nan x = false -> F64.is_nan y = false ->
  F64.ltb x y = true -> F64.leb x y = true.
Proof.
  intros Hx Hy H. apply leb_rank; try assumption.
  apply lex_lt_le. apply ltb_rank; assumption.
Qed.

(** ** Sums that are exact

    A sample that is [k] times [2^E], for an integer [k] below [2^53], is
    a binary64 number.  Sums and differences of such numbers that are
    again of this form are computed without rounding. *)

(** What makes a mantissa and an exponent a binary64 number. *)
Lemma bounded_canonical (m : positive) (e : Z) :
  bounded 53 1024 m e = true ->
  let d := Z.log2 (Z.pos m) + 1 in
  d <= 53 /\ -1074 <= e <= 971 /\ (d = 53 \/ e = -1074).
Proof.
  intros H d. unfold bounded, canonical_mantissa in H.
  apply andb_true_iff in H as [Hc He].
  apply Z.eqb_eq in Hc. apply Z.leb_le in He.
  change (Z.pos (digits2_pos m)) with (Zdigits2 (Z.pos m)) in Hc.
  rewrite Zdigits2_log2 in Hc. fold d in Hc.
  unfold fexp, emin in Hc. lia.
Qed.

Lemma canonical_bounded (m : positive) (e : Z) :
  let d := Z.log2 (Z.pos m) + 1 in
  d <= 53 -> -1074 <= e <= 971 -> d = 53 \/ e = -1074 ->
  bounded 53 1024 m e = true.
Proof.
  intros d Hd He Hcase. unfold bounded, canonical_mantissa.
  change (Z.pos (digits2_pos m)) with (Zdigits2 (Z.pos m)).
  rewrite Zdigits2_log2. fold d. unfold fexp, emin.
  apply andb_true_iff. split; [apply Z.eqb_eq | apply Z.leb_le]; lia.
Qed.





Section ExactSums.

Variable E : Z.
Hypothesis HE : -1074 <= E <= 971.

(** The binary64 number [k * 2^E]. *)
Local Abbreviation enc k := (binary_normalize 53 1024 k E false).





(** The state of [math.fsum] when the items read so far add up to [S]
    times [2^E] and every sum was exact: one partial, the sum. *)
Local Abbreviation exact_state S :=
  {| F64.partials := if S =? 0 then [] else [enc S];
     F64.special_sum := F64.zero;
     F64.inf_sum := F64.zero |}.




End ExactSums.

(** A division by [1.0] is exact. *)
Lemma div_by_one (s : bool) (m : positive) (e : Z) :
  bounded 53 1024 m e = true ->
  SFdiv 53 1024 (S754_finite s m e) (S754_finite false 4503599627370496 (-52))
    = S754_finite s m e.
Proof.
  intros Hb. destruct (bounded_canonical m e Hb) as (Hd & He & Hcase).
  pose proof (digits_bounds m) as Hm.
  assert (Hm53 : Z.pos m < 2 ^ 53) by (apply Z.log2_lt_pow2; lia).
  unfold SFdiv, SFdiv_core_binary.
  rewrite Zdigits2_log2.
  change (Zdigits2 4503599627370496) with 53.
  unfold fexp, emin. rewrite xorb_false_r.
  set (d := Z.log2 (Z.pos m) + 1) in *.
  destruct (Z.eq_dec e (-1074)) as [-> | Hne].
  - replace (Z.min (Z.max (d + -1074 - (53 + -52) - 53) (3 - 1024 - 53))
                   (-1074 - -52)) with (-1074) by lia.
    change (-1074 - -52 - -1074) with 52.
    cbv beta iota.
    destruct (Z.div_eucl (Z.shiftl (Z.pos m) 52) 4503599627370496)
      as [q r] eqn:Hqr.
    assert (Hq : q = Z.pos m).
    { change q with (fst (q, r)). rewrite <- Hqr.
      change (fst (Z.div_eucl ?a ?b)) with (a / b).
      rewrite Z.shiftl_mul_pow2 by lia. apply Z.div_mul. lia. }
    assert (Hr : r = 0).
    { change r with (snd (q, r)). rewrite <- Hqr.
      change (snd (Z.div_eucl ?a ?b)) with (a mod b).
      rewrite Z.shiftl_mul_pow2 by lia. apply Z.mod_mul. lia. }
    subst q r. change (new_location 4503599627370496 0) with loc_Exact.
    rewrite round_unshifted by (subst d; lia). reflexivity.
  - assert (Hd53 : d = 53) by lia.
    assert (Hl52 : Z.log2 (Z.pos m) = 52) by (subst d; lia).
    rewrite Hl52 in Hm. change (52 + 1) with 53 in Hm.
    replace (Z.min (Z.max (d + e - (53 + -52) - 53) (3 - 1024 - 53))
                   (e - -52)) with (e - 1) by lia.
    replace (e - -52 - (e - 1)) with 53 by lia.
    cbv beta iota.
    destruct (Z.div_eucl (Z.shiftl (Z.pos m) 53) 4503599627370496)
      as [q r] eqn:Hqr.
    assert (Hq : q = Z.pos (m~0)).
    { change q with (fst (q, r)). rewrite <- Hqr.
      change (fst (Z.div_eucl ?a ?b)) with (a / b).
      rewrite Z.shiftl_mul_pow2 by lia.
      change (2 ^ 53) with (2 * 4503599627370496).
      rewrite Z.mul_assoc, Z.div_mul by lia. lia. }
    assert (Hr : r = 0).
    { change r with (snd (q, r)). rewrite <- Hqr.
      change (snd (Z.div_eucl ?a ?b)) with (a mod b).
      rewrite Z.shiftl_mul_pow2 by lia.
      change (2 ^ 53) with (2 * 4503599627370496).
      rewrite Z.mul_assoc. apply Z.mod_mul. lia. }
    subst q r. change (new_location 4503599627370496 0) with loc_Exact.
    assert (Hlog : Z.log2 (Z.pos m~0) = 53).
    { change (Z.pos m~0) with (2 * Z.pos m). rewrite Z.log2_double by lia.
      subst d. lia. }
    destruct (round_shifted s (m~0) (e - 1)) as (m' & e' & -> & He' & Hval & Hm');
      [lia | lia |].
    rewrite Hlog in He'.
    assert (Hfix : F64.rne (Z.pos m~0) = Z.pos m~0).
    { pose proof (rne_fixed (Z.pos m) 1 ltac:(lia) ltac:(lia)) as Hf.
      change (2 ^ 1) with 2 in Hf.
      replace (Z.pos m * 2) with (Z.pos m~0) in Hf by lia. exact Hf. }
    rewrite Hfix in Hval.
    assert (Ee : e' = e).
    { destruct (Z.eq_dec e' e) as [-> | Hn]; [reflexivity |].
      assert (e' = e + 1) as -> by lia.
      replace (e + 1 - (e - 1)) with 2 in Hval by lia.
      change (2 ^ 2) with 4 in Hval. lia. }
    subst e'. replace (e - (e - 1)) with 1 in Hval by lia.
    change (2 ^ 1) with 2 in Hval.
    assert (Em : m' = m) by lia. subst m'.
    destruct (Z.leb_spec e 971); [reflexivity | lia].
Qed.

(** ** Alignment *)

Section Alignment.

Variable m : Z.
Hypothesis Hm : 0 < m.

Lemma align_down_pos (x : Z) : align_down x m = Ok (x / m * m).
Proof.
  unfold_py. destruct (Z.eqb_spec m 0); [lia | reflexivity].
Qed.

Lemma align_up_pos (x : Z) : align_up x m = Ok ((x + m - 1) / m * m).
Proof.
  unfold_py. destruct (Z.eqb_spec m 0); [lia | reflexivity].
Qed.

Lemma align_down_bounds (x : Z) :
  x / m * m <= x < x / m * m + m /\ (x / m * m) mod m = 0.
Proof.
  split.
  - pose proof (Z.mul_div_le x m Hm).
    pose proof (Z.mul_succ_div_gt x m Hm). lia.
  - apply Z.mod_mul. lia.
Qed.

Lemma align_up_bounds (x : Z) :
  x <= (x + m - 1) / m * m < x + m /\ ((x + m - 1) / m * m) mod m = 0.
Proof.
  split.
  - pose proof (Z.mul_div_le (x + m - 1) m Hm).
    pose proof (Z.mul_succ_div_gt (x + m - 1) m Hm). lia.
  - apply Z.mod_mul. lia.
Qed.

Lemma align_mono (x y : Z) : x <= y -> x / m * m <= y / m * m.
Proof.
  intros Hxy. apply Z.mul_le_mono_nonneg_r; [lia |].
  apply Z.div_le_mono; lia.
Qed.

(** The laws of the two alignments: the largest multiple of [m] that is at
    most [x], and the least one that is at least [x]. *)
Lemma align_down_law (x a : Z) :
  align_down x m = Ok a -> a <= x < a + m /\ a mod m = 0.
Proof.
  rewrite align_down_pos. intros [= <-]. apply align_down_bounds.
Qed.

Lemma align_up_law (x a : Z) :
  align_up x m = Ok a -> x <= a < x + m /\ a mod m = 0.
Proof.
  rewrite align_up_pos. intros [= <-]. apply align_up_bounds.
Qed.

End Alignment.

(** The quotient of [align_up]. *)
Lemma align_up_step (x m : Z) :
  0 < m ->
  (x + m - 1) / m = if x mod m =? 0 then x / m else x / m + 1.
Proof.
  intros Hm.
  pose proof (Z.div_mod x m ltac:(lia)) as Hdm.
  pose proof (Z.mod_pos_bound x m Hm) as Hr.
  destruct (Z.eqb_spec (x mod m) 0) as [E | E].
  - symmetry. apply Z.div_unique with (m - 1); lia.
  - symmetry. apply Z.div_unique with (x mod m - 1); lia.
Qed.

(** ** The block fit of [main] *)

(** With a positive sector size and a positive [--block-kb] the block fit
    returns, and its pair has every invariant of a test plan except that
    the block may have been cut down to a file size which is not a whole
    number of sectors; the file is then that one block. *)
Lemma fit_blocks_invariants (file_size sector_size block_kb : Z) :
  0 < sector_size -> 0 < block_kb ->
  exists fs bs,
    fit_blocks file_size sector_size block_kb = Ok (fs, bs) /\
    0 < bs /\ bs <= fs /\ fs mod bs = 0 /\ sector_size <= fs /\ 0 < fs /\
    sector_size <= bs /\
    (bs mod sector_size = 0 \/
     (bs = fs /\ bs = Z.max file_size sector_size)).
Proof.
  intros Hs Hb. unfold fit_blocks. unfold_py.
  destruct (Z.eqb_spec sector_size 0) as [?|_]; [lia |].
  set (fs1 := if file_size <? sector_size then sector_size else file_size).
  assert (Hfs1 : fs1 = Z.max file_size sector_size).
  { subst fs1. destruct (Z.ltb_spec file_size sector_size); lia. }
  set (b0 := block_kb * 1024).
  assert (Hb0 : 0 < b0) by (subst b0; lia).
  assert (exists b1,
    (if negb (b0 mod sector_size =? 0)
     then Ok ((b0 + sector_size - 1) / sector_size * sector_size)
     else Ok b0) = Ok b1 /\ b1 mod sector_size = 0 /\ b0 <= b1)
    as (b1 & -> & Hb1 & Hle).
  { destruct (Z.eqb_spec (b0 mod sector_size) 0); simpl.
    - exists b0. repeat split; [assumption | lia].
    - exists ((b0 + sector_size - 1) / sector_size * sector_size).
      destruct (align_up_bounds sector_size Hs b0) as [[? ?] ?].
      repeat split; [assumption | lia]. }
  assert (Hb1s : sector_size <= b1).
  { apply Z.mod_divide in Hb1; [| lia]. destruct Hb1 as [c ->].
    assert (0 < c * sector_size) by lia.
    assert (0 < c) by (apply Z.mul_pos_cancel_r with sector_size; lia).
    nia. }
  cbv beta.
  set (b2 := if b1 >? fs1 then fs1 else b1).
  assert (Hb2 : 0 < b2 /\ b2 <= fs1 /\ sector_size <= b2 /\
                (b2 mod sector_size = 0 \/ b2 = fs1)).
  { subst b2. destruct (Z.gtb_spec b1 fs1); repeat split; try lia; auto. }
  destruct Hb2 as (Hb2p & Hb2f & Hb2s & Hb2m).
  destruct (Z.eqb_spec b2 0) as [?|_]; [lia |].
  assert (Hq : 1 <= fs1 / b2) by (apply Z.div_le_lower_bound; lia).
  assert (Hfs2 : b2 <= fs1 / b2 * b2) by nia.
  destruct (Z.eqb_spec (fs1 / b2 * b2) 0) as [?|_]; [lia |].
  exists (fs1 / b2 * b2), b2.
  repeat apply conj; try lia.
  - reflexivity.
  - apply Z.mod_mul. lia.
  - destruct Hb2m as [Hm | Hm]; [left; exact Hm | right].
    rewrite <- Hfs1, <- Hm, Z.div_same by lia. lia.
Qed.

(** The alignment of the block is lost only on a file size that is itself
    not aligned: a file size that is a whole number of sectors, or less
    than one sector, gives a block that is a whole number of sectors. *)
Lemma fit_blocks_aligned (file_size sector_size block_kb fs bs : Z) :
  0 < sector_size -> 0 < block_kb ->
  file_size <= sector_size \/ file_size mod sector_size = 0 ->
  fit_blocks file_size sector_size block_kb = Ok (fs, bs) ->
  bs mod sector_size = 0 /\ fs mod sector_size = 0.
Proof.
  intros Hs Hb Hal Hfit.
  destruct (fit_blocks_invariants file_size sector_size block_kb Hs Hb)
    as (fs' & bs' & Hfit' & Hbs & _ & Hmod & _ & _ & _ & Hcase).
  rewrite Hfit in Hfit'. injection Hfit' as <- <-.
  assert (Hb' : bs mod sector_size = 0).
  { destruct Hcase as [Hm | [_ Hm]]; [exact Hm |]. rewrite Hm.
    destruct Hal as [Hle | Hm'].
    - rewrite Z.max_r by lia. apply Z.mod_same. lia.
    - destruct (Z.max_spec file_size sector_size) as [[_ ->] | [_ ->]];
        [apply Z.mod_same; lia | exact Hm']. }
  split; [exact Hb' |].
  apply Z.mod_divide in Hmod; [| lia]. apply Z.mod_divide in Hb'; [| lia].
  apply Z.mod_divide; [lia |]. eapply Z.divide_trans; eassumption.
Qed.

(** The block fit never raises anything but a division by zero. *)
Lemma fit_blocks_raises (file_size sector_size block_kb : Z) (e : exn) :
  fit_blocks file_size sector_size block_kb = Raise e -> e = ZeroDivisionError.
Proof.
  unfold fit_blocks. unfold_py.
  destruct (sector_size =? 0); [intros [= <-]; reflexivity |].
  destruct (negb (_ =? 0)); cbv beta iota;
    match goal with |- context [if ?c =? 0 then Raise _ else _] =>
      destruct (c =? 0) end;
    intros H; try discriminate; injection H as <-; reflexivity.
Qed.

Lemma fit_blocks_fuel (file_size sector_size block_kb : Z) :
  fit_blocks file_size sector_size block_kb <> OutOfFuel.
Proof.
  unfold fit_blocks. unfold_py.
  destruct (sector_size =? 0); [discriminate |].
  destruct (negb (_ =? 0)); cbv beta iota;
    match goal with |- context [if ?c =? 0 then Raise _ else _] =>
      destruct (c =? 0) end; discriminate.
Qed.

(** A [--block-kb] of zero always ends the block fit in a division by
    zero: in [block_size % sector_size] when the sector size is zero, and
    in [align_down(file_size, block_size)] otherwise. *)
Lemma fit_blocks_zero_block (file_size sector_size : Z) :
  0 <= sector_size ->
  fit_blocks file_size sector_size 0 = Raise ZeroDivisionError.
Proof.
  intros Hs0. unfold fit_blocks. unfold_py.
  destruct (Z.eqb_spec sector_size 0) as [|Hs]; [reflexivity |].
  change (0 * 1024) with 0. rewrite Z.mod_0_l by assumption.
  simpl.
  set (fs1 := if file_size <? sector_size then sector_size else file_size).
  assert (0 < fs1).
  { subst fs1. destruct (Z.ltb_spec file_size sector_size); lia. }
  destruct (Z.gtb_spec 0 fs1); [lia | reflexivity].
Qed.

(** ** The plan of [main] *)

Lemma of_int_raises (n : Z) (e : exn) :
  F64.of_int n = Raise e -> e = OverflowError.
Proof.
  unfold F64.of_int.
  destruct (binary_normalize F64.prec F64.emax n 0 false);
    intros H; try discriminate; injection H as <-; reflexivity.
Qed.

Lemma to_int_raises (x : F64.float) (e : exn) :
  F64.to_int x = Raise e ->
  e = OverflowError \/ e = ValueError cannot_convert_float_NaN_to_integer.
Proof.
  destruct x; simpl; intros H; try discriminate; injection H as <-; auto.
Qed.

Lemma max_bytes_of_not_exit (requested : Z) (no_autofit : bool)
    (free_bytes sector_size r f : Z) :
  max_bytes_of requested no_autofit free_bytes sector_size
    <> Raise (SystemExit r f).
Proof.
  unfold max_bytes_of, scaled_free, F64.int_mul.
  destruct no_autofit; cbn [negb]; [discriminate |].
  destruct (F64.of_int free_bytes) as [x | e |] eqn:Hx; cbn [bind];
    [| apply of_int_raises in Hx; subst e; discriminate | discriminate].
  destruct (F64.to_int (F64.mul x F64.lit_0_8)) as [p | e |] eqn:Hp; cbn [bind];
    [| apply to_int_raises in Hp; destruct Hp; subst e; discriminate
     | discriminate].
  unfold_py. destruct (sector_size =? 0); discriminate.
Qed.

(** With autofit the plan is the block fit of the request cut to the
    aligned headroom. *)
Lemma plan_autofit (requested free_bytes sector_size block_kb : Z) :
  0 <= free_bytes < 2 ^ 64 -> 0 < sector_size ->
  plan requested false free_bytes sector_size block_kb =
    fit_blocks
      (fit_to_max requested false (headroom free_bytes / sector_size * sector_size))
      sector_size block_kb.
Proof.
  intros Hf Hs. unfold plan, max_bytes_of. cbn [negb].
  rewrite scaled_free_headroom by assumption. cbn [bind].
  rewrite align_down_pos by assumption. cbn [bind].
  rewrite andb_false_r. reflexivity.
Qed.

Lemma plan_no_autofit (requested free_bytes sector_size block_kb : Z) :
  plan requested true free_bytes sector_size block_kb =
    if requested >? free_bytes then Raise (SystemExit requested free_bytes)
    else fit_blocks requested sector_size block_kb.
Proof.
  unfold plan, max_bytes_of, fit_to_max. cbn [negb bind andb].
  rewrite andb_true_r.
  destruct (requested >? free_bytes); reflexivity.
Qed.

(** The plan is a computation without loops: it returns or raises. *)
Lemma plan_total (requested : Z) (no_autofit : bool)
    (free_bytes sector_size block_kb : Z) :
  plan requested no_autofit free_bytes sector_size block_kb <> OutOfFuel.
Proof.
  assert (Halign : forall x, align_down x sector_size <> OutOfFuel).
  { intros x. unfold_py. destruct (sector_size =? 0); discriminate. }
  unfold plan. apply bind_fuel.
  - unfold max_bytes_of, scaled_free, F64.int_mul.
    destruct no_autofit; cbn [negb]; [discriminate |].
    apply bind_fuel; [| exact Halign].
    apply bind_fuel.
    + apply bind_fuel; [| discriminate].
      unfold F64.of_int.
      destruct (binary_normalize F64.prec F64.emax free_bytes 0 false);
        discriminate.
    + intros x. destruct x; discriminate.
  - intros max_bytes. apply bind_fuel.
    + unfold check. destruct (negb _); discriminate.
    + intros _. apply fit_blocks_fuel.
Qed.

(** The block fit is monotone in the file size it starts from. *)
Lemma fit_blocks_mono (x y sector_size block_kb fx bx fy by_ : Z) :
  0 < sector_size -> x <= y ->
  fit_blocks x sector_size block_kb = Ok (fx, bx) ->
  fit_blocks y sector_size block_kb = Ok (fy, by_) ->
  fx <= fy.
Proof.
  intros Hs Hxy. unfold fit_blocks. unfold_py.
  destruct (Z.eqb_spec sector_size 0) as [?|_]; [lia |].
  set (x1 := if x <? sector_size then sector_size else x).
  set (y1 := if y <? sector_size then sector_size else y).
  assert (Hx1 : sector_size <= x1 /\ x1 <= y1 /\ sector_size <= y1).
  { subst x1 y1.
    destruct (Z.ltb_spec x sector_size), (Z.ltb_spec y sector_size); lia. }
  destruct Hx1 as (Hx1 & Hxy1 & Hy1).
  set (b1r := if negb ((block_kb * 1024) mod sector_size =? 0)
              then Ok ((block_kb * 1024 + sector_size - 1) / sector_size
                       * sector_size)
              else Ok (block_kb * 1024)).
  assert (exists b1, b1r = Ok b1) as [b1 ->].
  { subst b1r. destruct (negb _); eauto. }
  cbv beta iota.
  set (bx2 := if b1 >? x1 then x1 else b1).
  set (by2 := if b1 >? y1 then y1 else b1).
  destruct (Z.eqb_spec bx2 0) as [?|Hbx]; [discriminate |].
  destruct (Z.eqb_spec by2 0) as [?|Hby]; [discriminate |].
  intros [= <- <-] [= <- <-].
  assert (Hb1 : b1 <> 0).
  { intros ->. subst bx2. destruct (Z.gtb_spec 0 x1); lia. }
  destruct (Z.lt_trichotomy b1 0) as [Hneg | [? | Hpos]]; [| lia |].
  - (* a negative block: the division rounds the file size up *)
    assert (bx2 = b1) as -> by (subst bx2; destruct (Z.gtb_spec b1 x1); lia).
    assert (by2 = b1) as -> by (subst by2; destruct (Z.gtb_spec b1 y1); lia).
    assert (Hdx : x1 / b1 * b1 = - ((- x1) / (- b1) * (- b1))).
    { rewrite Z.div_opp_opp by lia. ring. }
    assert (Hdy : y1 / b1 * b1 = - ((- y1) / (- b1) * (- b1))).
    { rewrite Z.div_opp_opp by lia. ring. }
    pose proof (align_mono (- b1) ltac:(lia) (- y1) (- x1) ltac:(lia)) as Hm.
    pose proof (align_down_bounds (- b1) ltac:(lia) (- x1)) as [[Hlx _] _].
    pose proof (align_down_bounds (- b1) ltac:(lia) (- y1)) as [[Hly _] _].
    rewrite Hdx, Hdy.
    destruct (Z.eqb_spec (- (- x1 / - b1 * - b1)) 0);
      destruct (Z.eqb_spec (- (- y1 / - b1 * - b1)) 0); lia.
  - (* a positive block *)
    assert (Hbx2 : 0 < bx2 <= x1)
      by (subst bx2; destruct (Z.gtb_spec b1 x1); lia).
    assert (Hby2 : 0 < by2 <= y1)
      by (subst by2; destruct (Z.gtb_spec b1 y1); lia).
    pose proof (align_down_bounds bx2 ltac:(lia) x1) as [[Hlx Hux] _].
    pose proof (align_down_bounds by2 ltac:(lia) y1) as [[Hly Huy] _].
    assert (Hqx : 1 <= x1 / bx2) by (apply Z.div_le_lower_bound; lia).
    assert (Hqy : 1 <= y1 / by2) by (apply Z.div_le_lower_bound; lia).
    assert (Hfx : bx2 <= x1 / bx2 * bx2) by nia.
    assert (Hfy : by2 <= y1 / by2 * by2) by nia.
    destruct (Z.eqb_spec (x1 / bx2 * bx2) 0); [lia |].
    destruct (Z.eqb_spec (y1 / by2 * by2) 0); [lia |].
    subst bx2 by2.
    destruct (Z.gtb_spec b1 x1), (Z.gtb_spec b1 y1); try lia.
    apply align_mono; lia.
Qed.

Lemma fit_to_max_mono (requested m1 m2 : Z) :
  0 <= m1 <= m2 ->
  fit_to_max requested false m1 <= fit_to_max requested false m2.
Proof.
  intros H. unfold fit_to_max. cbn [negb andb].
  destruct (Z.eqb_spec requested 0); cbn [orb]; [lia |].
  destruct (Z.gtb_spec requested m1), (Z.gtb_spec requested m2); lia.
Qed.

(** Whenever the plan is made for a positive sector size and a positive
    [--block-kb], it has every invariant of a test plan but one: the block
    is a whole number of sectors only if it was not cut down to a file size
    that is not. *)
Lemma plan_invariants_but_alignment
    (requested : Z) (no_autofit : bool)
    (free_bytes sector_size block_kb fs bs : Z) :
  0 < sector_size -> 0 < block_kb ->
  plan requested no_autofit free_bytes sector_size block_kb = Ok (fs, bs) ->
  0 < bs /\ bs <= fs /\ fs mod bs = 0 /\ sector_size <= fs /\ 0 < fs /\
  sector_size <= bs /\ (bs mod sector_size = 0 \/ bs = fs).
Proof.
  intros Hs Hb. unfold plan. intros H.
  apply bind_Ok in H as (max_bytes & _ & H).
  apply bind_Ok in H as ([] & _ & H).
  destruct (fit_blocks_invariants (fit_to_max requested no_autofit max_bytes)
              sector_size block_kb Hs Hb)
    as (fs' & bs' & Hfit & H1 & H2 & H3 & H4 & H5 & H6 & H7).
  rewrite Hfit in H. injection H as <- <-.
  repeat apply conj; try assumption.
  destruct H7 as [H7 | [H7 _]]; auto.
Qed.

(** C1: every plan has all five invariants of a test plan.  The code breaks
    the first one: a request of 1000 bytes on a volume of 512-byte sectors
    with room to spare yields a block of 1000 bytes, cut down from the
    sector-aligned 1 MiB to the file size, which is not a whole number of
    sectors. *)
Theorem plan_block_not_sector_aligned :
  plan 1000 false 10000 512 1024 = Ok (1000, 1000) /\
  plan 1000 true 10000 512 1024 = Ok (1000, 1000) /\
  1000 mod 512 <> 0.
Proof.
  split; [| split].
  - vm_compute. reflexivity.
  - vm_compute. reflexivity.
  - vm_compute. discriminate.
Qed.

(** C3: with autofit, [max_bytes] is the headroom [int(free_bytes * 0.8)]
    aligned down to the sector size (four fifths of the free bytes, rounded
    down, up to [2^50] of them); the file size is the request unless the
    request is zero or exceeds [max_bytes], and then it is [max_bytes]; the
    plan is the block fit of that file size; and 1000000 free bytes on
    512-byte sectors with a request of zero give a file of 799744 bytes. *)
Theorem autofit_file_size
    (requested free_bytes sector_size block_kb : Z) :
  0 <= free_bytes < 2 ^ 64 -> 0 < sector_size ->
  let max_bytes := headroom free_bytes / sector_size * sector_size in
  scaled_free false free_bytes = Ok (headroom free_bytes) /\
  (free_bytes <= 2 ^ 50 -> headroom free_bytes = 4 * free_bytes / 5) /\
  align_down (headroom free_bytes) sector_size = Ok max_bytes /\
  max_bytes_of requested false free_bytes sector_size = Ok max_bytes /\
  fit_to_max requested false max_bytes =
    (if (requested =? 0) || (requested >? max_bytes) then max_bytes
     else requested) /\
  plan requested false free_bytes sector_size block_kb =
    fit_blocks (fit_to_max requested false max_bytes) sector_size block_kb /\
  max_bytes_of 0 false 1000000 512 = Ok 799744 /\
  fit_to_max 0 false 799744 = 799744 /\
  plan 0 false 1000000 512 1024 = Ok (799744, 799744).
Proof.
  intros Hf Hs max_bytes.
  pose proof (scaled_free_headroom free_bytes Hf) as Hh.
  pose proof (align_down_pos sector_size Hs (headroom free_bytes)) as Ha.
  repeat apply conj.
  - exact Hh.
  - intros H50. apply headroom_exact. lia.
  - exact Ha.
  - unfold max_bytes_of. cbn [negb]. rewrite Hh. cbn [bind]. exact Ha.
  - reflexivity.
  - apply plan_autofit; assumption.
  - vm_compute. reflexivity.
  - vm_compute. reflexivity.
  - vm_compute. reflexivity.
Qed.

Lemma autofit_file_size_witness :
  (0 <= 1000000 < 2 ^ 64 /\ 0 < 512) /\
  plan 0 false 1000000 512 1024 = Ok (799744, 799744).
Proof.
  split; [lia |].
  apply (autofit_file_size 0 1000000 512 1024); lia.
Defined.

(** C4: the plan ends in the exit for lack of space exactly when autofit
    is off and the request exceeds the free bytes; so it does for 5000
    bytes requested of 1000 free, and never with autofit on. *)
Theorem plan_exit_iff
    (requested : Z) (no_autofit : bool) (free_bytes sector_size block_kb : Z) :
  ((exists r f, plan requested no_autofit free_bytes sector_size block_kb
                = Raise (SystemExit r f))
   <-> (no_autofit = true /\ requested > free_bytes)) /\
  ((no_autofit = true /\ requested > free_bytes) <->
   plan requested no_autofit free_bytes sector_size block_kb
     = Raise (SystemExit requested free_bytes)) /\
  plan 5000 true 1000 sector_size block_kb = Raise (SystemExit 5000 1000) /\
  (forall r f, plan requested false free_bytes sector_size block_kb
               <> Raise (SystemExit r f)).
Proof.
  assert (Hexit : forall na r f,
    plan requested na free_bytes sector_size block_kb = Raise (SystemExit r f) ->
    na = true /\ requested > free_bytes).
  { intros na r f. unfold plan.
    destruct (max_bytes_of requested na free_bytes sector_size)
      as [mb | e |] eqn:Hmb; cbn [bind].
    - destruct na; [| rewrite andb_false_r].
      + rewrite andb_true_r.
        destruct (Z.gtb_spec requested free_bytes); cbn [negb check bind].
        * intros _. split; [reflexivity | lia].
        * intros Hfb. apply fit_blocks_raises in Hfb. discriminate.
      + cbn [negb check bind]. intros Hfb.
        apply fit_blocks_raises in Hfb. discriminate.
    - intros [= ->]. exfalso. exact (max_bytes_of_not_exit _ _ _ _ _ _ Hmb).
    - discriminate. }
  assert (Hraise : no_autofit = true /\ requested > free_bytes ->
    plan requested no_autofit free_bytes sector_size block_kb
      = Raise (SystemExit requested free_bytes)).
  { intros [-> Hgt]. rewrite plan_no_autofit.
    destruct (Z.gtb_spec requested free_bytes); [reflexivity | lia]. }
  repeat apply conj.
  - intros (r & f & H). apply (Hexit _ _ _ H).
  - intros H. eauto.
  - exact Hraise.
  - intros H. apply (Hexit _ _ _ H).
  - vm_compute. reflexivity.
  - intros r f H. apply Hexit in H as [H _]. discriminate.
Qed.

(** C8: with autofit on and everything else fixed, more free bytes never
    give a smaller file: whenever both plans are made the file sizes are
    ordered, and both are made for a positive [--block-kb]. *)
Theorem autofit_monotone
    (requested sector_size block_kb free1 free2 : Z) :
  0 < sector_size -> 0 <= free1 -> free1 <= free2 -> free2 < 2 ^ 64 ->
  (forall fs1 bs1 fs2 bs2,
     plan requested false free1 sector_size block_kb = Ok (fs1, bs1) ->
     plan requested false free2 sector_size block_kb = Ok (fs2, bs2) ->
     fs1 <= fs2) /\
  (0 < block_kb ->
   exists fs1 bs1 fs2 bs2,
     plan requested false free1 sector_size block_kb = Ok (fs1, bs1) /\
     plan requested false free2 sector_size block_kb = Ok (fs2, bs2) /\
     fs1 <= fs2).
Proof.
  intros Hs H1 H12 H2.
  rewrite !plan_autofit by lia.
  set (m1 := headroom free1 / sector_size * sector_size).
  set (m2 := headroom free2 / sector_size * sector_size).
  assert (Hm : 0 <= m1 <= m2).
  { subst m1 m2. split.
    - apply Z.mul_nonneg_nonneg; [| lia].
      apply Z.div_pos; [apply headroom_nonneg |]; lia.
    - apply align_mono; [lia |]. apply headroom_mono. lia. }
  pose proof (fit_to_max_mono requested m1 m2 Hm) as Hfit.
  assert (Hmono : forall fs1 bs1 fs2 bs2,
    fit_blocks (fit_to_max requested false m1) sector_size block_kb = Ok (fs1, bs1) ->
    fit_blocks (fit_to_max requested false m2) sector_size block_kb = Ok (fs2, bs2) ->
    fs1 <= fs2).
  { intros fs1 bs1 fs2 bs2 Ha Hb.
    exact (fit_blocks_mono _ _ _ _ _ _ _ _ Hs Hfit Ha Hb). }
  split; [exact Hmono |].
  intros Hb.
  destruct (fit_blocks_invariants (fit_to_max requested false m1)
              sector_size block_kb Hs Hb) as (fs1 & bs1 & Ha & _).
  destruct (fit_blocks_invariants (fit_to_max requested false m2)
              sector_size block_kb Hs Hb) as (fs2 & bs2 & Hc & _).
  exists fs1, bs1, fs2, bs2. repeat split; try assumption.
  exact (Hmono _ _ _ _ Ha Hc).
Qed.

Lemma autofit_monotone_witness :
  (0 < 512 /\ 0 <= 1000000 /\ 1000000 <= 3000000 /\ 3000000 < 2 ^ 64) /\
  exists fs1 bs1 fs2 bs2,
    plan 0 false 1000000 512 1024 = Ok (fs1, bs1) /\
    plan 0 false 3000000 512 1024 = Ok (fs2, bs2) /\
    fs1 <= fs2.
Proof.
  split; [lia |].
  apply (autofit_monotone 0 512 1024 1000000 3000000); lia.
Defined.

(** C9: a [--block-kb] of zero leaves the block size zero and the plan
    ends in a division by zero, whatever the other inputs, unless the exit
    for lack of space comes first; no plan is ever made. *)
Theorem plan_zero_block_crashes
    (requested : Z) (no_autofit : bool) (free_bytes sector_size : Z) :
  0 <= free_bytes < 2 ^ 64 -> 0 <= sector_size ->
  plan requested no_autofit free_bytes sector_size 0 =
    (if no_autofit && (requested >? free_bytes)
     then Raise (SystemExit requested free_bytes)
     else Raise ZeroDivisionError) /\
  (forall file_size, 0 < sector_size ->
     align_down (Z.max file_size sector_size) 0 = Raise ZeroDivisionError /\
     fit_blocks file_size sector_size 0 = Raise ZeroDivisionError).
Proof.
  intros Hf Hs. split.
  - destruct no_autofit.
    + rewrite plan_no_autofit. cbn [andb].
      destruct (requested >? free_bytes); [reflexivity |].
      apply fit_blocks_zero_block. assumption.
    + cbn [andb].
      destruct (Z.eq_dec sector_size 0) as [-> | Hnz].
      * unfold plan, max_bytes_of. cbn [negb].
        rewrite scaled_free_headroom by assumption. reflexivity.
      * rewrite plan_autofit by lia.
        apply fit_blocks_zero_block. assumption.
  - intros file_size Hpos. split; [reflexivity |].
    apply fit_blocks_zero_block. lia.
Qed.

Lemma plan_zero_block_crashes_witness :
  (0 <= 1000000 < 2 ^ 64 /\ 0 <= 512) /\
  plan 4096 false 1000000 512 0 = Raise ZeroDivisionError.
Proof.
  split; [lia |].
  apply (plan_zero_block_crashes 4096 false 1000000 512); lia.
Defined.

(** ** The transfer loop *)

Lemma DWORD_small (x : Z) : 0 <= x < 2 ^ 32 -> DWORD x = x.
Proof. intros H. unfold DWORD. apply Z.mod_small. exact H. Qed.

Lemma DWORD_range (x : Z) : 0 <= DWORD x < 2 ^ 32.
Proof. unfold DWORD. apply Z.mod_pos_bound. lia. Qed.

Lemma transfer_loop_done fuel call failed block_size k to_go :
  to_go <= 0 ->
  transfer_loop fuel call failed block_size k to_go = ([], Ok tt).
Proof.
  intros H. destruct fuel; simpl;
    destruct (Z.gtb_spec to_go 0); try lia; reflexivity.
Qed.

(** One turn of the loop. *)
Lemma transfer_loop_step fuel call failed block_size k to_go :
  0 < to_go ->
  let this_io := next_io block_size to_go in
  let reply := call k (DWORD this_io) in
  transfer_loop (S fuel) call failed block_size k to_go =
    if negb (ok reply) || negb (DWORD (moved reply) =? this_io)
    then ([this_io], Raise (failed (DWORD (moved reply))))
    else (this_io :: fst (transfer_loop fuel call failed block_size (S k)
                                        (to_go - this_io)),
          snd (transfer_loop fuel call failed block_size (S k)
                             (to_go - this_io))).
Proof.
  intros H this_io reply. cbn [transfer_loop].
  destruct (Z.gtb_spec to_go 0); [| lia].
  fold (next_io block_size to_go). fold this_io. fold reply.
  destruct (negb (ok reply) || negb (DWORD (moved reply) =? this_io));
    [reflexivity |].
  destruct (transfer_loop fuel call failed block_size (S k) (to_go - this_io)).
  reflexivity.
Qed.

Lemma rejected_check (reply : io_reply) (this_io : Z) :
  negb (ok reply) || negb (DWORD (moved reply) =? this_io) = true
  <-> rejected reply this_io.
Proof.
  unfold rejected. destruct (ok reply); cbn [negb orb].
  - destruct (Z.eqb_spec (DWORD (moved reply)) this_io); cbn [negb];
      split; intros H; try discriminate; auto.
    destruct H as [H | H]; [discriminate | contradiction].
  - split; auto.
Qed.

(** A rejected transfer ends the loop at once. *)
Lemma transfer_loop_rejected fuel call failed block_size k to_go :
  0 < to_go ->
  let this_io := next_io block_size to_go in
  let reply := call k (DWORD this_io) in
  rejected reply this_io ->
  transfer_loop (S fuel) call failed block_size k to_go =
    ([this_io], Raise (failed (DWORD (moved reply)))).
Proof.
  intros H this_io reply Hrej.
  rewrite transfer_loop_step by assumption.
  fold this_io. fold reply.
  apply rejected_check in Hrej. rewrite Hrej. reflexivity.
Qed.

(** Whenever the loop raises, the last transfer issued was rejected, the
    exception is built from the count read back for it, and every
    transfer before it was accepted. *)
Lemma transfer_loop_raises fuel call failed block_size :
  forall k to_go issued e,
  transfer_loop fuel call failed block_size k to_go = (issued, Raise e) ->
  exists before this_io,
    issued = before ++ [this_io] /\
    let reply := call (k + length before)%nat (DWORD this_io) in
    rejected reply this_io /\
    e = failed (DWORD (moved reply)) /\
    forall i c, nth_error before i = Some c ->
      ~ rejected (call (k + i)%nat (DWORD c)) c.
Proof.
  induction fuel as [|fuel IH]; intros k to_go issued e H.
  - simpl in H. destruct (to_go >? 0); discriminate.
  - destruct (Z.gtb_spec to_go 0) as [Hpos | Hle];
      [| rewrite transfer_loop_done in H by lia; discriminate].
    rewrite transfer_loop_step in H by lia.
    set (this_io := next_io block_size to_go) in *.
    set (reply := call k (DWORD this_io)) in *.
    destruct (negb (ok reply) || negb (DWORD (moved reply) =? this_io)) eqn:Hc.
    + injection H as <- <-. exists [], this_io.
      rewrite Nat.add_0_r. repeat split.
      * apply rejected_check. exact Hc.
      * intros [|i] c Hn; discriminate.
    + destruct (transfer_loop fuel call failed block_size (S k) (to_go - this_io))
        as [issued' r'] eqn:Hrec.
      cbn [fst snd] in H. injection H as <- ->.
      destruct (IH _ _ _ _ Hrec) as (before & last & -> & Hrej & -> & Hacc).
      exists (this_io :: before), last. cbn [length app].
      replace (k + S (length before))%nat with (S k + length before)%nat by lia.
      repeat split; try assumption.
      intros [|i] c Hn.
      * injection Hn as <-. rewrite Nat.add_0_r. fold reply.
        intros Hr. apply rejected_check in Hr. congruence.
      * replace (k + S i)%nat with (S k + i)%nat by lia.
        apply Hacc. exact Hn.
Qed.

(** Against a device that completes every transfer, a file of [n] blocks
    of fewer than [2^32] bytes is moved in [n] transfers of one block. *)
Lemma transfer_loop_full call failed block_size :
  completes_fully call -> 0 < block_size < 2 ^ 32 ->
  forall (n fuel k : nat), (n <= fuel)%nat ->
  transfer_loop fuel call failed block_size k (Z.of_nat n * block_size)
    = (repeat block_size n, Ok tt).
Proof.
  intros Hfull Hb. induction n as [|n IH]; intros fuel k Hfuel.
  - apply transfer_loop_done. simpl. lia.
  - destruct fuel as [|fuel]; [lia |].
    rewrite transfer_loop_step by nia.
    assert (Hnext : next_io block_size (Z.of_nat (S n) * block_size) = block_size).
    { unfold next_io.
      destruct (Z.geb_spec (Z.of_nat (S n) * block_size) block_size); [reflexivity | nia]. }
    rewrite Hnext.
    destruct (Hfull k (DWORD block_size)) as [Hok Hmoved].
    rewrite Hok, Hmoved, !DWORD_small, Z.eqb_refl by (try apply DWORD_range; lia).
    cbn [negb orb].
    replace (Z.of_nat (S n) * block_size - block_size)
      with (Z.of_nat n * block_size) by lia.
    rewrite IH by lia. reflexivity.
Qed.

(** Against a device that completes every transfer, a file of [n] blocks
    of fewer than [2^32] bytes and a rest of [rest] bytes is moved in [n]
    transfers of one block and, if there is a rest, one transfer of it. *)
Lemma transfer_loop_blocks call failed block_size :
  completes_fully call -> 0 < block_size < 2 ^ 32 ->
  forall rest, 0 <= rest < block_size ->
  forall (n fuel k : nat),
    (n + (if (rest =? 0)%Z then 0 else 1) <= fuel)%nat ->
    transfer_loop fuel call failed block_size k (Z.of_nat n * block_size + rest)
      = (repeat block_size n ++ (if rest =? 0 then [] else [rest]), Ok tt).
Proof.
  intros Hfull Hb rest Hrest. induction n as [|n IH]; intros fuel k Hfuel.
  - cbn [Z.of_nat Z.mul Z.add repeat app].
    destruct (Z.eqb_spec rest 0) as [-> | Hnz].
    + apply transfer_loop_done. lia.
    + destruct fuel as [|fuel]; [lia |].
      rewrite transfer_loop_step by lia.
      assert (Hnext : next_io block_size rest = rest).
      { unfold next_io. destruct (Z.geb_spec rest block_size); [lia | reflexivity]. }
      rewrite Hnext.
      destruct (Hfull k (DWORD rest)) as [Hok Hmoved].
      rewrite Hok, Hmoved, !DWORD_small, Z.eqb_refl
        by (try apply DWORD_range; lia).
      cbn [negb orb]. rewrite Z.sub_diag, transfer_loop_done by lia.
      reflexivity.
  - destruct fuel as [|fuel]; [lia |].
    rewrite transfer_loop_step by nia.
    assert (Hnext : next_io block_size (Z.of_nat (S n) * block_size + rest)
                    = block_size).
    { unfold next_io.
      destruct (Z.geb_spec (Z.of_nat (S n) * block_size + rest) block_size);
        [reflexivity | nia]. }
    rewrite Hnext.
    destruct (Hfull k (DWORD block_size)) as [Hok Hmoved].
    rewrite Hok, Hmoved, !DWORD_small, Z.eqb_refl by (try apply DWORD_range; lia).
    cbn [negb orb].
    replace (Z.of_nat (S n) * block_size + rest - block_size)
      with (Z.of_nat n * block_size + rest) by lia.
    rewrite IH by lia. reflexivity.
Qed.

(** The number of transfers a file takes. *)
Lemma transfers_needed (file_size block_size : Z) :
  0 < block_size -> 0 <= file_size ->
  Z.to_nat ((file_size + block_size - 1) / block_size) =
    (Z.to_nat (file_size / block_size)
     + (if (file_size mod block_size =? 0)%Z then 0 else 1))%nat.
Proof.
  intros Hb Hf. rewrite align_up_step by assumption.
  assert (0 <= file_size / block_size) by (apply Z.div_pos; lia).
  destruct (file_size mod block_size =? 0); lia.
Qed.

Lemma transfer_loop_any_size call failed file_size block_size :
  completes_fully call -> 0 < block_size < 2 ^ 32 -> 0 <= file_size ->
  forall (fuel k : nat),
    (Z.to_nat ((file_size + block_size - 1) / block_size) <= fuel)%nat ->
    transfer_loop fuel call failed block_size k file_size
      = (repeat block_size (Z.to_nat (file_size / block_size))
           ++ (if file_size mod block_size =? 0 then []
               else [file_size mod block_size]),
         Ok tt).
Proof.
  intros Hfull Hb Hf fuel k Hfuel.
  rewrite transfers_needed in Hfuel by lia.
  pose proof (Z.div_mod file_size block_size ltac:(lia)) as Hdm.
  pose proof (Z.mod_pos_bound file_size block_size ltac:(lia)) as Hr.
  assert (Hq : 0 <= file_size / block_size) by (apply Z.div_pos; lia).
  rewrite Hdm at 1.
  replace (block_size * (file_size / block_size) + file_size mod block_size)
    with (Z.of_nat (Z.to_nat (file_size / block_size)) * block_size
          + file_size mod block_size) by lia.
  apply transfer_loop_blocks; assumption.
Qed.

Lemma total_repeat (c : Z) (n : nat) : total (repeat c n) = Z.of_nat n * c.
Proof. induction n as [|n IH]; [reflexivity |]. cbn [repeat total]. lia. Qed.

(** C10, as stated for every positive block size, fails on the code: the
    byte count of a transfer goes through a DWORD, so a block of [2^32]
    bytes is asked of the device as a transfer of zero bytes, a device
    that completes it moves zero bytes, and the loop raises. *)
Lemma full_device_4GiB_block_fails :
  let call := fun (_ : nat) (count : Z) => {| ok := true; moved := count |} in
  let os := {| CreateFileW_ok := true; SetFilePointerEx_ok := fun _ => true;
               SetEndOfFile_ok := true; VirtualAlloc_ok := true;
               transfer := fun _ => call;
               perf_counter := fun _ => F64.zero; last_error := 0 |} in
  completes_fully call /\ 0 < 2 ^ 32 /\ 2 ^ 32 mod 2 ^ 32 = 0 /\
  forall fuel,
    transfer_loop (S fuel) (transfer os 0%nat) (write_failed os) (2 ^ 32) 0 (2 ^ 32)
      = ([2 ^ 32], Raise (OSError (WriteFile_failed_wrote 0) 0)).
Proof.
  intros call os. repeat apply conj.
  - intros k count. split; reflexivity.
  - lia.
  - reflexivity.
  - intros fuel. rewrite transfer_loop_step by lia. reflexivity.
Qed.

(** C10 (amended): with a block of fewer than [2^32] bytes, a file that is
    a whole number of blocks and a device whose transfers always complete,
    the loop returns; it issues [file_size / block_size] transfers, each of
    exactly one block, and they add up to the file size. *)
Theorem full_device_pass
    (call : nat -> Z -> io_reply) (failed : Z -> exn) (file_size block_size : Z) :
  completes_fully call -> 0 < block_size < 2 ^ 32 ->
  0 < file_size -> file_size mod block_size = 0 ->
  forall (fuel k : nat), (Z.to_nat (file_size / block_size) <= fuel)%nat ->
  exists issued,
    transfer_loop fuel call failed block_size k file_size = (issued, Ok tt) /\
    Forall (fun this_io => this_io = block_size) issued /\
    Z.of_nat (length issued) = file_size / block_size /\
    total issued = file_size.
Proof.
  intros Hfull Hb Hfs Hmod fuel k Hfuel.
  set (n := Z.to_nat (file_size / block_size)) in *.
  assert (Hq : 0 <= file_size / block_size) by (apply Z.div_pos; lia).
  assert (Hn : file_size = Z.of_nat n * block_size).
  { subst n. rewrite Z2Nat.id by assumption.
    apply Z.div_exact in Hmod; lia. }
  exists (repeat block_size n). repeat apply conj.
  - rewrite Hn at 1. apply transfer_loop_full; assumption.
  - apply Forall_forall. intros x Hx. apply repeat_spec in Hx. exact Hx.
  - rewrite repeat_length. subst n. apply Z2Nat.id. assumption.
  - rewrite total_repeat. lia.
Qed.

Lemma full_device_pass_witness :
  (completes_fully (transfer steady_os 0%nat) /\ 0 < 1024 < 2 ^ 32 /\
   0 < 4096 /\ 4096 mod 1024 = 0 /\
   (Z.to_nat (4096 / 1024) <= 4)%nat) /\
  exists issued,
    transfer_loop 4 (transfer steady_os 0%nat) (write_failed steady_os)
                  1024 0%nat 4096 = (issued, Ok tt) /\
    Forall (fun this_io => this_io = 1024) issued /\
    Z.of_nat (length issued) = 4096 / 1024 /\
    total issued = 4096.
Proof.
  assert (Hfull : completes_fully (transfer steady_os 0%nat))
    by (intros k count; split; reflexivity).
  assert (Hfuel : (Z.to_nat (4096 / 1024) <= 4)%nat)
    by (vm_compute; repeat constructor).
  split.
  - repeat apply conj; try lia; try reflexivity; assumption.
  - apply (full_device_pass (transfer steady_os 0%nat) (write_failed steady_os)
             4096 1024 Hfull); try lia; try reflexivity; exact Hfuel.
Defined.

(** ** The outer loop *)

Section PassLoop.

Variables (os : OS) (failed : Z -> exn) (seeks_before : nat).
Variables (file_size block_size passes : Z) (min_seconds : F64.float).

(** A pass that completes has sought, moved the whole file and measured:
    it appends the sample of its elapsed time, adds the time to the total
    and counts itself. *)
Lemma one_pass_Ok (fuel : nat) (st st' : locals) :
  one_pass fuel os failed seeks_before file_size block_size st = (st', Ok tt) ->
  exists sample,
    set_pointer os (seeks_before + done st)%nat = Ok tt /\
    snd (transfer_loop fuel (transfer os (done st)) failed block_size 0%nat
                       file_size) = Ok tt /\
    throughput_mb_s file_size (elapsed_of os (done st)) = Ok sample /\
    st' = {| per_pass := per_pass st ++ [sample];
             total_elapsed := F64.add (total_elapsed st) (elapsed_of os (done st));
             done := S (done st) |}.
Proof.
  unfold one_pass, seq, read, lift, assign.
  fold (elapsed_of os (done st)).
  destruct (set_pointer os (seeks_before + done st)%nat) as [[] | |];
    try discriminate.
  destruct (snd (transfer_loop fuel (transfer os (done st)) failed block_size
                               0%nat file_size)) as [[] | |]; try discriminate.
  destruct (throughput_mb_s file_size (elapsed_of os (done st)))
    as [sample | |]; try discriminate.
  intros [= <-]. exists sample. repeat split.
Qed.

(** A pass whose transfer loop raises leaves the locals as they were: no
    time is added, no sample is appended, the pass is not counted. *)
Lemma one_pass_transfer_raises (fuel : nat) (st : locals) (e : exn) :
  set_pointer os (seeks_before + done st)%nat = Ok tt ->
  snd (transfer_loop fuel (transfer os (done st)) failed block_size 0%nat
                     file_size) = Raise e ->
  one_pass fuel os failed seeks_before file_size block_size st = (st, Raise e).
Proof.
  intros Hseek Hloop. unfold one_pass, seq, read, lift.
  rewrite Hseek, Hloop. reflexivity.
Qed.

Lemma pass_loop_stop (fuel : nat) (st : locals) :
  continue passes min_seconds st = false ->
  pass_loop fuel os failed seeks_before file_size block_size passes
            min_seconds st = (st, Ok tt).
Proof. intros H. destruct fuel; simpl; rewrite H; reflexivity. Qed.

Lemma pass_loop_step (fuel : nat) (st : locals) :
  continue passes min_seconds st = true ->
  pass_loop (S fuel) os failed seeks_before file_size block_size passes
            min_seconds st =
    match one_pass fuel os failed seeks_before file_size block_size st with
    | (st', Ok _) =>
        pass_loop fuel os failed seeks_before file_size block_size passes
                  min_seconds st'
    | (st', Raise e) => (st', Raise e)
    | (st', OutOfFuel) => (st', OutOfFuel)
    end.
Proof. intros H. cbn [pass_loop]. rewrite H. reflexivity. Qed.

(** What holds of the locals before the loop and is kept by every pass
    that completes holds when the loop returns, and then the loop
    condition is false. *)
Lemma pass_loop_invariant (I : locals -> Prop) :
  (forall fuel st st',
     I st -> continue passes min_seconds st = true ->
     one_pass fuel os failed seeks_before file_size block_size st = (st', Ok tt) ->
     I st') ->
  forall fuel st st',
    I st ->
    pass_loop fuel os failed seeks_before file_size block_size passes
              min_seconds st = (st', Ok tt) ->
    I st' /\ continue passes min_seconds st' = false.
Proof.
  intros Hstep. induction fuel as [|fuel IH]; intros st st' HI Hrun.
  - cbn [pass_loop] in Hrun.
    destruct (continue passes min_seconds st) eqn:Hc; [discriminate |].
    injection Hrun as <-. auto.
  - destruct (continue passes min_seconds st) eqn:Hc.
    + rewrite pass_loop_step in Hrun by assumption.
      destruct (one_pass fuel os failed seeks_before file_size block_size st)
        as [st1 [[] | e |]] eqn:Hpass; try discriminate.
      apply (IH st1 st'); [| exact Hrun].
      exact (Hstep _ _ _ HI Hc Hpass).
    + rewrite pass_loop_stop in Hrun by assumption.
      injection Hrun as <-. auto.
Qed.

End PassLoop.

(** ** Fuel

    A loop that has finished within some number of iterations finishes in
    the same way within any larger number. *)

Lemma transfer_loop_fuel call failed block_size :
  forall fuel fuel' k to_go issued r,
    transfer_loop fuel call failed block_size k to_go = (issued, r) ->
    r <> OutOfFuel -> (fuel <= fuel')%nat ->
    transfer_loop fuel' call failed block_size k to_go = (issued, r).
Proof.
  induction fuel as [|fuel IH]; intros fuel' k to_go issued r Hrun Hr Hle.
  - destruct (Z.gtb_spec to_go 0) as [Hpos | Hdone].
    + cbn [transfer_loop] in Hrun.
      destruct (Z.gtb_spec to_go 0); [| lia]. injection Hrun as <- <-.
      contradiction.
    + rewrite transfer_loop_done in Hrun by assumption.
      rewrite transfer_loop_done by assumption. exact Hrun.
  - destruct (Z.gtb_spec to_go 0) as [Hpos | Hdone].
    + destruct fuel' as [|fuel']; [lia |].
      rewrite transfer_loop_step in Hrun |- * by assumption.
      destruct (negb _ || negb _); [exact Hrun |].
      destruct (transfer_loop fuel call failed block_size (S k)
                  (to_go - next_io block_size to_go)) as [issued1 r1] eqn:Hrec.
      cbn [fst snd] in Hrun. injection Hrun as <- <-.
      rewrite (IH fuel' _ _ _ _ Hrec Hr ltac:(lia)). reflexivity.
    + rewrite transfer_loop_done in Hrun by assumption.
      rewrite transfer_loop_done by assumption. exact Hrun.
Qed.

Section Fuel.

Variables (os : OS) (failed : Z -> exn) (seeks_before : nat).
Variables (file_size block_size passes : Z) (min_seconds : F64.float).

Lemma one_pass_fuel (fuel fuel' : nat) (st st' : locals) (r : result unit) :
  one_pass fuel os failed seeks_before file_size block_size st = (st', r) ->
  r <> OutOfFuel -> (fuel <= fuel')%nat ->
  one_pass fuel' os failed seeks_before file_size block_size st = (st', r).
Proof.
  unfold one_pass, seq, read, lift, assign. intros Hrun Hr Hle.
  destruct (set_pointer os (seeks_before + done st)%nat) as [[] | e |];
    try exact Hrun.
  destruct (transfer_loop fuel (transfer os (done st)) failed block_size 0%nat
                          file_size) as [issued r1] eqn:Hloop.
  cbn [snd] in Hrun.
  assert (Hr1 : r1 <> OutOfFuel).
  { intros ->. injection Hrun as _ <-. contradiction. }
  rewrite (transfer_loop_fuel _ _ _ _ _ _ _ _ _ Hloop Hr1 Hle).
  exact Hrun.
Qed.

Lemma pass_loop_fuel :
  forall (fuel fuel' : nat) (st st' : locals) (r : result unit),
    pass_loop fuel os failed seeks_before file_size block_size passes
              min_seconds st = (st', r) ->
    r <> OutOfFuel -> (fuel <= fuel')%nat ->
    pass_loop fuel' os failed seeks_before file_size block_size passes
              min_seconds st = (st', r).
Proof.
  induction fuel as [|fuel IH]; intros fuel' st st' r Hrun Hr Hle.
  - destruct (continue passes min_seconds st) eqn:Hc.
    + cbn [pass_loop] in Hrun. rewrite Hc in Hrun. injection Hrun as _ <-.
      contradiction.
    + rewrite pass_loop_stop in Hrun |- * by assumption. exact Hrun.
  - destruct (continue passes min_seconds st) eqn:Hc.
    + destruct fuel' as [|fuel']; [lia |].
      rewrite pass_loop_step in Hrun |- * by assumption.
      destruct (one_pass fuel os failed seeks_before file_size block_size st)
        as [st1 r1] eqn:Hpass.
      assert (Hr1 : r1 <> OutOfFuel).
      { intros ->. injection Hrun as _ <-. contradiction. }
      rewrite (one_pass_fuel _ fuel' _ _ _ Hpass Hr1 ltac:(lia)).
      destruct r1 as [[] | e |]; [| exact Hrun | contradiction].
      apply (IH fuel'); [exact Hrun | exact Hr | lia].
    + rewrite pass_loop_stop in Hrun |- * by assumption. exact Hrun.
Qed.

End Fuel.

(** ** The two tests

    A test that returns a series has opened its handle and left its loop
    normally; the series is what the loop collected. *)

Lemma run_write_tests_Ok fuel os file_size block_size passes min_seconds series :
  run_write_tests fuel os file_size block_size passes min_seconds = Ok series ->
  exists st,
    pass_loop fuel os (write_failed os) 2%nat file_size block_size passes
              min_seconds fresh = (st, Ok tt) /\
    series = per_pass st.
Proof.
  unfold run_write_tests. intros H.
  repeat (apply bind_Ok in H as ([] & _ & H)).
  destruct (pass_loop fuel os (write_failed os) 2%nat file_size block_size
                      passes min_seconds fresh) as [st r].
  apply bind_Ok in H as ([] & -> & [= <-]). eauto.
Qed.

Lemma run_read_tests_Ok fuel os file_size block_size passes min_seconds series :
  run_read_tests fuel os file_size block_size passes min_seconds = Ok series ->
  exists st,
    pass_loop fuel os (read_failed os) 0%nat file_size block_size passes
              min_seconds fresh = (st, Ok tt) /\
    series = per_pass st.
Proof.
  unfold run_read_tests. intros H.
  repeat (apply bind_Ok in H as ([] & _ & H)).
  destruct (pass_loop fuel os (read_failed os) 0%nat file_size block_size
                      passes min_seconds fresh) as [st r].
  apply bind_Ok in H as ([] & -> & [= <-]). eauto.
Qed.

(** ** Failed transfers *)

(** C5, as stated, fails on the code: the exception of a failed transfer
    is built from the count read back and the last error only, so the
    count that was asked for cannot be read off it.  Blocks of 4096 and of
    8192 bytes cut short at 512 bytes raise the same exception. *)
Lemma transfer_error_lacks_requested_count :
  ~ exists requested_of : exn -> Z,
      forall os block_size file_size issued e,
        transfer_loop 1 (transfer os 0%nat) (write_failed os) block_size 0%nat
                      file_size = (issued, Raise e) ->
        issued = [requested_of e].
Proof.
  intros [requested_of H].
  pose proof (H short_os 4096 4096 [4096]
                (OSError (WriteFile_failed_wrote 512) 0) eq_refl) as H1.
  pose proof (H short_os 8192 8192 [8192]
                (OSError (WriteFile_failed_wrote 512) 0) eq_refl) as H2.
  congruence.
Qed.

(** C5 (amended): a transfer that reports failure, or for which the count
    read back differs from the count asked for, ends the loop at once with
    an [OSError] carrying the count read back and the last error; it is the
    last transfer issued, and all before it were accepted; the pass leaves
    the locals untouched, so no sample is appended, and the run of passes
    ends with the same exception. *)
Theorem failed_transfer_aborts
    (fuel : nat) (os : OS) (failed : Z -> exn) (seeks_before : nat)
    (file_size block_size passes : Z) (min_seconds : F64.float)
    (st : locals) (issued : list Z) (e : exn) :
  failed = write_failed os \/ failed = read_failed os ->
  transfer_loop fuel (transfer os (done st)) failed block_size 0%nat file_size
    = (issued, Raise e) ->
  (exists before this_io,
     issued = before ++ [this_io] /\
     let reply := transfer os (done st) (length before) (DWORD this_io) in
     rejected reply this_io /\
     (e = OSError (WriteFile_failed_wrote (DWORD (moved reply))) (last_error os) \/
      e = OSError (ReadFile_failed_read (DWORD (moved reply))) (last_error os)) /\
     (forall i c, nth_error before i = Some c ->
        ~ rejected (transfer os (done st) i (DWORD c)) c)) /\
  (set_pointer os (seeks_before + done st)%nat = Ok tt ->
   one_pass fuel os failed seeks_before file_size block_size st = (st, Raise e) /\
   (continue passes min_seconds st = true ->
    pass_loop (S fuel) os failed seeks_before file_size block_size passes
              min_seconds st = (st, Raise e))) /\
  (forall k to_go,
     0 < to_go ->
     rejected (transfer os (done st) k (DWORD (next_io block_size to_go)))
              (next_io block_size to_go) ->
     transfer_loop (S fuel) (transfer os (done st)) failed block_size k to_go =
       ([next_io block_size to_go],
        Raise (failed (DWORD (moved (transfer os (done st) k
                                       (DWORD (next_io block_size to_go)))))))).
Proof.
  intros Hfailed Hloop. repeat apply conj.
  - destruct (transfer_loop_raises _ _ _ _ _ _ _ _ Hloop)
      as (before & this_io & -> & Hrej & -> & Hacc).
    exists before, this_io. cbn [Nat.add] in *.
    repeat apply conj; try assumption.
    + reflexivity.
    + destruct Hfailed as [-> | ->]; [left | right]; reflexivity.
  - intros Hseek.
    assert (Hpass : one_pass fuel os failed seeks_before file_size block_size st
                    = (st, Raise e)).
    { apply one_pass_transfer_raises; [assumption |]. rewrite Hloop. reflexivity. }
    split; [exact Hpass |].
    intros Hc. rewrite pass_loop_step by assumption. rewrite Hpass. reflexivity.
  - intros k to_go Hpos Hrej. apply transfer_loop_rejected; assumption.
Qed.

Lemma failed_transfer_aborts_witness :
  (write_failed short_os = write_failed short_os \/
   write_failed short_os = read_failed short_os) /\
  transfer_loop 3 (transfer short_os (done fresh)) (write_failed short_os)
                4096 0%nat 8192
    = ([4096], Raise (OSError (WriteFile_failed_wrote 512) 0)) /\
  (set_pointer short_os (2 + done fresh)%nat = Ok tt ->
   one_pass 3 short_os (write_failed short_os) 2%nat 8192 4096 fresh
     = (fresh, Raise (OSError (WriteFile_failed_wrote 512) 0)) /\
   (continue 1 F64.zero fresh = true ->
    pass_loop 4 short_os (write_failed short_os) 2%nat 8192 4096 1 F64.zero fresh
      = (fresh, Raise (OSError (WriteFile_failed_wrote 512) 0)))).
Proof.
  split; [left; reflexivity |].
  split; [reflexivity |].
  apply (failed_transfer_aborts 3 short_os (write_failed short_os) 2%nat
           8192 4096 1 F64.zero fresh [4096]
           (OSError (WriteFile_failed_wrote 512) 0)).
  - left. reflexivity.
  - reflexivity.
Defined.

(** ** Throughput samples *)

Lemma signed_leb_zero (x : F64.float) :
  F64.signed false x -> F64.leb F64.zero x = true.
Proof.
  destruct x as [s | s | | s m e]; cbn; intros H; subst; try reflexivity.
  contradiction.
Qed.

(** For a positive time the division of the throughput has a divisor
    that is not zero. *)
Lemma throughput_positive_time (total_bytes : Z) (seconds : F64.float) :
  F64.ltb F64.zero seconds = true ->
  throughput_mb_s total_bytes seconds =
    (mib <- F64.int_div_MiB total_bytes ;; Ok (SFdiv 53 1024 mib seconds)).
Proof.
  intros H. unfold throughput_mb_s. rewrite H.
  apply ltb_zero_iff in H as (_ & Hz & _).
  unfold F64.div. rewrite Hz. reflexivity.
Qed.

Lemma throughput_nonneg (total_bytes : Z) (seconds x : F64.float) :
  0 <= total_bytes ->
  throughput_mb_s total_bytes seconds = Ok x ->
  F64.leb F64.zero x = true.
Proof.
  intros Hb. destruct (F64.ltb F64.zero seconds) eqn:Hs.
  - rewrite throughput_positive_time by assumption.
    intros H. apply bind_Ok in H as (mib & Hmib & [= <-]).
    apply int_div_MiB_signed in Hmib as [Hfin Hsig]; [| assumption].
    apply signed_leb_zero. apply div_nonneg; assumption.
  - unfold throughput_mb_s. rewrite Hs. intros [= <-]. reflexivity.
Qed.

Lemma throughput_no_zero_division (total_bytes : Z) (seconds : F64.float) :
  throughput_mb_s total_bytes seconds <> Raise ZeroDivisionError.
Proof.
  destruct (F64.ltb F64.zero seconds) eqn:Hs.
  - rewrite throughput_positive_time by assumption.
    unfold F64.int_div_MiB.
    destruct (binary_normalize F64.prec F64.emax total_bytes (-20) false);
      discriminate.
  - unfold throughput_mb_s. rewrite Hs. discriminate.
Qed.

(** The samples of a series returned for a file size that is not negative
    are zero or positive. *)
Lemma series_nonneg fuel os file_size block_size passes min_seconds series :
  0 <= file_size ->
  run_write_tests fuel os file_size block_size passes min_seconds = Ok series \/
  run_read_tests fuel os file_size block_size passes min_seconds = Ok series ->
  Forall (fun sample => F64.leb F64.zero sample = true) series.
Proof.
  intros Hfs Hrun.
  assert (Hloop : forall failed sb st,
    pass_loop fuel os failed sb file_size block_size passes min_seconds fresh
      = (st, Ok tt) ->
    Forall (fun sample => F64.leb F64.zero sample = true) (per_pass st)).
  { intros failed sb st Hl.
    apply (pass_loop_invariant os failed sb file_size block_size passes
             min_seconds
             (fun st => Forall (fun sample => F64.leb F64.zero sample = true)
                               (per_pass st))) in Hl.
    - apply Hl.
    - intros f st0 st1 HI _ Hp.
      apply one_pass_Ok in Hp as (sample & _ & _ & Hs & ->).
      cbn [per_pass]. apply Forall_app. split; [exact HI |].
      constructor; [| constructor].
      exact (throughput_nonneg _ _ _ Hfs Hs).
    - constructor. }
  destruct Hrun as [Hrun | Hrun];
    [apply run_write_tests_Ok in Hrun as (st & Hl & ->)
    |apply run_read_tests_Ok in Hrun as (st & Hl & ->)];
    exact (Hloop _ _ _ Hl).
Qed.

(** The quotient of a file size by [1024 * 1024]: a binary64 number
    [m * 2^e] with [m * 2^e * 2^20] the file size rounded to 53 bits. *)
Lemma MiB_quotient (n : Z) :
  0 < n < 2 ^ 64 ->
  exists m e,
    binary_normalize 53 1024 n (-20) false = S754_finite false m e /\
    bounded 53 1024 m e = true /\
    2 ^ 52 <= Z.pos m < 2 ^ 53 /\
    Z.pos m * 2 ^ (e + 72) = F64.rne n * 2 ^ 52.
Proof.
  intros Hn. destruct n as [|p|p]; try lia. cbn [binary_normalize].
  assert (Hlog : 0 <= Z.log2 (Z.pos p) < 64).
  { split; [apply Z.log2_nonneg | apply Z.log2_lt_pow2; lia]. }
  destruct (binary_round_normal false p (-20)) as (m & e & -> & Hm & He & Hval);
    [lia |].
  specialize (Hval 72 ltac:(lia) ltac:(lia)).
  replace (-20 + 72) with 52 in Hval by lia.
  rewrite rne_scale in Hval by lia.
  destruct (Z.leb_spec e 971); [| lia].
  exists m, e. repeat apply conj; try lia; [reflexivity |].
  apply canonical_bounded; try lia.
  - rewrite (Z.log2_unique (Z.pos m) 52); lia.
  - left. rewrite (Z.log2_unique (Z.pos m) 52); lia.
Qed.

(** C6: for a positive elapsed time the sample of a pass is the binary64
    quotient of [file_size / (1024 * 1024)] by the time, where the first
    quotient is the number [m * 2^e] nearest to it ([m * 2^e * 2^20] is the
    file size rounded to 53 bits, and the file size itself below [2^53]),
    so that a pass of one second gives exactly that number; the sample is
    [0.0] when the time is not positive (so for an elapsed time of zero and
    4096 bytes); no division by zero is raised; a completed pass appends
    the sample of its own elapsed time; and for a file size that is not
    negative every sample of a returned series is a number that is not
    negative. *)
Theorem throughput_samples
    (file_size : Z) (seconds : F64.float) :
  (0 < file_size < 2 ^ 64 ->
   exists m e,
     2 ^ 52 <= Z.pos m < 2 ^ 53 /\
     Z.pos m * 2 ^ (e + 72) = F64.rne file_size * 2 ^ 52 /\
     (file_size < 2 ^ 53 -> Z.pos m * 2 ^ (e + 72) = file_size * 2 ^ 52) /\
     (F64.ltb F64.zero seconds = true ->
      throughput_mb_s file_size seconds
        = Ok (SFdiv 53 1024 (S754_finite false m e) seconds)) /\
     throughput_mb_s file_size (S754_finite false 4503599627370496 (-52))
       = Ok (S754_finite false m e)) /\
  (F64.ltb F64.zero seconds = true ->
   throughput_mb_s file_size seconds =
     match binary_normalize 53 1024 file_size (-20) false with
     | S754_infinity _ => Raise OverflowError
     | mib => Ok (SFdiv 53 1024 mib seconds)
     end) /\
  (F64.ltb F64.zero seconds = false ->
   throughput_mb_s file_size seconds = Ok F64.zero) /\
  (F64.leb seconds F64.zero = true ->
   throughput_mb_s file_size seconds = Ok F64.zero) /\
  throughput_mb_s 4096 F64.zero = Ok F64.zero /\
  throughput_mb_s file_size seconds <> Raise ZeroDivisionError /\
  (forall fuel os failed seeks_before block_size st st',
     one_pass fuel os failed seeks_before file_size block_size st = (st', Ok tt) ->
     exists sample,
       throughput_mb_s file_size
         (F64.sub (perf_counter os (2 * done st + 1)%nat)
                  (perf_counter os (2 * done st)%nat)) = Ok sample /\
       per_pass st' = per_pass st ++ [sample]) /\
  (0 <= file_size ->
   forall fuel os block_size passes min_seconds series,
     run_write_tests fuel os file_size block_size passes min_seconds = Ok series \/
     run_read_tests fuel os file_size block_size passes min_seconds = Ok series ->
     Forall (fun sample => F64.leb F64.zero sample = true) series).
Proof.
  assert (Hpos : forall t, F64.ltb F64.zero t = true ->
    throughput_mb_s file_size t =
      match binary_normalize 53 1024 file_size (-20) false with
      | S754_infinity _ => Raise OverflowError
      | mib => Ok (SFdiv 53 1024 mib t)
      end).
  { intros t Ht. rewrite throughput_positive_time by assumption.
    unfold F64.int_div_MiB, F64.prec, F64.emax.
    destruct (binary_normalize 53 1024 file_size (-20) false); reflexivity. }
  repeat apply conj.
  - intros Hfs.
    destruct (MiB_quotient file_size Hfs) as (m & e & Hq & Hb & Hm & Hval).
    exists m, e. repeat apply conj; try lia.
    + intros Hsmall. rewrite Hval. f_equal. apply rne_small.
      assert (Z.log2 file_size < 53) by (apply Z.log2_lt_pow2; lia). lia.
    + intros Ht. rewrite (Hpos _ Ht), Hq. reflexivity.
    + rewrite (Hpos (S754_finite false 4503599627370496 (-52)) eq_refl), Hq.
      f_equal. apply div_by_one. exact Hb.
  - apply Hpos.
  - intros H. unfold throughput_mb_s. rewrite H. reflexivity.
  - intros H. unfold throughput_mb_s.
    destruct (F64.ltb F64.zero seconds) eqn:Hlt; [| reflexivity].
    exfalso. apply ltb_zero_iff in Hlt as (Hnan & Hz & Hs).
    destruct seconds as [s | s | | s m e]; cbn in *; subst; discriminate.
  - reflexivity.
  - apply throughput_no_zero_division.
  - intros fuel os failed sb bs st st' H.
    apply one_pass_Ok in H as (sample & _ & _ & Hs & ->).
    exists sample. split; [exact Hs | reflexivity].
  - intros Hfs fuel os bs passes min_seconds series Hrun.
    exact (series_nonneg _ _ _ _ _ _ _ Hfs Hrun).
Qed.

Lemma throughput_samples_witness :
  let two := S754_finite false 4503599627370496 (-51) in
  (0 < 3145728 < 2 ^ 64 /\ 3145728 < 2 ^ 53 /\ F64.ltb F64.zero two = true) /\
  throughput_mb_s 3145728 two = Ok (S754_finite false 6755399441055744 (-52)) /\
  exists m e,
    2 ^ 52 <= Z.pos m < 2 ^ 53 /\
    Z.pos m * 2 ^ (e + 72) = F64.rne 3145728 * 2 ^ 52 /\
    (3145728 < 2 ^ 53 -> Z.pos m * 2 ^ (e + 72) = 3145728 * 2 ^ 52) /\
    (F64.ltb F64.zero two = true ->
     throughput_mb_s 3145728 two
       = Ok (SFdiv 53 1024 (S754_finite false m e) two)) /\
    throughput_mb_s 3145728 (S754_finite false 4503599627370496 (-52))
      = Ok (S754_finite false m e).
Proof.
  intros two.
  split; [repeat split; try lia; reflexivity |].
  split; [vm_compute; reflexivity |].
  apply (throughput_samples 3145728 two). lia.
Defined.

(** ** A run in which nothing fails *)

Lemma add_nonneg (x y : F64.float) :
  F64.leb F64.zero x = true -> F64.leb F64.zero y = true ->
  F64.leb F64.zero (F64.add x y) = true.
Proof.
  intros Hx Hy. unfold F64.add, F64.prec, F64.emax.
  destruct x as [[] | [] | | [] mx ex]; try discriminate;
    destruct y as [[] | [] | | [] my ey]; try discriminate;
    try reflexivity.
  cbn [SFadd cond_Zopp]. apply signed_leb_zero.
  exact (binary_normalize_signed
           (Z.pos (fst (shl_align mx ex (Z.min ex ey)))
            + Z.pos (fst (shl_align my ey (Z.min ex ey))))
           (Z.min ex ey) false).
Qed.

Lemma nonneg_not_below_zero (x : F64.float) :
  F64.leb F64.zero x = true -> F64.ltb x F64.zero = false.
Proof. destruct x as [[] | [] | | [] m e]; try discriminate; reflexivity. Qed.

Lemma int_div_MiB_Ok (n : Z) :
  0 <= n < 2 ^ 64 -> exists x, F64.int_div_MiB n = Ok x.
Proof.
  intros [H0 H64]. unfold F64.int_div_MiB, F64.prec, F64.emax.
  destruct n as [|p|p]; try lia; [eexists; reflexivity |].
  cbn [binary_normalize].
  assert (Hlog : Z.log2 (Z.pos p) < 64) by (apply Z.log2_lt_pow2; lia).
  pose proof (Z.log2_nonneg (Z.pos p)).
  destruct (binary_round_normal false p (-20)) as (m & e & -> & _ & He & _);
    [lia |].
  destruct (Z.leb_spec e 971); [| lia]. eexists; reflexivity.
Qed.

Lemma throughput_Ok (file_size : Z) (seconds : F64.float) :
  0 <= file_size < 2 ^ 64 -> exists x, throughput_mb_s file_size seconds = Ok x.
Proof.
  intros Hfs. destruct (F64.ltb F64.zero seconds) eqn:Hs.
  - rewrite throughput_positive_time by assumption.
    destruct (int_div_MiB_Ok file_size Hfs) as [mib ->]. cbn [bind]. eauto.
  - unfold throughput_mb_s. rewrite Hs. eauto.
Qed.

(** With no minimum duration, a file of whole blocks and a well-behaved
    system, the loop makes the passes that are left and returns. *)
Lemma pass_loop_runs os failed seeks_before file_size block_size passes :
  well_behaved os ->
  0 < block_size < 2 ^ 32 -> 0 < file_size < 2 ^ 64 ->
  file_size mod block_size = 0 ->
  forall (left_ fuel : nat) (st : locals),
    F64.leb F64.zero (total_elapsed st) = true ->
    Z.of_nat (done st) + Z.of_nat left_ = Z.max passes (Z.of_nat (done st)) ->
    (left_ + Z.to_nat (file_size / block_size) <= fuel)%nat ->
    exists st',
      pass_loop fuel os failed seeks_before file_size block_size passes
                F64.zero st = (st', Ok tt) /\
      done st' = (done st + left_)%nat /\
      length (per_pass st') = (length (per_pass st) + left_)%nat.
Proof.
  intros (Hseek & Hfull & Hclock) Hb Hfs Hmod.
  induction left_ as [|k IH]; intros fuel st Htot Hleft Hfuel.
  - exists st. rewrite !Nat.add_0_r. repeat split.
    apply pass_loop_stop. unfold continue.
    rewrite (nonneg_not_below_zero _ Htot).
    destruct (Z.ltb_spec (Z.of_nat (done st)) passes); [lia | reflexivity].
  - destruct fuel as [|fuel]; [lia |].
    assert (Hc : continue passes F64.zero st = true).
    { unfold continue.
      destruct (Z.ltb_spec (Z.of_nat (done st)) passes); [reflexivity | lia]. }
    rewrite pass_loop_step by assumption.
    assert (Hq : 0 <= file_size / block_size) by (apply Z.div_pos; lia).
    pose proof (transfer_loop_full (transfer os (done st)) failed block_size
                  (Hfull _) Hb (Z.to_nat (file_size / block_size)) fuel 0%nat
                  ltac:(lia)) as Hloop.
    rewrite Z2Nat.id in Hloop by assumption.
    replace (file_size / block_size * block_size) with file_size in Hloop
      by (apply Z.div_exact in Hmod; lia).
    destruct (throughput_Ok file_size (elapsed_of os (done st)) ltac:(lia))
      as [sample Hsample].
    assert (Hpass : one_pass fuel os failed seeks_before file_size block_size st
              = ({| per_pass := per_pass st ++ [sample];
                    total_elapsed :=
                      F64.add (total_elapsed st) (elapsed_of os (done st));
                    done := S (done st) |}, Ok tt)).
    { unfold one_pass, seq, read, lift, assign, set_pointer, check.
      rewrite Hseek, Hloop. cbn [snd].
      fold (elapsed_of os (done st)). rewrite Hsample. reflexivity. }
    rewrite Hpass.
    set (st1 := {| per_pass := per_pass st ++ [sample];
                   total_elapsed :=
                     F64.add (total_elapsed st) (elapsed_of os (done st));
                   done := S (done st) |}).
    destruct (IH fuel st1) as (st' & Hrun & Hd & Hl).
    + apply add_nonneg; [exact Htot | apply Hclock].
    + cbn [done st1]. lia.
    + lia.
    + exists st'. subst st1. cbn [done per_pass] in *. rewrite length_app in Hl.
      cbn [length] in Hl. repeat split; [exact Hrun | lia | lia].
Qed.

(** Scenario D in general: with [passes] passes asked for and no minimum
    duration, a run in which nothing fails returns exactly [passes]
    samples. *)
Lemma run_write_tests_nominal os file_size block_size (passes fuel : nat) :
  CreateFileW_ok os = true -> SetEndOfFile_ok os = true ->
  VirtualAlloc_ok os = true -> well_behaved os ->
  0 < block_size < 2 ^ 32 -> 0 < file_size < 2 ^ 64 ->
  file_size mod block_size = 0 ->
  (passes + Z.to_nat (file_size / block_size) <= fuel)%nat ->
  exists series,
    run_write_tests fuel os file_size block_size (Z.of_nat passes) F64.zero
      = Ok series /\
    length series = passes.
Proof.
  intros Hopen Heof Halloc Hos Hb Hfs Hmod Hfuel.
  destruct (pass_loop_runs os (write_failed os) 2%nat file_size block_size
              (Z.of_nat passes) Hos Hb Hfs Hmod passes fuel fresh)
    as (st & Hrun & Hd & Hl); [reflexivity | cbn [done fresh]; lia | lia |].
  exists (per_pass st). destruct Hos as (Hseek & _).
  unfold run_write_tests, open_unbuffered, set_file_size, alloc_aligned, check.
  rewrite Hopen, Heof, Halloc, !Hseek. cbn [bind]. rewrite Hrun. cbn [bind].
  split; [reflexivity | exact Hl].
Qed.

(** ** The pass runner *)

(** The total time after [n] passes: the sum, in the order of the passes,
    of the times the clock measured. *)
Lemma cumulative_S (elapsed : nat -> F64.float) (n : nat) :
  fold_left F64.add (map elapsed (List.seq 0 (S n))) F64.zero =
    F64.add (fold_left F64.add (map elapsed (List.seq 0 n)) F64.zero)
            (elapsed n).
Proof.
  rewrite seq_S, map_app, fold_left_app. reflexivity.
Qed.

Lemma cumulative_not_nan (elapsed : nat -> F64.float) :
  (forall p, F64.is_finite (elapsed p) = true) ->
  forall n,
    F64.is_nan (fold_left F64.add (map elapsed (List.seq 0 n)) F64.zero) = false.
Proof.
  intros Hfin. induction n as [|n IH]; [reflexivity |].
  rewrite cumulative_S. apply add_not_nan; auto.
Qed.

(** When the loop returns, the locals tell the history of the run: as
    many samples were collected as passes completed, sample [p] is the
    throughput of pass [p], the total is the sum of the times of the
    passes, every pass was started because a pass or some time was still
    owed, and neither is owed any more. *)
Lemma pass_loop_history os failed seeks_before file_size block_size passes
    min_seconds fuel st :
  pass_loop fuel os failed seeks_before file_size block_size passes min_seconds
            fresh = (st, Ok tt) ->
  let cumulative := fun n =>
    fold_left F64.add (map (elapsed_of os) (List.seq 0 n)) F64.zero in
  length (per_pass st) = done st /\
  total_elapsed st = cumulative (done st) /\
  passes <= Z.of_nat (done st) /\
  F64.ltb (cumulative (done st)) min_seconds = false /\
  (forall k, (k < done st)%nat ->
     Z.of_nat k < passes \/ F64.ltb (cumulative k) min_seconds = true) /\
  (forall p sample, nth_error (per_pass st) p = Some sample ->
     throughput_mb_s file_size (elapsed_of os p) = Ok sample).
Proof.
  intros Hrun cumulative.
  apply (pass_loop_invariant os failed seeks_before file_size block_size passes
           min_seconds
           (fun st =>
              length (per_pass st) = done st /\
              total_elapsed st = cumulative (done st) /\
              (forall k, (k < done st)%nat ->
                 Z.of_nat k < passes \/
                 F64.ltb (cumulative k) min_seconds = true) /\
              (forall p sample, nth_error (per_pass st) p = Some sample ->
                 throughput_mb_s file_size (elapsed_of os p) = Ok sample)))
    in Hrun.
  - destruct Hrun as [(Hlen & Htot & Hhist & Hsamples) Hstop].
    unfold continue in Hstop. apply orb_false_elim in Hstop as [Hdone Htime].
    rewrite Htot in Htime.
    repeat apply conj; try assumption.
    apply Z.ltb_ge. exact Hdone.
  - intros f st0 st1 (Hlen & Htot & Hhist & Hsamples) Hc Hp.
    apply one_pass_Ok in Hp as (sample & _ & _ & Hs & ->).
    cbn [per_pass total_elapsed done]. repeat apply conj.
    + rewrite length_app. cbn [length]. lia.
    + subst cumulative. cbv beta. rewrite cumulative_S, <- Htot. reflexivity.
    + intros k Hk. destruct (Nat.eq_dec k (done st0)) as [-> | Hne].
      * unfold continue in Hc. rewrite Htot in Hc.
        apply orb_true_iff in Hc as [Hc | Hc]; [left | right; exact Hc].
        apply Z.ltb_lt. exact Hc.
      * apply Hhist. lia.
    + intros p x Hnth.
      destruct (Nat.lt_ge_cases p (length (per_pass st0))) as [Hlt | Hge].
      * rewrite nth_error_app1 in Hnth by assumption. exact (Hsamples _ _ Hnth).
      * rewrite nth_error_app2 in Hnth by assumption.
        destruct (p - length (per_pass st0))%nat as [|d] eqn:Hd.
        -- cbn [nth_error] in Hnth. injection Hnth as <-.
           replace p with (done st0) by lia. exact Hs.
        -- destruct d; discriminate.
  - repeat apply conj; try reflexivity.
    + intros k Hk. cbn [done fresh] in Hk. lia.
    + intros [|p] x Hnth; discriminate.
Qed.

(** With a system on which no call fails, the loop makes a pass as long
    as a pass or some time is owed, and returns at the first count at
    which neither is. *)
Lemma pass_loop_reaches os failed seeks_before file_size block_size passes
    min_seconds :
  (forall k, SetFilePointerEx_ok os k = true) ->
  (forall p, completes_fully (transfer os p)) ->
  0 < block_size < 2 ^ 32 -> 0 <= file_size < 2 ^ 64 ->
  let cumulative := fun n =>
    fold_left F64.add (map (elapsed_of os) (List.seq 0 n)) F64.zero in
  forall (left_ fuel : nat) (st : locals),
    total_elapsed st = cumulative (done st) ->
    (forall k, (done st <= k < done st + left_)%nat ->
       Z.of_nat k < passes \/ F64.ltb (cumulative k) min_seconds = true) ->
    passes <= Z.of_nat (done st + left_) ->
    F64.ltb (cumulative (done st + left_)%nat) min_seconds = false ->
    (left_ + Z.to_nat ((file_size + block_size - 1) / block_size) <= fuel)%nat ->
    exists st',
      pass_loop fuel os failed seeks_before file_size block_size passes
                min_seconds st = (st', Ok tt) /\
      done st' = (done st + left_)%nat /\
      length (per_pass st') = (length (per_pass st) + left_)%nat.
Proof.
  intros Hseek Hfull Hb Hfs cumulative.
  induction left_ as [|k IH]; intros fuel st Htot Hhist Hp Ht Hfuel.
  - exists st. rewrite !Nat.add_0_r in *. repeat split.
    apply pass_loop_stop. unfold continue. rewrite Htot, Ht.
    destruct (Z.ltb_spec (Z.of_nat (done st)) passes); [lia | reflexivity].
  - destruct fuel as [|fuel]; [lia |].
    assert (Hc : continue passes min_seconds st = true).
    { unfold continue. rewrite Htot. apply orb_true_iff.
      destruct (Hhist (done st) ltac:(lia)) as [H | H];
        [left; apply Z.ltb_lt; exact H | right; exact H]. }
    rewrite pass_loop_step by assumption.
    pose proof (transfer_loop_any_size (transfer os (done st)) failed file_size
                  block_size (Hfull _) Hb ltac:(lia) fuel 0%nat ltac:(lia))
      as Hloop.
    destruct (throughput_Ok file_size (elapsed_of os (done st)) Hfs)
      as [sample Hsample].
    assert (Hpass : one_pass fuel os failed seeks_before file_size block_size st
              = ({| per_pass := per_pass st ++ [sample];
                    total_elapsed :=
                      F64.add (total_elapsed st) (elapsed_of os (done st));
                    done := S (done st) |}, Ok tt)).
    { unfold one_pass, seq, read, lift, assign, set_pointer, check.
      rewrite Hseek, Hloop. cbn [snd].
      fold (elapsed_of os (done st)). rewrite Hsample. reflexivity. }
    rewrite Hpass.
    set (st1 := {| per_pass := per_pass st ++ [sample];
                   total_elapsed :=
                     F64.add (total_elapsed st) (elapsed_of os (done st));
                   done := S (done st) |}).
    destruct (IH fuel st1) as (st' & Hrun & Hd & Hl).
    + subst st1 cumulative. cbn [total_elapsed done].
      rewrite cumulative_S, <- Htot. reflexivity.
    + intros j Hj. apply Hhist. cbn [done st1] in Hj. lia.
    + cbn [done st1]. replace (S (done st) + k)%nat with (done st + S k)%nat
        by lia. exact Hp.
    + cbn [done st1]. replace (S (done st) + k)%nat with (done st + S k)%nat
        by lia. exact Ht.
    + lia.
    + exists st'. subst st1. cbn [done per_pass] in *. rewrite length_app in Hl.
      cbn [length] in Hl. repeat split; [exact Hrun | lia | lia].
Qed.

(** C2: when a run of write passes or of read passes returns a series of
    [n] samples, [n] passes were completed and [n] is at least [passes];
    the cumulative elapsed time, the sum of the [n] differences of clock
    readings in the order of the passes, is the total the loop kept, is
    not below [min_seconds], and is at least [min_seconds] when the times
    are finite; each pass was started because fewer than [passes] passes
    were completed or the time of the passes before it was below
    [min_seconds], so that [n] is the first count at which both conditions
    are false; and sample [p] is the throughput of pass [p].  Conversely,
    when no call fails, both tests return a series of [n] samples for the
    first such count [n]. *)
Theorem pass_runner_returns
    (fuel : nat) (os : OS) (file_size block_size passes : Z)
    (min_seconds : F64.float) :
  let elapsed := fun p =>
    F64.sub (perf_counter os (2 * p + 1)%nat) (perf_counter os (2 * p)%nat) in
  let cumulative := fun n =>
    fold_left F64.add (map elapsed (List.seq 0 n)) F64.zero in
  (forall series,
     run_write_tests fuel os file_size block_size passes min_seconds = Ok series \/
     run_read_tests fuel os file_size block_size passes min_seconds = Ok series ->
     let n := length series in
     (exists failed seeks_before st,
        (failed = write_failed os /\ seeks_before = 2%nat \/
         failed = read_failed os /\ seeks_before = 0%nat) /\
        pass_loop fuel os failed seeks_before file_size block_size passes
                  min_seconds fresh = (st, Ok tt) /\
        series = per_pass st /\ done st = n /\
        total_elapsed st = cumulative n) /\
     passes <= Z.of_nat n /\
     F64.ltb (cumulative n) min_seconds = false /\
     (F64.is_nan min_seconds = false ->
      (forall p, F64.is_finite (elapsed p) = true) ->
      F64.leb min_seconds (cumulative n) = true) /\
     (forall k, (k < n)%nat ->
        Z.of_nat k < passes \/ F64.ltb (cumulative k) min_seconds = true) /\
     (forall p sample, nth_error series p = Some sample ->
        throughput_mb_s file_size (elapsed p) = Ok sample)) /\
  (CreateFileW_ok os = true -> SetEndOfFile_ok os = true ->
   VirtualAlloc_ok os = true ->
   (forall k, SetFilePointerEx_ok os k = true) ->
   (forall p, completes_fully (transfer os p)) ->
   0 < block_size < 2 ^ 32 -> 0 <= file_size < 2 ^ 64 ->
   forall n : nat,
     (forall k, (k < n)%nat ->
        Z.of_nat k < passes \/ F64.ltb (cumulative k) min_seconds = true) ->
     passes <= Z.of_nat n ->
     F64.ltb (cumulative n) min_seconds = false ->
     (n + Z.to_nat ((file_size + block_size - 1) / block_size) <= fuel)%nat ->
     exists written read,
       run_write_tests fuel os file_size block_size passes min_seconds
         = Ok written /\
       run_read_tests fuel os file_size block_size passes min_seconds
         = Ok read /\
       length written = n /\ length read = n).
Proof.
  intros elapsed cumulative. split.
  - intros series Hrun n.
    assert (Hloop : exists failed seeks_before st,
              (failed = write_failed os /\ seeks_before = 2%nat \/
               failed = read_failed os /\ seeks_before = 0%nat) /\
              pass_loop fuel os failed seeks_before file_size block_size passes
                        min_seconds fresh = (st, Ok tt) /\
              series = per_pass st).
    { destruct Hrun as [Hrun | Hrun];
        [apply run_write_tests_Ok in Hrun as (st & Hl & ->);
         exists (write_failed os), 2%nat, st
        |apply run_read_tests_Ok in Hrun as (st & Hl & ->);
         exists (read_failed os), 0%nat, st]; auto. }
    destruct Hloop as (failed & sb & st & Hwhich & Hl & Hseries).
    destruct (pass_loop_history _ _ _ _ _ _ _ _ _ Hl)
      as (Hlen & Htot & Hp & Ht & Hhist & Hsamples).
    change (elapsed_of os) with elapsed in Htot, Ht, Hhist, Hsamples.
    fold cumulative in Htot, Ht, Hhist.
    assert (Hn : done st = n) by (subst n; rewrite Hseries; auto).
    rewrite Hn in *.
    repeat apply conj; try assumption.
    + exists failed, sb, st. repeat apply conj; auto.
    + intros Hmin Hfin. apply not_ltb_leb; try assumption.
      apply cumulative_not_nan. exact Hfin.
    + intros p x Hnth. rewrite Hseries in Hnth. exact (Hsamples _ _ Hnth).
  - intros Hopen Heof Halloc Hseek Hfull Hb Hfs n Hhist Hp Ht Hfuel.
    assert (Hloop : forall failed sb,
      exists st,
        pass_loop fuel os failed sb file_size block_size passes min_seconds
                  fresh = (st, Ok tt) /\
        length (per_pass st) = n).
    { intros failed sb.
      destruct (pass_loop_reaches os failed sb file_size block_size passes
                  min_seconds Hseek Hfull Hb Hfs n fuel fresh)
        as (st & Hrun & _ & Hl); try assumption.
      - reflexivity.
      - intros k Hk. apply Hhist. cbn [done fresh] in Hk. lia.
      - exists st. split; [exact Hrun | exact Hl]. }
    destruct (Hloop (write_failed os) 2%nat) as (stw & Hw & Hlw).
    destruct (Hloop (read_failed os) 0%nat) as (str & Hr & Hlr).
    exists (per_pass stw), (per_pass str).
    unfold run_write_tests, run_read_tests, open_unbuffered, set_file_size,
      alloc_aligned, check.
    rewrite Hopen, Heof, Halloc, !Hseek. cbn [bind]. rewrite Hw, Hr.
    cbn [bind]. repeat split; assumption.
Qed.

Lemma pass_runner_returns_witness :
  let sample := S754_finite false 4503599627370496 (-60) in
  let min_seconds := S754_finite false 5629499534213120 (-51) in
  let elapsed := fun p =>
    F64.sub (perf_counter steady_os (2 * p + 1)%nat)
            (perf_counter steady_os (2 * p)%nat) in
  let cumulative := fun n =>
    fold_left F64.add (map elapsed (List.seq 0 n)) F64.zero in
  run_write_tests 12 steady_os 4096 1024 1 min_seconds
    = Ok [sample; sample; sample] /\
  cumulative 2%nat = S754_finite false 4503599627370496 (-51) /\
  cumulative 3%nat = S754_finite false 6755399441055744 (-51) /\
  1 <= Z.of_nat 3 /\
  F64.ltb (cumulative 3%nat) min_seconds = false /\
  (forall k, (k < 3)%nat ->
     Z.of_nat k < 1 \/ F64.ltb (cumulative k) min_seconds = true) /\
  exists written read,
    run_write_tests 12 steady_os 4096 1024 1 min_seconds = Ok written /\
    run_read_tests 12 steady_os 4096 1024 1 min_seconds = Ok read /\
    length written = 3%nat /\ length read = 3%nat.
Proof.
  intros sample min_seconds elapsed cumulative.
  assert (Hrun : run_write_tests 12 steady_os 4096 1024 1 min_seconds
                 = Ok [sample; sample; sample]) by (vm_compute; reflexivity).
  split; [exact Hrun |].
  split; [vm_compute; reflexivity |].
  split; [vm_compute; reflexivity |].
  pose proof (proj1 (pass_runner_returns 12 steady_os 4096 1024 1 min_seconds)
                [sample; sample; sample] (or_introl Hrun))
    as (_ & Hp & Ht & _ & Hhist & _).
  split; [exact Hp |]. split; [exact Ht |]. split; [exact Hhist |].
  apply (proj2 (pass_runner_returns 12 steady_os 4096 1024 1 min_seconds));
    try reflexivity; try assumption; try lia.
  - intros p k count. split; reflexivity.
  - vm_compute. repeat constructor.
Defined.

(** ** Minimum and maximum *)

Lemma min_fold (rest : list F64.float) :
  forall cur, no_nan (cur :: rest) ->
  let r := fold_left (fun cur item => if F64.ltb item cur then item else cur)
                     rest cur in
  In r (cur :: rest) /\ forall v, In v (cur :: rest) -> F64.leb r v = true.
Proof.
  induction rest as [|item rest IH]; intros cur Hnan.
  - cbn [fold_left]. split; [left; reflexivity |].
    intros v [<- | []]. apply leb_refl. inversion Hnan; assumption.
  - cbn [fold_left].
    inversion Hnan as [|? ? Hcur Hrest]; subst.
    inversion Hrest as [|? ? Hitem Hrest']; subst.
    set (c' := if F64.ltb item cur then item else cur).
    assert (Hc' : F64.is_nan c' = false)
      by (subst c'; destruct (F64.ltb item cur); assumption).
    assert (Hle : F64.leb c' cur = true /\ F64.leb c' item = true).
    { subst c'. destruct (F64.ltb item cur) eqn:Hlt; split.
      - apply ltb_leb; assumption.
      - apply leb_refl; assumption.
      - apply leb_refl; assumption.
      - apply not_ltb_leb; assumption. }
    destruct (IH c' (Forall_cons _ Hc' Hrest')) as [Hin Hmin].
    assert (Hr : F64.is_nan (fold_left
                  (fun cur item => if F64.ltb item cur then item else cur)
                  rest c') = false).
    { destruct Hin as [<- | Hin]; [assumption |].
      eapply Forall_forall in Hrest'; eassumption. }
    split.
    + destruct Hin as [<- | Hin].
      * subst c'. destruct (F64.ltb item cur); [right; left | left]; reflexivity.
      * right; right; assumption.
    + intros v [<- | [<- | Hv]].
      * apply leb_trans with (y := c'); try assumption;
          [apply Hmin; left; reflexivity | apply Hle].
      * apply leb_trans with (y := c'); try assumption;
          [apply Hmin; left; reflexivity | apply Hle].
      * apply Hmin. right. assumption.
Qed.

Lemma max_fold (rest : list F64.float) :
  forall cur, no_nan (cur :: rest) ->
  let r := fold_left (fun cur item => if F64.ltb cur item then item else cur)
                     rest cur in
  In r (cur :: rest) /\ forall v, In v (cur :: rest) -> F64.leb v r = true.
Proof.
  induction rest as [|item rest IH]; intros cur Hnan.
  - cbn [fold_left]. split; [left; reflexivity |].
    intros v [<- | []]. apply leb_refl. inversion Hnan; assumption.
  - cbn [fold_left].
    inversion Hnan as [|? ? Hcur Hrest]; subst.
    inversion Hrest as [|? ? Hitem Hrest']; subst.
    set (c' := if F64.ltb cur item then item else cur).
    assert (Hc' : F64.is_nan c' = false)
      by (subst c'; destruct (F64.ltb cur item); assumption).
    assert (Hle : F64.leb cur c' = true /\ F64.leb item c' = true).
    { subst c'. destruct (F64.ltb cur item) eqn:Hlt; split.
      - apply ltb_leb; assumption.
      - apply leb_refl; assumption.
      - apply leb_refl; assumption.
      - apply not_ltb_leb; assumption. }
    destruct (IH c' (Forall_cons _ Hc' Hrest')) as [Hin Hmax].
    assert (Hr : F64.is_nan (fold_left
                  (fun cur item => if F64.ltb cur item then item else cur)
                  rest c') = false).
    { destruct Hin as [<- | Hin]; [assumption |].
      eapply Forall_forall in Hrest'; eassumption. }
    split.
    + destruct Hin as [<- | Hin].
      * subst c'. destruct (F64.ltb cur item); [right; left | left]; reflexivity.
      * right; right; assumption.
    + intros v [<- | [<- | Hv]].
      * apply leb_trans with (y := c'); try assumption;
          [apply Hle | apply Hmax; left; reflexivity].
      * apply leb_trans with (y := c'); try assumption;
          [apply Hle | apply Hmax; left; reflexivity].
      * apply Hmax. right. assumption.
Qed.

(** ** The summary *)



(** The minimum and the maximum of a summary are samples, below and
    above every sample. *)
Lemma summarize_extrema (values : list F64.float) (r : report) :
  values <> [] -> no_nan values -> summarize values = Ok r ->
  (In (vmin r) values /\ forall v, In v values -> F64.leb (vmin r) v = true) /\
  (In (vmax r) values /\ forall v, In v values -> F64.leb v (vmax r) = true).
Proof.
  intros Hne Hnan Hsum.
  destruct values as [|x rest]; [contradiction |].
  unfold summarize in Hsum. cbn [F64.min_ F64.max_ bind] in Hsum.
  apply bind_Ok in Hsum as (avg & _ & [= <-]). cbn [vmin vmax].
  split; [apply (min_fold rest x Hnan) | apply (max_fold rest x Hnan)].
Qed.





(** ** [main] *)

Lemma nonneg_no_nan (values : list F64.float) :
  Forall (fun v => F64.leb F64.zero v = true) values -> no_nan values.
Proof.
  apply Forall_impl. intros v Hv. apply leb_zero_iff in Hv. apply Hv.
Qed.



(** X2: what [main] reports for a positive sector size and [--block-kb]
    are numbers that are not negative, with the minimum at most the
    maximum, for the write passes and for the read passes. *)
Theorem main_reports (fuel : nat) (args : Args) (sector_size free_bytes : Z)
    (os_write os_read : OS) (w r : report) :
  0 < sector_size -> 0 < block_kb args ->
  main fuel args sector_size free_bytes os_write os_read = Ok (w, r) ->
  (F64.leb F64.zero (vmin w) = true /\ F64.leb (vmin w) (vmax w) = true) /\
  (F64.leb F64.zero (vmin r) = true /\ F64.leb (vmin r) (vmax r) = true).
Proof.
  intros Hs Hb Hmain. unfold main in Hmain.
  apply bind_Ok in Hmain as ([file_size block_size] & Hplan & Hmain).
  apply bind_Ok in Hmain as (w_passes & Hw & Hmain).
  apply bind_Ok in Hmain as (r_passes & Hr & Hmain).
  apply bind_Ok in Hmain as (w' & Hsw & Hmain).
  apply bind_Ok in Hmain as (r' & Hsr & [= <- <-]).
  apply plan_invariants_but_alignment in Hplan as (_ & _ & _ & _ & Hfs & _);
    try assumption.
  assert (Hrep : forall series rep,
    Forall (fun v => F64.leb F64.zero v = true) series ->
    summarize series = Ok rep ->
    F64.leb F64.zero (vmin rep) = true /\ F64.leb (vmin rep) (vmax rep) = true).
  { intros series rep Hnn Hsum.
    assert (Hne : series <> []) by (intros ->; discriminate).
    destruct (summarize_extrema series rep Hne (nonneg_no_nan _ Hnn) Hsum)
      as ((Hin & Hlow) & (Hax & _)).
    split; [| apply Hlow; exact Hax].
    eapply Forall_forall in Hnn; eassumption. }
  split.
  - apply (Hrep w_passes); [| exact Hsw].
    eapply series_nonneg; [| left; exact Hw]. lia.
  - apply (Hrep r_passes); [| exact Hsr].
    eapply series_nonneg; [| right; exact Hr]. lia.
Qed.

Lemma main_reports_witness :
  let args := {| size_mb := 1024; size_kb := None; size_bytes := Some 4096;
                 block_kb := 1; keep := false; no_autofit := false;
                 passes := 3; min_seconds := F64.zero |} in
  let rep := {| vmin := S754_finite false 8006399337547548 (-64);
                vavg := S754_finite false 7872959348588423 (-62);
                vmax := S754_finite false 4503599627370496 (-60) |} in
  (0 < 512 /\ 0 < block_kb args /\
   main 10 args 512 1000000 slowing_os slowing_os = Ok (rep, rep)) /\
  (F64.leb F64.zero (vmin rep) = true /\ F64.leb (vmin rep) (vmax rep) = true) /\
  (F64.leb F64.zero (vmin rep) = true /\ F64.leb (vmin rep) (vmax rep) = true).
Proof.
  intros args rep.
  assert (Hmain : main 10 args 512 1000000 slowing_os slowing_os = Ok (rep, rep))
    by (vm_compute; reflexivity).
  split; [repeat apply conj; first [exact Hmain | cbn [block_kb args]; lia] |].
  apply (main_reports 10 args 512 1000000 slowing_os slowing_os rep rep);
    first [exact Hmain | cbn [block_kb args]; lia].
Defined.

(** * More of the program *)

(** ** The two alignments together *)

(** X3: on a zero multiple both alignments raise; on a positive multiple
    [m] they return the multiples of [m] just below and just above [x]:
    both are [x] when [x] is a multiple, they are [m] apart when it is not,
    and aligning an aligned value again changes nothing. *)
Theorem align_down_up (x m : Z) :
  (align_down x 0 = Raise ZeroDivisionError /\
   align_up x 0 = Raise ZeroDivisionError) /\
  (0 < m ->
   exists d u,
     align_down x m = Ok d /\ align_up x m = Ok u /\
     d mod m = 0 /\ u mod m = 0 /\
     d <= x <= u /\ x - m < d /\ u < x + m /\
     (x mod m = 0 -> d = x /\ u = x) /\
     (x mod m <> 0 -> u = d + m) /\
     align_down d m = Ok d /\ align_up d m = Ok d /\
     align_down u m = Ok u /\ align_up u m = Ok u).
Proof.
  split; [split; reflexivity |].
  intros Hm.
  exists (x / m * m), ((x + m - 1) / m * m).
  pose proof (align_down_bounds m Hm x) as [Hd Hdm].
  pose proof (align_up_bounds m Hm x) as [Hu Hum].
  pose proof (Z.div_mod x m ltac:(lia)) as Hx.
  assert (Hfix : forall a, a mod m = 0 ->
            align_down a m = Ok a /\ align_up a m = Ok a).
  { intros a Ha. rewrite align_down_pos, align_up_pos by assumption.
    rewrite align_up_step, Ha by assumption. cbn [Z.eqb].
    apply Z.div_exact in Ha; [| lia].
    split; f_equal; lia. }
  repeat apply conj; try apply align_down_pos; try apply align_up_pos;
    try assumption; try lia; try (apply Hfix; assumption).
  - intros H0. rewrite align_up_step, H0 by assumption. cbn [Z.eqb]. lia.
  - intros Hn. rewrite align_up_step by assumption.
    destruct (Z.eqb_spec (x mod m) 0); [contradiction | lia].
Qed.

Lemma align_down_up_witness :
  0 < 512 /\
  exists d u,
    align_down 800000 512 = Ok d /\ align_up 800000 512 = Ok u /\
    d mod 512 = 0 /\ u mod 512 = 0 /\
    d <= 800000 <= u /\ 800000 - 512 < d /\ u < 800000 + 512 /\
    (800000 mod 512 = 0 -> d = 800000 /\ u = 800000) /\
    (800000 mod 512 <> 0 -> u = d + 512) /\
    align_down d 512 = Ok d /\ align_up d 512 = Ok d /\
    align_down u 512 = Ok u /\ align_up u 512 = Ok u.
Proof.
  split; [lia |].
  apply (align_down_up 800000 512). lia.
Defined.

(** ** The plan, for a positive sector size and block *)

(** The block fit in closed form: the block is the smaller of the aligned
    request and the clamped file size, the file the largest whole number
    of such blocks within the clamped file size. *)
Lemma fit_blocks_shape (file_size sector_size block_kb : Z) :
  0 < sector_size -> 0 < block_kb ->
  let F := Z.max file_size sector_size in
  let B := (block_kb * 1024 + sector_size - 1) / sector_size * sector_size in
  fit_blocks file_size sector_size block_kb
    = Ok (F / Z.min B F * Z.min B F, Z.min B F) /\
  block_kb * 1024 <= B < block_kb * 1024 + sector_size /\
  B mod sector_size = 0 /\ sector_size <= B /\
  0 < Z.min B F <= F / Z.min B F * Z.min B F.
Proof.
  intros Hs Hb F B.
  pose proof (align_up_bounds sector_size Hs (block_kb * 1024)) as [HB HBm].
  fold B in HB, HBm.
  assert (HBs : sector_size <= B).
  { apply Z.mod_divide in HBm; [| lia]. destruct HBm as [c Hc].
    assert (0 < c) by nia. nia. }
  assert (Hmin : 0 < Z.min B F <= F) by lia.
  assert (Hq : 1 <= F / Z.min B F) by (apply Z.div_le_lower_bound; lia).
  assert (Hfs : Z.min B F <= F / Z.min B F * Z.min B F) by nia.
  repeat apply conj; try lia.
  unfold fit_blocks. unfold_py.
  destruct (Z.eqb_spec sector_size 0) as [? | _]; [lia |].
  replace (if file_size <? sector_size then sector_size else file_size) with F
    by (subst F; destruct (Z.ltb_spec file_size sector_size); lia).
  assert (Hb1 : (if negb ((block_kb * 1024) mod sector_size =? 0)
                 then Ok ((block_kb * 1024 + sector_size - 1) / sector_size
                          * sector_size)
                 else Ok (block_kb * 1024)) = Ok B).
  { destruct (Z.eqb_spec ((block_kb * 1024) mod sector_size) 0) as [E | E];
      cbn [negb]; [| reflexivity].
    f_equal. subst B. rewrite align_up_step, E by assumption. cbn [Z.eqb].
    apply Z.div_exact in E; lia. }
  rewrite Hb1. cbv beta iota.
  replace (if B >? F then F else B) with (Z.min B F)
    by (destruct (Z.gtb_spec B F); lia).
  destruct (Z.eqb_spec (Z.min B F) 0); [lia |].
  destruct (Z.eqb_spec (F / Z.min B F * Z.min B F) 0); [lia |].
  reflexivity.
Qed.

Lemma fit_to_max_le (requested max_bytes : Z) :
  fit_to_max requested false max_bytes <= Z.max max_bytes requested /\
  (0 <= max_bytes -> fit_to_max requested false max_bytes <= max_bytes).
Proof.
  unfold fit_to_max. cbn [negb andb].
  destruct (Z.eqb_spec requested 0); cbn [orb]; [lia |].
  destruct (Z.gtb_spec requested max_bytes); lia.
Qed.

(** X4: on a volume of positive sector size, with a positive [--block-kb]
    and unless the request exceeds the free bytes with autofit off, the
    plan is always made; the block is at least one sector and at most the
    file, the file is a whole number of blocks within the clamped request,
    less than one block short of it. *)
Theorem plan_made
    (requested : Z) (no_autofit : bool) (free_bytes sector_size block_kb : Z) :
  0 <= free_bytes < 2 ^ 64 -> 0 < sector_size -> 0 < block_kb ->
  ~ (no_autofit = true /\ requested > free_bytes) ->
  exists max_bytes fs bs,
    max_bytes_of requested no_autofit free_bytes sector_size = Ok max_bytes /\
    plan requested no_autofit free_bytes sector_size block_kb = Ok (fs, bs) /\
    let clamped := Z.max (fit_to_max requested no_autofit max_bytes) sector_size in
    sector_size <= bs /\ bs <= fs /\ fs mod bs = 0 /\
    clamped - bs < fs <= clamped /\
    bs < block_kb * 1024 + sector_size.
Proof.
  intros Hf Hs Hb Hexit.
  assert (Hmb : exists max_bytes,
            max_bytes_of requested no_autofit free_bytes sector_size
              = Ok max_bytes).
  { unfold max_bytes_of. destruct no_autofit; cbn [negb]; [eauto |].
    rewrite scaled_free_headroom by assumption. cbn [bind].
    rewrite align_down_pos by assumption. eauto. }
  destruct Hmb as [max_bytes Hmb]. exists max_bytes.
  destruct (fit_blocks_shape (fit_to_max requested no_autofit max_bytes)
              sector_size block_kb Hs Hb) as (Hfit & HB & HBm & HBs & Hmin).
  set (F := Z.max (fit_to_max requested no_autofit max_bytes) sector_size) in *.
  set (B := (block_kb * 1024 + sector_size - 1) / sector_size * sector_size) in *.
  exists (F / Z.min B F * Z.min B F), (Z.min B F).
  pose proof (align_down_bounds (Z.min B F) ltac:(lia) F) as [Hbd Hmod].
  repeat apply conj; try assumption; try lia.
  unfold plan. rewrite Hmb. cbn [bind].
  replace (negb ((requested >? free_bytes) && no_autofit)) with true.
  - cbn [check bind]. exact Hfit.
  - destruct no_autofit; [| rewrite andb_false_r; reflexivity].
    rewrite andb_true_r.
    destruct (Z.gtb_spec requested free_bytes); [| reflexivity].
    exfalso. apply Hexit. split; [reflexivity | lia].
Qed.

Lemma plan_made_witness :
  (0 <= 10000 < 2 ^ 64 /\ 0 < 512 /\ 0 < 1 /\
   ~ (false = true /\ 3000 > 10000)) /\
  exists max_bytes fs bs,
    max_bytes_of 3000 false 10000 512 = Ok max_bytes /\
    plan 3000 false 10000 512 1 = Ok (fs, bs) /\
    let clamped := Z.max (fit_to_max 3000 false max_bytes) 512 in
    512 <= bs /\ bs <= fs /\ fs mod bs = 0 /\
    clamped - bs < fs <= clamped /\
    bs < 1 * 1024 + 512.
Proof.
  split; [repeat split; lia |].
  apply (plan_made 3000 false 10000 512 1); lia.
Defined.

(** The block fit raises exactly when the sector size is zero or the
    block, aligned up, is zero. *)
Lemma fit_blocks_raises_iff (file_size sector_size block_kb : Z) :
  0 <= sector_size ->
  (exists e, fit_blocks file_size sector_size block_kb = Raise e) <->
  sector_size = 0 \/ - sector_size < block_kb * 1024 <= 0.
Proof.
  intros Hs0. unfold fit_blocks. unfold_py.
  destruct (Z.eqb_spec sector_size 0) as [-> | Hnz].
  { split; [auto | eauto]. }
  assert (Hs : 0 < sector_size) by lia.
  set (b := block_kb * 1024).
  set (F := if file_size <? sector_size then sector_size else file_size).
  assert (HF : 0 < F) by (subst F; destruct (Z.ltb_spec file_size sector_size); lia).
  pose proof (align_up_bounds sector_size Hs b) as [HB HBm].
  assert (HB1 : exists B,
            (if negb (b mod sector_size =? 0)
             then Ok ((b + sector_size - 1) / sector_size * sector_size)
             else Ok b) = Ok B /\
            b <= B < b + sector_size /\ B mod sector_size = 0).
  { destruct (Z.eqb_spec (b mod sector_size) 0) as [E | E]; cbn [negb].
    - exists b. repeat apply conj; try lia; reflexivity.
    - eexists. repeat apply conj; try reflexivity; lia. }
  destruct HB1 as (B & -> & HBb & HBmod). cbv beta iota.
  assert (HB0 : B = 0 <-> - sector_size < b <= 0).
  { split; [lia |]. intros Hb.
    apply Z.mod_divide in HBmod; [| lia]. destruct HBmod as [c ->].
    assert (-1 < c) by nia. assert (c < 1) by nia.
    replace c with 0 by lia. reflexivity. }
  set (b2 := if B >? F then F else B).
  assert (Hb2 : b2 = 0 <-> B = 0) by (subst b2; destruct (Z.gtb_spec B F); lia).
  destruct (Z.eqb_spec b2 0) as [E | E].
  - split; [intros _; right; tauto | eauto].
  - split; [intros [e He]; discriminate | intros [? | ?]; [lia | tauto]].
Qed.

(** X5: for free bytes and a sector size as the volume queries return
    them, the plan raises exactly in two cases: the exit for lack of space,
    when autofit is off and the request exceeds the free bytes, and
    otherwise a division by zero, when the sector size is zero or the block
    of [--block-kb], aligned up to the sector, is zero.  A negative
    [--block-kb] of a sector or more is accepted. *)
Theorem plan_raises_iff
    (requested : Z) (no_autofit : bool) (free_bytes sector_size block_kb : Z)
    (e : exn) :
  0 <= free_bytes < 2 ^ 64 -> 0 <= sector_size ->
  plan requested no_autofit free_bytes sector_size block_kb = Raise e <->
  (no_autofit = true /\ requested > free_bytes /\
   e = SystemExit requested free_bytes) \/
  (~ (no_autofit = true /\ requested > free_bytes) /\
   (sector_size = 0 \/ - sector_size < block_kb * 1024 <= 0) /\
   e = ZeroDivisionError).
Proof.
  intros Hf Hs.
  assert (Hfit : forall f,
    fit_blocks f sector_size block_kb = Raise e <->
    (sector_size = 0 \/ - sector_size < block_kb * 1024 <= 0) /\
    e = ZeroDivisionError).
  { intros f. pose proof (fit_blocks_raises_iff f sector_size block_kb Hs) as Hiff.
    split.
    - intros H. split; [apply Hiff; eauto | exact (fit_blocks_raises _ _ _ _ H)].
    - intros [Hc ->]. apply Hiff in Hc as [e' He'].
      rewrite He'. f_equal. exact (fit_blocks_raises _ _ _ _ He'). }
  destruct no_autofit.
  - rewrite plan_no_autofit.
    destruct (Z.gtb_spec requested free_bytes) as [Hgt | Hle].
    + split.
      * intros [= <-]. left. repeat split. lia.
      * intros [(_ & _ & ->) | (Hn & _)]; [reflexivity |].
        exfalso. apply Hn. split; [reflexivity | lia].
    + rewrite Hfit. split.
      * intros H. right. split; [| exact H]. intros [_ ?]. lia.
      * intros [(_ & ? & _) | (_ & H)]; [lia | exact H].
  - assert (Hno : ~ (false = true /\ requested > free_bytes))
      by (intros [? _]; discriminate).
    destruct (Z.eq_dec sector_size 0) as [-> | Hnz].
    + unfold plan, max_bytes_of. cbn [negb].
      rewrite scaled_free_headroom by assumption. cbn [bind].
      unfold align_down, Py.floordiv. cbn [Z.eqb bind]. split.
      * intros [= <-]. right. auto.
      * intros [(? & _) | (_ & _ & ->)]; [discriminate | reflexivity].
    + rewrite plan_autofit by lia. rewrite Hfit. split.
      * intros H. right. split; [exact Hno | exact H].
      * intros [(? & _) | (_ & H)]; [discriminate | exact H].
Qed.

Lemma plan_raises_iff_witness :
  (0 <= 1000000 < 2 ^ 64 /\ 0 <= 4096) /\
  (plan 8192 false 1000000 4096 (-1) = Raise ZeroDivisionError <->
   (false = true /\ 8192 > 1000000 /\
    ZeroDivisionError = SystemExit 8192 1000000) \/
   (~ (false = true /\ 8192 > 1000000) /\
    (4096 = 0 \/ - 4096 < -1 * 1024 <= 0) /\
    ZeroDivisionError = ZeroDivisionError)).
Proof.
  split; [lia |].
  apply (plan_raises_iff 8192 false 1000000 4096 (-1) ZeroDivisionError); lia.
Defined.

(** X6: a request that is a whole number of blocks, for a block that is a
    whole number of sectors, and that is within the bytes the plan allows,
    is honoured as it stands. *)
Theorem plan_honours_request
    (requested : Z) (no_autofit : bool)
    (free_bytes sector_size block_kb max_bytes k : Z) :
  0 < sector_size -> 0 < block_kb ->
  (block_kb * 1024) mod sector_size = 0 ->
  0 < k -> requested = k * (block_kb * 1024) ->
  max_bytes_of requested no_autofit free_bytes sector_size = Ok max_bytes ->
  requested <= max_bytes -> requested <= free_bytes ->
  plan requested no_autofit free_bytes sector_size block_kb
    = Ok (requested, block_kb * 1024).
Proof.
  intros Hs Hb Hbm Hk Hreq Hmb Hle Hfree.
  destruct (fit_blocks_shape requested sector_size block_kb Hs Hb)
    as (Hfit & HB & HBm & HBs & _).
  set (b := block_kb * 1024) in *.
  set (B := (b + sector_size - 1) / sector_size * sector_size) in *.
  assert (HBb : B = b).
  { apply Z.mod_divide in HBm; [| lia]. apply Z.mod_divide in Hbm; [| lia].
    destruct HBm as [c Hc], Hbm as [d Hd].
    assert (c - d < 1) by nia. assert (-1 < c - d) by nia.
    replace c with d in Hc by lia. lia. }
  assert (Hrb : b <= requested) by nia.
  unfold plan. rewrite Hmb. cbn [bind].
  replace (requested >? free_bytes) with false
    by (destruct (Z.gtb_spec requested free_bytes); [lia | reflexivity]).
  cbn [andb negb check bind].
  assert (Hfm : fit_to_max requested no_autofit max_bytes = requested).
  { unfold fit_to_max.
    destruct (Z.eqb_spec requested 0); [lia |].
    destruct (Z.gtb_spec requested max_bytes); [lia |].
    rewrite andb_false_r. reflexivity. }
  rewrite Hfm, Hfit, HBb.
  rewrite (Z.max_l requested sector_size), (Z.min_l b requested) by lia.
  rewrite Hreq, Z.div_mul by lia. reflexivity.
Qed.

Lemma plan_honours_request_witness :
  (0 < 512 /\ 0 < 64 /\ (64 * 1024) mod 512 = 0 /\ 0 < 3 /\
   196608 = 3 * (64 * 1024) /\
   max_bytes_of 196608 false 1000000 512 = Ok 799744 /\
   196608 <= 799744 /\ 196608 <= 1000000) /\
  plan 196608 false 1000000 512 64 = Ok (196608, 64 * 1024).
Proof.
  assert (Hmb : max_bytes_of 196608 false 1000000 512 = Ok 799744)
    by (vm_compute; reflexivity).
  split; [repeat apply conj; try lia; try reflexivity; exact Hmb |].
  apply (plan_honours_request 196608 false 1000000 512 64 799744 3);
    try lia; try reflexivity; exact Hmb.
Defined.

(** A rounding to 53 bits adds at most one part in [2^53]. *)
Lemma rne_upper (n : Z) : 0 <= n -> 2 ^ 53 * F64.rne n <= (2 ^ 53 + 1) * n.
Proof.
  intros Hn. destruct (Z.eq_dec n 0) as [-> | Hnz]; [rewrite rne_0; lia |].
  destruct (Z.le_gt_cases (Z.log2 n + 1 - 53) 0) as [Hs | Hs].
  - rewrite rne_small by lia. lia.
  - destruct (rne_cases n ltac:(lia) ltac:(lia))
      as (Hdm & Hr & Hq & Hhalf & Hh & Hcase).
    set (s := Z.log2 n + 1 - 53) in *.
    set (q := n / 2 ^ s) in *. set (r := n mod 2 ^ s) in *.
    set (h := 2 ^ (s - 1)) in *. set (p := 2 ^ s) in *.
    assert (Hqp : 2 ^ 52 * p <= q * p) by nia.
    destruct Hcase as [[-> _] | [-> Hup]]; nia.
Qed.

(** The headroom is at most 80.1 per cent of the free bytes. *)
Lemma headroom_le (free_bytes : Z) :
  0 <= free_bytes -> 1000 * headroom free_bytes <= 801 * free_bytes.
Proof.
  intros Hf. unfold headroom.
  set (R := F64.rne free_bytes).
  assert (HR0 : 0 <= R).
  { subst R. change 0 with (F64.rne 0) at 1. apply rne_mono. lia. }
  pose proof (rne_upper free_bytes Hf) as HR. fold R in HR.
  set (P := R * 7205759403792794).
  pose proof (rne_upper P ltac:(subst P; lia)) as HV.
  set (V := F64.rne P) in *.
  pose proof (Z.mul_div_le V (2 ^ 53) ltac:(lia)) as HH.
  set (H := V / 2 ^ 53) in *.
  subst P. lia.
Qed.

(** X7: with autofit and a positive [--block-kb], the planned file is at
    most the larger of one sector and the headroom, the headroom is at most
    80.1 per cent of the free bytes, and so the file fits in the free bytes
    of a volume that has a sector free. *)
Theorem autofit_fits_free_space
    (requested free_bytes sector_size block_kb fs bs : Z) :
  0 <= free_bytes < 2 ^ 64 -> 0 < sector_size -> 0 < block_kb ->
  plan requested false free_bytes sector_size block_kb = Ok (fs, bs) ->
  fs <= Z.max sector_size (headroom free_bytes) /\
  1000 * headroom free_bytes <= 801 * free_bytes /\
  (sector_size <= free_bytes -> fs <= free_bytes).
Proof.
  intros Hf Hs Hb Hplan.
  rewrite plan_autofit in Hplan by assumption.
  set (mb := headroom free_bytes / sector_size * sector_size) in *.
  destruct (fit_blocks_shape (fit_to_max requested false mb) sector_size
              block_kb Hs Hb) as (Hfit & _ & _ & _ & Hmin).
  rewrite Hfit in Hplan. injection Hplan as <- <-.
  pose proof (headroom_nonneg free_bytes ltac:(lia)) as Hh0.
  pose proof (headroom_le free_bytes ltac:(lia)) as Hh.
  pose proof (align_down_bounds sector_size Hs (headroom free_bytes)) as [Hmb _].
  fold mb in Hmb.
  assert (Hmb0 : 0 <= mb)
    by (subst mb; apply Z.mul_nonneg_nonneg; [apply Z.div_pos |]; lia).
  destruct (fit_to_max_le requested mb) as [_ Hfm].
  specialize (Hfm ltac:(lia)).
  set (F := Z.max (fit_to_max requested false mb) sector_size) in *.
  set (b := Z.min _ F) in *.
  pose proof (align_down_bounds b ltac:(lia) F) as [HFb _].
  repeat apply conj; lia.
Qed.

Lemma autofit_fits_free_space_witness :
  (0 <= 1000000 < 2 ^ 64 /\ 0 < 512 /\ 0 < 1024 /\
   plan 0 false 1000000 512 1024 = Ok (799744, 799744)) /\
  799744 <= Z.max 512 (headroom 1000000) /\
  1000 * headroom 1000000 <= 801 * 1000000 /\
  (512 <= 1000000 -> 799744 <= 1000000).
Proof.
  assert (Hplan : plan 0 false 1000000 512 1024 = Ok (799744, 799744))
    by (vm_compute; reflexivity).
  split; [repeat apply conj; try lia; exact Hplan |].
  apply (autofit_fits_free_space 0 1000000 512 1024 799744 799744);
    try lia; exact Hplan.
Defined.



(** X9: the block and the file of a plan are whole numbers of sectors
    whenever the request is one, or is at most one sector, or is replaced
    by the aligned headroom of autofit. *)
Theorem plan_aligned
    (requested : Z) (no_autofit : bool)
    (free_bytes sector_size block_kb max_bytes fs bs : Z) :
  0 < sector_size -> 0 < block_kb ->
  max_bytes_of requested no_autofit free_bytes sector_size = Ok max_bytes ->
  plan requested no_autofit free_bytes sector_size block_kb = Ok (fs, bs) ->
  requested mod sector_size = 0 \/ requested <= sector_size \/
  (no_autofit = false /\ (requested = 0 \/ requested > max_bytes)) ->
  bs mod sector_size = 0 /\ fs mod sector_size = 0.
Proof.
  intros Hs Hb Hmb Hplan Hcase.
  unfold plan in Hplan. rewrite Hmb in Hplan. cbn [bind] in Hplan.
  apply bind_Ok in Hplan as ([] & _ & Hfit).
  apply (fit_blocks_aligned _ _ _ _ _ Hs Hb) in Hfit; [exact Hfit |].
  assert (Hal : no_autofit = false -> max_bytes mod sector_size = 0).
  { intros ->. unfold max_bytes_of in Hmb. cbn [negb] in Hmb.
    apply bind_Ok in Hmb as (s0 & _ & Hmb).
    rewrite align_down_pos in Hmb by assumption. injection Hmb as <-.
    apply Z.mod_mul. lia. }
  unfold fit_to_max.
  destruct Hcase as [Hm | [Hle | (-> & Hclamp)]].
  - destruct (negb no_autofit && _) eqn:Hc; [| right; exact Hm].
    right. apply Hal. destruct no_autofit; [discriminate | reflexivity].
  - destruct (negb no_autofit && _) eqn:Hc; [| left; exact Hle].
    right. apply Hal. destruct no_autofit; [discriminate | reflexivity].
  - cbn [negb andb].
    replace ((requested =? 0) || (requested >? max_bytes)) with true.
    + right. apply Hal. reflexivity.
    + symmetry. apply orb_true_iff.
      destruct Hclamp as [-> | Hgt]; [left; reflexivity | right].
      apply Z.gtb_lt. lia.
Qed.

Lemma plan_aligned_witness :
  (0 < 512 /\ 0 < 1024 /\
   max_bytes_of 900000 false 1000000 512 = Ok 799744 /\
   plan 900000 false 1000000 512 1024 = Ok (799744, 799744) /\
   (900000 mod 512 = 0 \/ 900000 <= 512 \/
    (false = false /\ (900000 = 0 \/ 900000 > 799744)))) /\
  799744 mod 512 = 0 /\ 799744 mod 512 = 0.
Proof.
  assert (Hmb : max_bytes_of 900000 false 1000000 512 = Ok 799744)
    by (vm_compute; reflexivity).
  assert (Hplan : plan 900000 false 1000000 512 1024 = Ok (799744, 799744))
    by (vm_compute; reflexivity).
  assert (Hc : 900000 mod 512 = 0 \/ 900000 <= 512 \/
               (false = false /\ (900000 = 0 \/ 900000 > 799744)))
    by (right; right; split; [reflexivity | right; lia]).
  split; [repeat apply conj; try lia; assumption |].
  apply (plan_aligned 900000 false 1000000 512 1024 799744 799744 799744);
    try lia; assumption.
Defined.

(** ** The transfer loop against any device *)

Lemma total_app (xs ys : list Z) : total (xs ++ ys) = total xs + total ys.
Proof. induction xs as [|x xs IH]; cbn [app total]; lia. Qed.

Lemma next_io_bounds (block_size to_go : Z) :
  0 < block_size -> 0 < to_go ->
  0 < next_io block_size to_go <= block_size /\
  next_io block_size to_go <= to_go /\
  (next_io block_size to_go < block_size -> next_io block_size to_go = to_go).
Proof.
  intros Hb Ht. unfold next_io. destruct (Z.geb_spec to_go block_size); lia.
Qed.




(** X11: a block of [2^32] bytes or more is never moved: the count read
    back is a DWORD, so it differs from the count of the first transfer
    whatever the device does, and the loop raises at once. *)
Theorem block_of_4GiB_rejected
    (fuel : nat) (call : nat -> Z -> io_reply) (failed : Z -> exn)
    (file_size block_size : Z) (k : nat) :
  2 ^ 32 <= block_size <= file_size ->
  transfer_loop (S fuel) call failed block_size k file_size =
    ([block_size],
     Raise (failed (DWORD (moved (call k (DWORD block_size)))))).
Proof.
  intros Hb.
  assert (Hnext : next_io block_size file_size = block_size).
  { unfold next_io. destruct (Z.geb_spec file_size block_size); [reflexivity | lia]. }
  pose proof (transfer_loop_rejected fuel call failed block_size k file_size
                ltac:(lia)) as Hrej.
  cbv zeta in Hrej. rewrite Hnext in Hrej. apply Hrej.
  right. pose proof (DWORD_range (moved (call k (DWORD block_size)))). lia.
Qed.

Lemma block_of_4GiB_rejected_witness :
  2 ^ 32 <= 2 ^ 33 <= 2 ^ 34 /\
  transfer_loop 1 (transfer steady_os 0%nat) (write_failed steady_os)
                (2 ^ 33) 0%nat (2 ^ 34) =
    ([2 ^ 33],
     Raise (write_failed steady_os
              (DWORD (moved (transfer steady_os 0%nat 0%nat (DWORD (2 ^ 33))))))).
Proof.
  split; [lia |].
  apply (block_of_4GiB_rejected 0 (transfer steady_os 0%nat)
           (write_failed steady_os) (2 ^ 34) (2 ^ 33) 0%nat).
  lia.
Defined.

(** X12: a device whose transfers always complete is given a file of any
    size, in blocks of fewer than [2^32] bytes, in full blocks followed by
    one transfer of the rest, if there is one; the loop completes within
    a fuel of one per transfer. *)
Theorem full_device_any_size
    (call : nat -> Z -> io_reply) (failed : Z -> exn) (file_size block_size : Z)
    (fuel k : nat) :
  completes_fully call -> 0 < block_size < 2 ^ 32 -> 0 <= file_size ->
  (Z.to_nat ((file_size + block_size - 1) / block_size) <= fuel)%nat ->
  let issued :=
    repeat block_size (Z.to_nat (file_size / block_size))
      ++ (if file_size mod block_size =? 0 then [] else [file_size mod block_size]) in
  transfer_loop fuel call failed block_size k file_size = (issued, Ok tt) /\
  total issued = file_size /\
  length issued = Z.to_nat ((file_size + block_size - 1) / block_size).
Proof.
  intros Hfull Hb Hf Hfuel issued. repeat apply conj.
  - apply transfer_loop_any_size; assumption.
  - subst issued. rewrite total_app, total_repeat.
    pose proof (Z.div_mod file_size block_size ltac:(lia)) as Hdm.
    assert (Hq : 0 <= file_size / block_size) by (apply Z.div_pos; lia).
    rewrite Z2Nat.id by assumption.
    destruct (Z.eqb_spec (file_size mod block_size) 0); cbn [total]; lia.
  - subst issued. rewrite length_app, repeat_length, transfers_needed by lia.
    destruct (file_size mod block_size =? 0); reflexivity.
Qed.

Lemma full_device_any_size_witness :
  (completes_fully (transfer steady_os 0%nat) /\ 0 < 4096 < 2 ^ 32 /\
   0 <= 10000 /\ (Z.to_nat ((10000 + 4096 - 1) / 4096) <= 3)%nat) /\
  let issued :=
    repeat 4096 (Z.to_nat (10000 / 4096))
      ++ (if 10000 mod 4096 =? 0 then [] else [10000 mod 4096]) in
  transfer_loop 3 (transfer steady_os 0%nat) (read_failed steady_os) 4096
                0%nat 10000 = (issued, Ok tt) /\
  total issued = 10000 /\
  length issued = Z.to_nat ((10000 + 4096 - 1) / 4096).
Proof.
  assert (Hfull : completes_fully (transfer steady_os 0%nat))
    by (intros k count; split; reflexivity).
  assert (Hfuel : (Z.to_nat ((10000 + 4096 - 1) / 4096) <= 3)%nat)
    by (vm_compute; repeat constructor).
  split; [repeat apply conj; try lia; assumption |].
  apply (full_device_any_size (transfer steady_os 0%nat)
           (read_failed steady_os) 10000 4096 3 0%nat Hfull);
    try lia; exact Hfuel.
Defined.

(** ** What the tests raise *)

Lemma throughput_raises (total_bytes : Z) (seconds : F64.float) (e : exn) :
  throughput_mb_s total_bytes seconds = Raise e -> e = OverflowError.
Proof.
  destruct (F64.ltb F64.zero seconds) eqn:Hs.
  - rewrite throughput_positive_time by assumption.
    unfold F64.int_div_MiB.
    destruct (binary_normalize F64.prec F64.emax total_bytes (-20) false);
      cbn [bind]; intros H; try discriminate; injection H as <-; reflexivity.
  - unfold throughput_mb_s. rewrite Hs. discriminate.
Qed.

(** A pass raises in its seek, in a transfer or in the sample. *)
Lemma one_pass_raises fuel os failed seeks_before file_size block_size
    (st st' : locals) (e : exn) :
  one_pass fuel os failed seeks_before file_size block_size st = (st', Raise e) ->
  e = OSError SetFilePointerEx_failed (last_error os) \/
  (exists dw, e = failed dw) \/
  throughput_mb_s file_size (elapsed_of os (done st)) = Raise e.
Proof.
  unfold one_pass, seq, read, lift, assign.
  fold (elapsed_of os (done st)).
  unfold set_pointer, check.
  destruct (SetFilePointerEx_ok os (seeks_before + done st)).
  2:{ intros [= _ <-]. left. reflexivity. }
  destruct (transfer_loop fuel (transfer os (done st)) failed block_size 0%nat
                          file_size) as [issued [[] | e' |]] eqn:Hloop;
    cbn [snd].
  - destruct (throughput_mb_s file_size (elapsed_of os (done st)))
      as [sample | e' |]; try discriminate.
    intros [= _ <-]. right. right. reflexivity.
  - intros [= _ <-]. right. left.
    destruct (transfer_loop_raises _ _ _ _ _ _ _ _ Hloop)
      as (before & this_io & _ & _ & -> & _).
    eauto.
  - discriminate.
Qed.

Lemma pass_loop_raises os failed seeks_before file_size block_size passes
    min_seconds :
  forall fuel (st st' : locals) (e : exn),
    pass_loop fuel os failed seeks_before file_size block_size passes
              min_seconds st = (st', Raise e) ->
    e = OSError SetFilePointerEx_failed (last_error os) \/
    (exists dw, e = failed dw) \/
    (exists p, throughput_mb_s file_size (elapsed_of os p) = Raise e).
Proof.
  induction fuel as [|fuel IH]; intros st st' e Hrun.
  - cbn [pass_loop] in Hrun.
    destruct (continue passes min_seconds st); discriminate.
  - destruct (continue passes min_seconds st) eqn:Hc;
      [| rewrite pass_loop_stop in Hrun by assumption; discriminate].
    rewrite pass_loop_step in Hrun by assumption.
    destruct (one_pass fuel os failed seeks_before file_size block_size st)
      as [st1 [[] | e1 |]] eqn:Hpass; try discriminate.
    + exact (IH _ _ _ Hrun).
    + injection Hrun as _ <-.
      destruct (one_pass_raises _ _ _ _ _ _ _ _ _ Hpass) as [H | [H | H]];
        eauto.
Qed.

(** What a test raises, stage by stage. *)
Lemma run_write_tests_raises fuel os file_size block_size passes min_seconds e :
  run_write_tests fuel os file_size block_size passes min_seconds = Raise e ->
  (CreateFileW_ok os = false /\ e = OSError CreateFileW_failed (last_error os)) \/
  (CreateFileW_ok os = true /\ SetFilePointerEx_ok os 0%nat = false /\
   e = OSError SetFilePointerEx_size_failed (last_error os)) \/
  (CreateFileW_ok os = true /\ SetFilePointerEx_ok os 0%nat = true /\
   SetEndOfFile_ok os = false /\
   e = OSError SetEndOfFile_failed (last_error os)) \/
  (CreateFileW_ok os = true /\ SetFilePointerEx_ok os 0%nat = true /\
   SetEndOfFile_ok os = true /\ SetFilePointerEx_ok os 1%nat = false /\
   e = OSError SetFilePointerEx_rewind_failed (last_error os)) \/
  (CreateFileW_ok os = true /\ SetFilePointerEx_ok os 0%nat = true /\
   SetEndOfFile_ok os = true /\ SetFilePointerEx_ok os 1%nat = true /\
   VirtualAlloc_ok os = false /\ e = MemoryError) \/
  (CreateFileW_ok os = true /\ SetFilePointerEx_ok os 0%nat = true /\
   SetEndOfFile_ok os = true /\ SetFilePointerEx_ok os 1%nat = true /\
   VirtualAlloc_ok os = true /\
   (e = OSError SetFilePointerEx_failed (last_error os) \/
    (exists dw, e = OSError (WriteFile_failed_wrote dw) (last_error os)) \/
    (exists p, throughput_mb_s file_size (elapsed_of os p) = Raise e))).
Proof.
  unfold run_write_tests, open_unbuffered, set_file_size, alloc_aligned, check.
  destruct (CreateFileW_ok os); cbn [bind];
    [| intros [= <-]; left; auto].
  destruct (SetFilePointerEx_ok os 0%nat); cbn [bind];
    [| intros [= <-]; right; left; auto].
  destruct (SetEndOfFile_ok os); cbn [bind];
    [| intros [= <-]; do 2 right; left; auto].
  destruct (SetFilePointerEx_ok os 1%nat); cbn [bind];
    [| intros [= <-]; do 3 right; left; auto].
  destruct (VirtualAlloc_ok os); cbn [bind];
    [| intros [= <-]; do 4 right; left; repeat split].
  destruct (pass_loop fuel os (write_failed os) 2%nat file_size block_size
                      passes min_seconds fresh) as [st [[] | e' |]] eqn:Hloop;
    cbn [bind]; try discriminate.
  intros [= <-]. do 5 right. repeat (split; [reflexivity |]).
  exact (pass_loop_raises _ _ _ _ _ _ _ _ _ _ _ Hloop).
Qed.

Lemma run_read_tests_raises fuel os file_size block_size passes min_seconds e :
  run_read_tests fuel os file_size block_size passes min_seconds = Raise e ->
  (CreateFileW_ok os = false /\ e = OSError CreateFileW_failed (last_error os)) \/
  (CreateFileW_ok os = true /\ VirtualAlloc_ok os = false /\ e = MemoryError) \/
  (CreateFileW_ok os = true /\ VirtualAlloc_ok os = true /\
   (e = OSError SetFilePointerEx_failed (last_error os) \/
    (exists dw, e = OSError (ReadFile_failed_read dw) (last_error os)) \/
    (exists p, throughput_mb_s file_size (elapsed_of os p) = Raise e))).
Proof.
  unfold run_read_tests, open_unbuffered, alloc_aligned, check.
  destruct (CreateFileW_ok os); cbn [bind];
    [| intros [= <-]; left; auto].
  destruct (VirtualAlloc_ok os); cbn [bind];
    [| intros [= <-]; right; left; auto].
  destruct (pass_loop fuel os (read_failed os) 0%nat file_size block_size
                      passes min_seconds fresh) as [st [[] | e' |]] eqn:Hloop;
    cbn [bind]; try discriminate.
  intros [= <-]. do 2 right. repeat (split; [reflexivity |]).
  exact (pass_loop_raises _ _ _ _ _ _ _ _ _ _ _ Hloop).
Qed.

(** X13: for a file of fewer than [2^64] bytes, a test raises nothing but
    an [OSError] with the last error of the system, or the [MemoryError]
    of a failed allocation: no division by zero, no overflow and no
    [ValueError] comes out of the passes. *)
Theorem tests_raise_only
    (fuel : nat) (os : OS) (file_size block_size passes : Z)
    (min_seconds : F64.float) (e : exn) :
  0 <= file_size < 2 ^ 64 ->
  run_write_tests fuel os file_size block_size passes min_seconds = Raise e \/
  run_read_tests fuel os file_size block_size passes min_seconds = Raise e ->
  (e = MemoryError /\ VirtualAlloc_ok os = false) \/
  (exists what, e = OSError what (last_error os)).
Proof.
  intros Hfs Hrun.
  assert (Hsample : forall p,
            throughput_mb_s file_size (elapsed_of os p) <> Raise e).
  { intros p H. destruct (throughput_Ok file_size (elapsed_of os p) Hfs) as [x Hx].
    congruence. }
  destruct Hrun as [Hrun | Hrun].
  - apply run_write_tests_raises in Hrun
      as [(_ & ->) | [(_ & _ & ->) | [(_ & _ & _ & ->) | [(_ & _ & _ & _ & ->)
         | [(_ & _ & _ & _ & Ha & ->) | (_ & _ & _ & _ & _ & H)]]]]]; eauto.
    destruct H as [-> | [[dw ->] | [p H]]]; eauto.
    exfalso. exact (Hsample p H).
  - apply run_read_tests_raises in Hrun
      as [(_ & ->) | [(_ & Ha & ->) | (_ & _ & H)]]; eauto.
    destruct H as [-> | [[dw ->] | [p H]]]; eauto.
    exfalso. exact (Hsample p H).
Qed.

Lemma tests_raise_only_witness :
  (0 <= 8192 < 2 ^ 64 /\
   (run_write_tests 3 short_os 8192 4096 1 F64.zero
      = Raise (OSError (WriteFile_failed_wrote 512) 0) \/
    run_read_tests 3 short_os 8192 4096 1 F64.zero
      = Raise (OSError (WriteFile_failed_wrote 512) 0))) /\
  ((OSError (WriteFile_failed_wrote 512) 0 = MemoryError /\
    VirtualAlloc_ok short_os = false) \/
   (exists what,
      OSError (WriteFile_failed_wrote 512) 0 = OSError what (last_error short_os))).
Proof.
  assert (Hrun : run_write_tests 3 short_os 8192 4096 1 F64.zero
                 = Raise (OSError (WriteFile_failed_wrote 512) 0))
    by (vm_compute; reflexivity).
  split; [split; [lia | left; exact Hrun] |].
  apply (tests_raise_only 3 short_os 8192 4096 1 F64.zero
           (OSError (WriteFile_failed_wrote 512) 0)); [lia |].
  left. exact Hrun.
Defined.

(** X14: the errors of the set-up of the write test tell which step
    failed: each is raised exactly when the steps before it succeeded and
    its own did not, whatever the passes would have done. *)
Theorem write_setup_errors
    (fuel : nat) (os : OS) (file_size block_size passes : Z)
    (min_seconds : F64.float) (code : Z) :
  let run := run_write_tests fuel os file_size block_size passes min_seconds in
  (run = Raise (OSError CreateFileW_failed code) <->
   CreateFileW_ok os = false /\ code = last_error os) /\
  (run = Raise (OSError SetFilePointerEx_size_failed code) <->
   CreateFileW_ok os = true /\ SetFilePointerEx_ok os 0%nat = false /\
   code = last_error os) /\
  (run = Raise (OSError SetEndOfFile_failed code) <->
   CreateFileW_ok os = true /\ SetFilePointerEx_ok os 0%nat = true /\
   SetEndOfFile_ok os = false /\ code = last_error os) /\
  (run = Raise (OSError SetFilePointerEx_rewind_failed code) <->
   CreateFileW_ok os = true /\ SetFilePointerEx_ok os 0%nat = true /\
   SetEndOfFile_ok os = true /\ SetFilePointerEx_ok os 1%nat = false /\
   code = last_error os) /\
  (run = Raise MemoryError <->
   CreateFileW_ok os = true /\ SetFilePointerEx_ok os 0%nat = true /\
   SetEndOfFile_ok os = true /\ SetFilePointerEx_ok os 1%nat = true /\
   VirtualAlloc_ok os = false).
Proof.
  intros run.
  assert (Hpasses : forall e,
    (e = OSError SetFilePointerEx_failed (last_error os) \/
     (exists dw, e = OSError (WriteFile_failed_wrote dw) (last_error os)) \/
     (exists p, throughput_mb_s file_size (elapsed_of os p) = Raise e)) ->
    match e with
    | OSError SetFilePointerEx_failed _ | OSError (WriteFile_failed_wrote _) _
    | OverflowError => True
    | _ => False
    end).
  { intros e [-> | [[dw ->] | [p H]]]; try exact I.
    apply throughput_raises in H. subst e. exact I. }
  assert (Hforward : forall e,
    run = Raise e ->
    match e with
    | OSError CreateFileW_failed c =>
        CreateFileW_ok os = false /\ c = last_error os
    | OSError SetFilePointerEx_size_failed c =>
        CreateFileW_ok os = true /\ SetFilePointerEx_ok os 0%nat = false /\
        c = last_error os
    | OSError SetEndOfFile_failed c =>
        CreateFileW_ok os = true /\ SetFilePointerEx_ok os 0%nat = true /\
        SetEndOfFile_ok os = false /\ c = last_error os
    | OSError SetFilePointerEx_rewind_failed c =>
        CreateFileW_ok os = true /\ SetFilePointerEx_ok os 0%nat = true /\
        SetEndOfFile_ok os = true /\ SetFilePointerEx_ok os 1%nat = false /\
        c = last_error os
    | MemoryError =>
        CreateFileW_ok os = true /\ SetFilePointerEx_ok os 0%nat = true /\
        SetEndOfFile_ok os = true /\ SetFilePointerEx_ok os 1%nat = true /\
        VirtualAlloc_ok os = false
    | _ => True
    end).
  { intros e Hrun. subst run.
    apply run_write_tests_raises in Hrun
      as [(H1 & ->) | [(H1 & H2 & ->) | [(H1 & H2 & H3 & ->)
         | [(H1 & H2 & H3 & H4 & ->) | [(H1 & H2 & H3 & H4 & H5 & ->)
         | (_ & _ & _ & _ & _ & H)]]]]]; auto 10.
    apply Hpasses in H. destruct e as [| | | | | |[] c]; try exact I;
      contradiction. }
  assert (Hback :
    (CreateFileW_ok os = false ->
     run = Raise (OSError CreateFileW_failed (last_error os))) /\
    (CreateFileW_ok os = true -> SetFilePointerEx_ok os 0%nat = false ->
     run = Raise (OSError SetFilePointerEx_size_failed (last_error os))) /\
    (CreateFileW_ok os = true -> SetFilePointerEx_ok os 0%nat = true ->
     SetEndOfFile_ok os = false ->
     run = Raise (OSError SetEndOfFile_failed (last_error os))) /\
    (CreateFileW_ok os = true -> SetFilePointerEx_ok os 0%nat = true ->
     SetEndOfFile_ok os = true -> SetFilePointerEx_ok os 1%nat = false ->
     run = Raise (OSError SetFilePointerEx_rewind_failed (last_error os))) /\
    (CreateFileW_ok os = true -> SetFilePointerEx_ok os 0%nat = true ->
     SetEndOfFile_ok os = true -> SetFilePointerEx_ok os 1%nat = true ->
     VirtualAlloc_ok os = false -> run = Raise MemoryError)).
  { subst run.
    unfold run_write_tests, open_unbuffered, set_file_size, alloc_aligned, check.
    repeat apply conj; intros;
      repeat match goal with H : _ = _ :> bool |- _ => rewrite H; clear H end;
      reflexivity. }
  destruct Hback as (B1 & B2 & B3 & B4 & B5).
  split; [| split; [| split; [| split]]];
    (split; [intros H; exact (Hforward _ H) |]).
  - intros (H1 & ->). auto.
  - intros (H1 & H2 & ->). auto.
  - intros (H1 & H2 & H3 & ->). auto.
  - intros (H1 & H2 & H3 & H4 & ->). auto.
  - intros (H1 & H2 & H3 & H4 & H5). auto.
Qed.

(** ** Runs without a minimum duration *)

(** A [--min-seconds] that is zero, negative or a NaN is never above a
    total time that is not negative. *)
Lemma no_minimum (total_time min_seconds : F64.float) :
  F64.leb F64.zero total_time = true ->
  F64.ltb F64.zero min_seconds = false ->
  F64.ltb total_time min_seconds = false.
Proof.
  destruct total_time as [[] | [] | | [] mt et]; try discriminate;
    destruct min_seconds as [[] | [] | | [] mm em]; try discriminate;
    reflexivity.
Qed.

(** With no minimum duration and a well-behaved system the loop makes the
    passes that are left and returns; each pass appends the sample of its
    own elapsed time. *)
Lemma pass_loop_counts os failed seeks_before file_size block_size passes
    min_seconds :
  well_behaved os -> F64.ltb F64.zero min_seconds = false ->
  0 < block_size < 2 ^ 32 -> 0 <= file_size < 2 ^ 64 ->
  forall (left_ fuel : nat) (st : locals),
    F64.leb F64.zero (total_elapsed st) = true ->
    Z.of_nat (done st) + Z.of_nat left_ = Z.max passes (Z.of_nat (done st)) ->
    (left_ + Z.to_nat ((file_size + block_size - 1) / block_size) <= fuel)%nat ->
    exists st',
      pass_loop fuel os failed seeks_before file_size block_size passes
                min_seconds st = (st', Ok tt) /\
      done st' = (done st + left_)%nat /\
      map Ok (per_pass st') =
        map Ok (per_pass st)
        ++ map (fun p => throughput_mb_s file_size (elapsed_of os p))
               (List.seq (done st) left_).
Proof.
  intros (Hseek & Hfull & Hclock) Hmin Hb Hfs.
  induction left_ as [|k IH]; intros fuel st Htot Hleft Hfuel.
  - exists st. rewrite Nat.add_0_r. cbn [List.seq map]. rewrite app_nil_r.
    repeat split.
    apply pass_loop_stop. unfold continue.
    rewrite (no_minimum _ _ Htot Hmin).
    destruct (Z.ltb_spec (Z.of_nat (done st)) passes); [lia | reflexivity].
  - destruct fuel as [|fuel]; [lia |].
    assert (Hc : continue passes min_seconds st = true).
    { unfold continue.
      destruct (Z.ltb_spec (Z.of_nat (done st)) passes); [reflexivity | lia]. }
    rewrite pass_loop_step by assumption.
    pose proof (transfer_loop_any_size (transfer os (done st)) failed file_size
                  block_size (Hfull _) Hb ltac:(lia) fuel 0%nat ltac:(lia))
      as Hloop.
    destruct (throughput_Ok file_size (elapsed_of os (done st)) Hfs)
      as [sample Hsample].
    assert (Hpass : one_pass fuel os failed seeks_before file_size block_size st
              = ({| per_pass := per_pass st ++ [sample];
                    total_elapsed :=
                      F64.add (total_elapsed st) (elapsed_of os (done st));
                    done := S (done st) |}, Ok tt)).
    { unfold one_pass, seq, read, lift, assign, set_pointer, check.
      rewrite Hseek, Hloop. cbn [snd].
      fold (elapsed_of os (done st)). rewrite Hsample. reflexivity. }
    rewrite Hpass.
    set (st1 := {| per_pass := per_pass st ++ [sample];
                   total_elapsed :=
                     F64.add (total_elapsed st) (elapsed_of os (done st));
                   done := S (done st) |}).
    destruct (IH fuel st1) as (st' & Hrun & Hd & Hl).
    + apply add_nonneg; [exact Htot | apply Hclock].
    + cbn [done st1]. lia.
    + lia.
    + exists st'. subst st1. cbn [done per_pass] in *.
      repeat split; [exact Hrun | lia |].
      rewrite Hl, map_app, <- app_assoc. cbn [List.seq map app].
      rewrite Hsample. reflexivity.
Qed.

(** X15: when nothing fails and [--min-seconds] is zero, negative or a
    NaN, the write test and the read test of a file of any size below
    [2^64], in blocks of fewer than [2^32] bytes, return exactly [passes]
    samples (none for a [passes] that is not positive), the sample of
    pass [p] being the throughput of its own elapsed time. *)
Theorem tests_without_minimum
    (os : OS) (file_size block_size passes : Z) (min_seconds : F64.float)
    (fuel : nat) :
  CreateFileW_ok os = true -> SetEndOfFile_ok os = true ->
  VirtualAlloc_ok os = true -> well_behaved os ->
  F64.ltb F64.zero min_seconds = false ->
  0 < block_size < 2 ^ 32 -> 0 <= file_size < 2 ^ 64 ->
  (Z.to_nat passes + Z.to_nat ((file_size + block_size - 1) / block_size)
   <= fuel)%nat ->
  exists series,
    run_write_tests fuel os file_size block_size passes min_seconds = Ok series /\
    run_read_tests fuel os file_size block_size passes min_seconds = Ok series /\
    length series = Z.to_nat passes /\
    map Ok series =
      map (fun p => throughput_mb_s file_size (elapsed_of os p))
          (List.seq 0 (Z.to_nat passes)).
Proof.
  intros Hopen Heof Halloc Hos Hmin Hb Hfs Hfuel.
  assert (Hloop : forall failed seeks_before,
    exists st,
      pass_loop fuel os failed seeks_before file_size block_size passes
                min_seconds fresh = (st, Ok tt) /\
      map Ok (per_pass st) =
        map (fun p => throughput_mb_s file_size (elapsed_of os p))
            (List.seq 0 (Z.to_nat passes))).
  { intros failed sb.
    destruct (pass_loop_counts os failed sb file_size block_size passes
                min_seconds Hos Hmin Hb Hfs (Z.to_nat passes) fuel fresh)
      as (st & Hrun & _ & Hl); [reflexivity | cbn [done fresh]; lia | lia |].
    exists st. split; [exact Hrun | exact Hl]. }
  destruct (Hloop (write_failed os) 2%nat) as (stw & Hw & Hsw).
  destruct (Hloop (read_failed os) 0%nat) as (str & Hr & Hsr).
  assert (Heq : per_pass str = per_pass stw).
  { rewrite <- Hsw in Hsr. revert Hsr. generalize (per_pass stw).
    induction (per_pass str) as [|x xs IH]; intros [|y ys] H;
      try discriminate; [reflexivity |].
    cbn [map] in H. injection H as -> H. f_equal. exact (IH _ H). }
  exists (per_pass stw). destruct Hos as (Hseek & _).
  unfold run_write_tests, run_read_tests, open_unbuffered, set_file_size,
    alloc_aligned, check.
  rewrite Hopen, Heof, Halloc, !Hseek. cbn [bind]. rewrite Hw, Hr. cbn [bind].
  rewrite Heq. repeat split; [| exact Hsw].
  rewrite <- (length_map (@Ok F64.float)), Hsw, length_map, length_seq.
  reflexivity.
Qed.

Lemma tests_without_minimum_witness :
  (CreateFileW_ok frozen_os = true /\ SetEndOfFile_ok frozen_os = true /\
   VirtualAlloc_ok frozen_os = true /\ well_behaved frozen_os /\
   F64.ltb F64.zero S754_nan = false /\
   0 < 4096 < 2 ^ 32 /\ 0 <= 10000 < 2 ^ 64 /\
   (Z.to_nat 2 + Z.to_nat ((10000 + 4096 - 1) / 4096) <= 5)%nat) /\
  exists series,
    run_write_tests 5 frozen_os 10000 4096 2 S754_nan = Ok series /\
    run_read_tests 5 frozen_os 10000 4096 2 S754_nan = Ok series /\
    length series = Z.to_nat 2 /\
    map Ok series =
      map (fun p => throughput_mb_s 10000 (elapsed_of frozen_os p))
          (List.seq 0 (Z.to_nat 2)).
Proof.
  assert (Hos : well_behaved frozen_os).
  { repeat split; intros; reflexivity. }
  assert (Hfuel : (Z.to_nat 2 + Z.to_nat ((10000 + 4096 - 1) / 4096) <= 5)%nat)
    by (vm_compute; repeat constructor).
  split;
    [repeat (first [exact Hos | exact Hfuel | apply conj]);
     try lia; reflexivity |].
  apply (tests_without_minimum frozen_os 10000 4096 2 S754_nan 5);
    try lia; try reflexivity; assumption.
Defined.

(** ** A clock that stands still *)

Lemma ltb_of_zero (t m : F64.float) :
  F64.is_zero t = true -> F64.ltb t m = F64.ltb F64.zero m.
Proof. destruct t; try discriminate. intros _. destruct m; reflexivity. Qed.

Lemma add_zeros (x y : F64.float) :
  F64.is_zero x = true -> F64.is_zero y = true ->
  F64.is_zero (F64.add x y) = true.
Proof.
  destruct x as [[] | | |]; try discriminate;
    destruct y as [[] | | |]; try discriminate; reflexivity.
Qed.

(** A device that completes every transfer never makes the loop raise. *)
Lemma transfer_loop_full_device call failed block_size :
  completes_fully call -> 0 < block_size < 2 ^ 32 ->
  forall fuel k to_go,
    snd (transfer_loop fuel call failed block_size k to_go) = Ok tt \/
    snd (transfer_loop fuel call failed block_size k to_go) = OutOfFuel.
Proof.
  intros Hfull Hb. induction fuel as [|fuel IH]; intros k to_go.
  - cbn [transfer_loop]. destruct (to_go >? 0); auto.
  - destruct (Z.gtb_spec to_go 0) as [Hpos | Hle];
      [| rewrite transfer_loop_done by lia; auto].
    rewrite transfer_loop_step by lia.
    destruct (next_io_bounds block_size to_go ltac:(lia) Hpos) as (Hio & _).
    destruct (Hfull k (DWORD (next_io block_size to_go))) as [Hok Hmoved].
    rewrite Hok, Hmoved, !DWORD_small, Z.eqb_refl
      by (try apply DWORD_range; lia).
    cbn [negb orb snd]. apply IH.
Qed.

(** X16: with a positive [--min-seconds] and a clock on which no pass
    takes any time, a test never returns its series; if moreover nothing
    fails, it neither returns nor raises, however long it runs. *)
Theorem stalled_clock_never_returns
    (os : OS) (file_size block_size passes : Z) (min_seconds : F64.float) :
  (forall p, F64.is_zero (elapsed_of os p) = true) ->
  F64.ltb F64.zero min_seconds = true ->
  (forall fuel series,
     run_write_tests fuel os file_size block_size passes min_seconds <> Ok series /\
     run_read_tests fuel os file_size block_size passes min_seconds <> Ok series) /\
  (CreateFileW_ok os = true -> SetEndOfFile_ok os = true ->
   VirtualAlloc_ok os = true ->
   (forall n, SetFilePointerEx_ok os n = true) ->
   (forall p, completes_fully (transfer os p)) ->
   0 < block_size < 2 ^ 32 ->
   forall fuel,
     run_write_tests fuel os file_size block_size passes min_seconds = OutOfFuel /\
     run_read_tests fuel os file_size block_size passes min_seconds = OutOfFuel).
Proof.
  intros Hclock Hmin. split.
  - assert (Hloop : forall failed sb fuel st,
      pass_loop fuel os failed sb file_size block_size passes min_seconds fresh
        <> (st, Ok tt)).
    { intros failed sb fuel st Hrun.
      apply (pass_loop_invariant os failed sb file_size block_size passes
               min_seconds
               (fun st => F64.is_zero (total_elapsed st) = true)) in Hrun.
      - destruct Hrun as [Hz Hstop]. unfold continue in Hstop.
        apply orb_false_elim in Hstop as [_ Hstop].
        rewrite (ltb_of_zero _ _ Hz) in Hstop. congruence.
      - intros f st0 st1 Hz _ Hp.
        apply one_pass_Ok in Hp as (sample & _ & _ & _ & ->).
        cbn [total_elapsed]. apply add_zeros; [exact Hz | apply Hclock].
      - reflexivity. }
    intros fuel series. split; intros Hrun.
    + apply run_write_tests_Ok in Hrun as (st & Hl & _). exact (Hloop _ _ _ _ Hl).
    + apply run_read_tests_Ok in Hrun as (st & Hl & _). exact (Hloop _ _ _ _ Hl).
  - intros Hopen Heof Halloc Hseek Hfull Hb.
    assert (Hloop : forall failed sb fuel st,
      F64.is_zero (total_elapsed st) = true ->
      snd (pass_loop fuel os failed sb file_size block_size passes min_seconds st)
        = OutOfFuel).
    { intros failed sb. induction fuel as [|fuel IH]; intros st Hz.
      - cbn [pass_loop]. unfold continue.
        rewrite (ltb_of_zero _ _ Hz), Hmin, orb_true_r. reflexivity.
      - rewrite pass_loop_step
          by (unfold continue;
              rewrite (ltb_of_zero _ _ Hz), Hmin, orb_true_r; reflexivity).
        unfold one_pass, seq, read, lift, assign, set_pointer, check.
        rewrite Hseek.
        fold (elapsed_of os (done st)).
        destruct (transfer_loop_full_device (transfer os (done st)) failed
                    block_size (Hfull _) Hb fuel 0%nat file_size) as [-> | ->];
          [| reflexivity].
        assert (Hs : throughput_mb_s file_size (elapsed_of os (done st))
                     = Ok F64.zero).
        { pose proof (Hclock (done st)) as Hz'. unfold throughput_mb_s.
          destruct (elapsed_of os (done st)); try discriminate. reflexivity. }
        rewrite Hs. apply IH. cbn [total_elapsed add_elapsed append_sample
                                   count_pass].
        apply add_zeros; [exact Hz | apply Hclock]. }
    intros fuel.
    unfold run_write_tests, run_read_tests, open_unbuffered, set_file_size,
      alloc_aligned, check.
    rewrite Hopen, Heof, Halloc, !Hseek. cbn [bind].
    pose proof (Hloop (write_failed os) 2%nat fuel fresh eq_refl) as Hw.
    pose proof (Hloop (read_failed os) 0%nat fuel fresh eq_refl) as Hr.
    destruct (pass_loop fuel os (write_failed os) 2%nat file_size block_size
                        passes min_seconds fresh) as [stw rw].
    destruct (pass_loop fuel os (read_failed os) 0%nat file_size block_size
                        passes min_seconds fresh) as [str rr].
    cbn [snd] in Hw, Hr. subst rw rr. split; reflexivity.
Qed.

Lemma stalled_clock_never_returns_witness :
  ((forall p, F64.is_zero (elapsed_of frozen_os p) = true) /\
   F64.ltb F64.zero (S754_finite false 4503599627370496 (-52)) = true) /\
  (forall fuel series,
     run_write_tests fuel frozen_os 4096 4096 1
                     (S754_finite false 4503599627370496 (-52)) <> Ok series /\
     run_read_tests fuel frozen_os 4096 4096 1
                    (S754_finite false 4503599627370496 (-52)) <> Ok series) /\
  (CreateFileW_ok frozen_os = true -> SetEndOfFile_ok frozen_os = true ->
   VirtualAlloc_ok frozen_os = true ->
   (forall n, SetFilePointerEx_ok frozen_os n = true) ->
   (forall p, completes_fully (transfer frozen_os p)) ->
   0 < 4096 < 2 ^ 32 ->
   forall fuel,
     run_write_tests fuel frozen_os 4096 4096 1
                     (S754_finite false 4503599627370496 (-52)) = OutOfFuel /\
     run_read_tests fuel frozen_os 4096 4096 1
                    (S754_finite false 4503599627370496 (-52)) = OutOfFuel).
Proof.
  assert (Hclock : forall p, F64.is_zero (elapsed_of frozen_os p) = true)
    by (intros p; reflexivity).
  split; [split; [exact Hclock | reflexivity] |].
  apply (stalled_clock_never_returns frozen_os 4096 4096 1
           (S754_finite false 4503599627370496 (-52)) Hclock).
  reflexivity.
Defined.

(** ** The plan and the transfers together *)




(** ** The summary and the order of the passes *)

Lemma throughput_signed (total_bytes : Z) (seconds x : F64.float) :
  0 <= total_bytes ->
  throughput_mb_s total_bytes seconds = Ok x -> F64.signed false x.
Proof.
  intros Hb. destruct (F64.ltb F64.zero seconds) eqn:Hs.
  - rewrite throughput_positive_time by assumption.
    intros H. apply bind_Ok in H as (mib & Hmib & [= <-]).
    apply int_div_MiB_signed in Hmib as [Hfin Hsig]; [| assumption].
    apply div_nonneg; assumption.
  - unfold throughput_mb_s. rewrite Hs. intros [= <-]. reflexivity.
Qed.

(** No sample of a series returned for a file size that is not negative
    has the sign bit set. *)
Lemma series_signed fuel os file_size block_size passes min_seconds series :
  0 <= file_size ->
  run_write_tests fuel os file_size block_size passes min_seconds = Ok series \/
  run_read_tests fuel os file_size block_size passes min_seconds = Ok series ->
  Forall (F64.signed false) series.
Proof.
  intros Hfs Hrun.
  assert (Hloop : forall failed sb st,
    pass_loop fuel os failed sb file_size block_size passes min_seconds fresh
      = (st, Ok tt) ->
    Forall (F64.signed false) (per_pass st)).
  { intros failed sb st Hl.
    apply (pass_loop_invariant os failed sb file_size block_size passes
             min_seconds
             (fun st => Forall (F64.signed false) (per_pass st))) in Hl.
    - apply Hl.
    - intros f st0 st1 HI _ Hp.
      apply one_pass_Ok in Hp as (sample & _ & _ & Hs & ->).
      cbn [per_pass]. apply Forall_app. split; [exact HI |].
      constructor; [| constructor].
      exact (throughput_signed _ _ _ Hfs Hs).
    - constructor. }
  destruct Hrun as [Hrun | Hrun];
    [apply run_write_tests_Ok in Hrun as (st & Hl & ->)
    |apply run_read_tests_Ok in Hrun as (st & Hl & ->)];
    exact (Hloop _ _ _ Hl).
Qed.

(** On the floats without a sign bit the order [<=] is antisymmetric. *)
Lemma leb_antisym (x y : F64.float) :
  F64.signed false x -> F64.signed false y ->
  F64.leb x y = true -> F64.leb y x = true -> x = y.
Proof.
  intros Hx Hy Hxy Hyx.
  apply leb_rank in Hxy; try (eapply signed_not_nan; eassumption).
  apply leb_rank in Hyx; try (eapply signed_not_nan; eassumption).
  destruct x as [sx | sx | | sx mx ex], y as [sy | sy | | sy my ey];
    cbn [F64.signed] in Hx, Hy; try contradiction; subst;
    cbn [F64.rank F64.lex_le] in Hxy, Hyx; try lia; try reflexivity.
  assert (ex = ey) by lia. assert (mx = my) by lia. subst. reflexivity.
Qed.

(** X18: the extrema of the summary of a series a test returns do not
    depend on the order of the passes: every reordering of the series has
    the same minimum and the same maximum. *)
Theorem extrema_order_independent
    (fuel : nat) (os : OS) (file_size block_size passes : Z)
    (min_seconds : F64.float) (series reordered : list F64.float) :
  0 <= file_size ->
  run_write_tests fuel os file_size block_size passes min_seconds = Ok series \/
  run_read_tests fuel os file_size block_size passes min_seconds = Ok series ->
  Permutation series reordered ->
  F64.min_ reordered = F64.min_ series /\
  F64.max_ reordered = F64.max_ series.
Proof.
  intros Hfs Hrun Hp.
  pose proof (series_signed _ _ _ _ _ _ _ Hfs Hrun) as Hxs.
  assert (Hys : Forall (F64.signed false) reordered).
  { apply Forall_forall. intros y Hy.
    eapply Forall_forall in Hxs; [exact Hxs |].
    eapply Permutation_in; [apply Permutation_sym; exact Hp | exact Hy]. }
  assert (Hnan : forall l, Forall (F64.signed false) l -> no_nan l).
  { intros l. apply Forall_impl. intros v. apply signed_not_nan. }
  destruct series as [|x rest].
  { apply Permutation_nil in Hp. subst. split; reflexivity. }
  destruct reordered as [|y rest'].
  { apply Permutation_sym, Permutation_nil in Hp. discriminate. }
  cbn [F64.min_ F64.max_].
  destruct (min_fold rest x (Hnan _ Hxs)) as [Hin1 Hlow1].
  destruct (min_fold rest' y (Hnan _ Hys)) as [Hin2 Hlow2].
  destruct (max_fold rest x (Hnan _ Hxs)) as [Hax1 Hup1].
  destruct (max_fold rest' y (Hnan _ Hys)) as [Hax2 Hup2].
  cbv zeta in *.
  set (min1 := fold_left _ rest x) in *. set (min2 := fold_left _ rest' y) in *.
  set (max1 := fold_left (fun cur item => if F64.ltb cur item then item else cur)
                         rest x) in *.
  set (max2 := fold_left (fun cur item => if F64.ltb cur item then item else cur)
                         rest' y) in *.
  assert (Hto : forall v, In v (x :: rest) -> In v (y :: rest'))
    by (intros v; apply Permutation_in; exact Hp).
  assert (Hfrom : forall v, In v (y :: rest') -> In v (x :: rest))
    by (intros v; apply Permutation_in, Permutation_sym; exact Hp).
  assert (Hsig : forall v, In v (x :: rest) -> F64.signed false v)
    by (apply Forall_forall; exact Hxs).
  assert (Emin : min2 = min1) by (apply leb_antisym; auto).
  assert (Emax : max2 = max1) by (apply leb_antisym; auto).
  rewrite Emin, Emax. split; reflexivity.
Qed.

Lemma extrema_order_independent_witness :
  let a := S754_finite false 4503599627370496 (-60) in
  let b := S754_finite false 7205759403792794 (-63) in
  let c := S754_finite false 8006399337547548 (-64) in
  (0 <= 4096 /\
   (run_write_tests 10 slowing_os 4096 1024 3 F64.zero = Ok [a; b; c] \/
    run_read_tests 10 slowing_os 4096 1024 3 F64.zero = Ok [a; b; c]) /\
   Permutation [a; b; c] [b; a; c]) /\
  F64.min_ [b; a; c] = F64.min_ [a; b; c] /\
  F64.max_ [b; a; c] = F64.max_ [a; b; c].
Proof.
  intros a b c.
  assert (Hrun : run_write_tests 10 slowing_os 4096 1024 3 F64.zero
                 = Ok [a; b; c]) by (vm_compute; reflexivity).
  split; [split; [lia | split; [left; exact Hrun | apply perm_swap]] |].
  apply (extrema_order_independent 10 slowing_os 4096 1024 3 F64.zero
           [a; b; c] [b; a; c]);
    [lia | left; exact Hrun | apply perm_swap].
Defined.

(** ** The summary of a single pass *)

(** X19: the summary of a series of one sample, as the default of one
    pass gives, has that sample for its minimum, its mean and its maximum:
    for a binary64 number other than the negative zero the exact sum and
    the division by the count change nothing. *)
Theorem single_sample_summary (x : F64.float) :
  valid_binary 53 1024 x = true -> x <> S754_zero true ->
  summarize [x] = Ok {| vmin := x; vavg := x; vmax := x |}.
Proof.
  intros Hv Hnz.
  destruct x as [[] | [] | | s m e]; try reflexivity; [contradiction |].
  cbn [valid_binary] in Hv.
  unfold summarize. cbn [F64.min_ F64.max_ fold_left bind].
  unfold F64.fmean.
  assert (Hfs : F64.fsum [S754_finite s m e] = Ok (S754_finite s m e))
    by (destruct s; reflexivity).
  unfold F64.float in *. rewrite Hfs. cbn [bind length].
  unfold F64.div_int.
  change (F64.of_int (Z.of_nat 1))
    with (@Ok F64.float (S754_finite false 4503599627370496 (-52))).
  cbn [bind]. unfold F64.div. cbn [F64.is_zero].
  unfold F64.prec, F64.emax. rewrite (div_by_one s m e Hv). reflexivity.
Qed.

Lemma single_sample_summary_witness :
  let x := S754_finite false 7205759403792794 (-63) in
  (valid_binary 53 1024 x = true /\ x <> S754_zero true) /\
  summarize [x] = Ok {| vmin := x; vavg := x; vmax := x |}.
Proof.
  intros x.
  assert (Hnz : x <> S754_zero true) by discriminate.
  split; [split; [reflexivity | exact Hnz] |].
  apply (single_sample_summary x); [reflexivity | exact Hnz].
Defined.
